(** * HWCSession: the display-session layer of the hardware composer

    A shallow embedding of [sdm/libs/hwc2/hwc_session.h] and
    [sdm/libs/hwc2/hwc_session.cpp], and the properties of the session
    layer stated over it.

    - [PowerHint] embeds [HWCSession::PowerHalHintWorker]: the refresh-rate
      hint bookkeeping and the binder calls it issues.
    - [Session] embeds the display slot registry, the hotplug and
      concurrency arbiter and the validate/present pipeline controller.

    Integers are [Z] (signed) and [N] (unsigned); the pointer table
    [hwc_display_] is a finite map in which an absent key is [nullptr]. *)

From Stdlib Require Import SpecFloat.
From stdpp Require Import base option list gmap strings pretty.

Local Open Scope Z_scope.

(** ** HWC2 enumerations used by the session layer *)

Module HWC2.

Inductive Error : Set :=
| None
| BadConfig
| BadDisplay
| BadLayer
| BadParameter
| HasChanges
| NoResources
| NotValidated
| Unsupported.

Inductive PowerMode : Set := Off | Doze | On | DozeSuspend.

Inductive Connection : Set := Connected | Disconnected.

Inductive Vsync : Set := VsyncInvalid | VsyncEnable | VsyncDisable.

#[global] Instance Error_eq_dec : EqDecision Error.
Proof. solve_decision. Defined.

#[global] Instance PowerMode_eq_dec : EqDecision PowerMode.
Proof. solve_decision. Defined.

#[global] Instance Connection_eq_dec : EqDecision Connection.
Proof. solve_decision. Defined.

(** [INT32(status)]: the numeric codes of hwcomposer2.h. *)
Definition INT32 (e : Error) : Z :=
  match e with
  | None => 0
  | BadConfig => 1
  | BadDisplay => 2
  | BadLayer => 3
  | BadParameter => 4
  | HasChanges => 5
  | NoResources => 6
  | NotValidated => 7
  | Unsupported => 8
  end.

End HWC2.

(** ** The power-hint worker *)

Module PowerHint.

(** errno values and [android::NO_ERROR]. *)
Definition NO_ERROR : Z := 0.
Definition EINVAL : Z := 22.
Definition EOPNOTSUPP : Z := 95.
Definition ENOTCONN : Z := 107.

(** Outcome of one binder transaction ([ndk::ScopedAStatus]). *)
Inductive BinderStatus : Set :=
| StatusOk
| TransactionFailed      (* getExceptionCode() == EX_TRANSACTION_FAILED *)
| OtherException.

(** Calls that reached the power HAL extension, oldest first. *)
Inductive HalCall : Set :=
| IsModeSupported (mode : string)
| SetMode (mode : string) (enabled : bool).

#[global] Instance HalCall_eq_dec : EqDecision HalCall.
Proof. solve_decision. Defined.

(** The power-management service is an external collaborator: what it
    answers may depend on everything it has been asked so far. *)
Class PowerHalExt := {
  fromBinder : list HalCall -> bool;
  isModeSupported : list HalCall -> string -> BinderStatus * bool;
  setMode : list HalCall -> string -> bool -> BinderStatus
}.

Record PowerHalHintWorker := {
  mNeedUpdateRefreshRateHint : bool;
  mPrevRefreshRate : Z;
  mPendingPrevRefreshRate : Z;
  mRefreshRateHintSupportMap : gmap Z bool;
  mIdleHintIsEnabled : bool;
  mIdleHintDeadlineTime : N;
  mIdleHintSupportIsChecked : bool;
  mIdleHintIsSupported : bool;
  mPowerModeState : HWC2.PowerMode;
  mVsyncPeriod : N;
  mPowerHalExtAidl : bool;          (* true: the handle is not null *)
  hal_calls : list HalCall          (* transactions issued so far *)
}.

(** The constructor's initialiser list. *)
Definition PowerHalHintWorker_init : PowerHalHintWorker :=
  {| mNeedUpdateRefreshRateHint := false;
     mPrevRefreshRate := 0;
     mPendingPrevRefreshRate := 0;
     mRefreshRateHintSupportMap := ∅;
     mIdleHintIsEnabled := false;
     mIdleHintDeadlineTime := 0%N;
     mIdleHintSupportIsChecked := false;
     mIdleHintIsSupported := false;
     mPowerModeState := HWC2.Off;
     mVsyncPeriod := 16666666%N;
     mPowerHalExtAidl := false;
     hal_calls := [] |}.

Definition set_aidl (b : bool) (w : PowerHalHintWorker) : PowerHalHintWorker :=
  {| mNeedUpdateRefreshRateHint := mNeedUpdateRefreshRateHint w;
     mPrevRefreshRate := mPrevRefreshRate w;
     mPendingPrevRefreshRate := mPendingPrevRefreshRate w;
     mRefreshRateHintSupportMap := mRefreshRateHintSupportMap w;
     mIdleHintIsEnabled := mIdleHintIsEnabled w;
     mIdleHintDeadlineTime := mIdleHintDeadlineTime w;
     mIdleHintSupportIsChecked := mIdleHintSupportIsChecked w;
     mIdleHintIsSupported := mIdleHintIsSupported w;
     mPowerModeState := mPowerModeState w;
     mVsyncPeriod := mVsyncPeriod w;
     mPowerHalExtAidl := b;
     hal_calls := hal_calls w |}.

Definition log_call (c : HalCall) (w : PowerHalHintWorker) : PowerHalHintWorker :=
  {| mNeedUpdateRefreshRateHint := mNeedUpdateRefreshRateHint w;
     mPrevRefreshRate := mPrevRefreshRate w;
     mPendingPrevRefreshRate := mPendingPrevRefreshRate w;
     mRefreshRateHintSupportMap := mRefreshRateHintSupportMap w;
     mIdleHintIsEnabled := mIdleHintIsEnabled w;
     mIdleHintDeadlineTime := mIdleHintDeadlineTime w;
     mIdleHintSupportIsChecked := mIdleHintSupportIsChecked w;
     mIdleHintIsSupported := mIdleHintIsSupported w;
     mPowerModeState := mPowerModeState w;
     mVsyncPeriod := mVsyncPeriod w;
     mPowerHalExtAidl := mPowerHalExtAidl w;
     hal_calls := hal_calls w ++ [c] |}.

Definition set_rates (prev pending : Z) (w : PowerHalHintWorker) : PowerHalHintWorker :=
  {| mNeedUpdateRefreshRateHint := mNeedUpdateRefreshRateHint w;
     mPrevRefreshRate := prev;
     mPendingPrevRefreshRate := pending;
     mRefreshRateHintSupportMap := mRefreshRateHintSupportMap w;
     mIdleHintIsEnabled := mIdleHintIsEnabled w;
     mIdleHintDeadlineTime := mIdleHintDeadlineTime w;
     mIdleHintSupportIsChecked := mIdleHintSupportIsChecked w;
     mIdleHintIsSupported := mIdleHintIsSupported w;
     mPowerModeState := mPowerModeState w;
     mVsyncPeriod := mVsyncPeriod w;
     mPowerHalExtAidl := mPowerHalExtAidl w;
     hal_calls := hal_calls w |}.

Definition set_support (m : gmap Z bool) (w : PowerHalHintWorker) : PowerHalHintWorker :=
  {| mNeedUpdateRefreshRateHint := mNeedUpdateRefreshRateHint w;
     mPrevRefreshRate := mPrevRefreshRate w;
     mPendingPrevRefreshRate := mPendingPrevRefreshRate w;
     mRefreshRateHintSupportMap := m;
     mIdleHintIsEnabled := mIdleHintIsEnabled w;
     mIdleHintDeadlineTime := mIdleHintDeadlineTime w;
     mIdleHintSupportIsChecked := mIdleHintSupportIsChecked w;
     mIdleHintIsSupported := mIdleHintIsSupported w;
     mPowerModeState := mPowerModeState w;
     mVsyncPeriod := mVsyncPeriod w;
     mPowerHalExtAidl := mPowerHalExtAidl w;
     hal_calls := hal_calls w |}.

(** ["REFRESH_" + std::to_string(refreshRate) + "FPS"] *)
Definition refreshRateHintStr (refreshRate : Z) : string :=
  "REFRESH_" +:+ pretty refreshRate +:+ "FPS".

(** *** Single precision

    [float] is IEEE 754 binary32, every operation rounded to the nearest
    value, ties to even ([FLT_EVAL_METHOD] 0, as on the platforms the
    composer is built for).  [SpecFloat] gives the operations for any
    precision: 24 bits of mantissa, exponents below 128. *)
Definition float_prec : Z := 24.
Definition float_emax : Z := 128.

(** The conversion of an integer to [float]. *)
Definition float_of_Z (x : Z) : spec_float := binary_normalize float_prec float_emax x 0 false.

(** [constexpr float nsecsPerSec = std::chrono::nanoseconds(1s).count();] *)
Definition nsecsPerSec : spec_float := float_of_Z 1000000000.

(** The literal [0.1f]: the [float] next to one tenth, which is what the
    correctly rounded quotient of 1 and 10 is. *)
Definition tenth : spec_float := SFdiv float_prec float_emax (float_of_Z 1) (float_of_Z 10).

(** [round] on [float] (the overload that <cmath> declares for a [float]
    argument): the nearest integer, halfway cases away from zero; zeros,
    infinities and NaN are returned as they are. *)
Definition round (x : spec_float) : spec_float :=
  match x with
  | S754_finite s m e =>
      let n := if decide (0 ≤ e) then Z.pos m * 2 ^ e
               else (2 * Z.pos m + 2 ^ (- e)) `div` (2 * 2 ^ (- e)) in
      binary_normalize float_prec float_emax (if s then - n else n) 0 s
  | _ => x
  end.

(** [static_cast<int>] of a [float]: the value with its fraction cut off.
    The behaviour is undefined ([None]) when that does not fit a 32-bit
    [int], as for an infinity or a NaN. *)
Definition int_of_float (x : spec_float) : option Z :=
  match x with
  | S754_zero _ => Some 0
  | S754_finite s m e =>
      let n := if decide (0 ≤ e) then Z.pos m * 2 ^ e else Z.pos m `div` 2 ^ (- e) in
      let i := if s then - n else n in
      if decide (- 2 ^ 31 ≤ i < 2 ^ 31) then Some i else None
  | S754_infinity _ | S754_nan => None
  end.

(** [static_cast<int>(round(nsecsPerSec / vsyncPeriod * 0.1f) * 10)], for a
    [uint32_t vsyncPeriod]: the period is converted to [float], the
    quotient, the product with [0.1f] and the product with 10 are [float]
    operations.  For the period 0 the quotient is infinite and the
    conversion to [int] undefined. *)
Definition refreshRateOf (vsyncPeriod : N) : option Z :=
  let quotient := SFdiv float_prec float_emax nsecsPerSec (float_of_Z (Z.of_N vsyncPeriod)) in
  let rounded := round (SFmul float_prec float_emax quotient tenth) in
  int_of_float (SFmul float_prec float_emax rounded (float_of_Z 10)).

(** [nsecsIdleHintTimeout]: 100 ms. *)
Definition nsecsIdleHintTimeout : N := 100000000%N.

Definition set_idle_support (checked supported : bool) (w : PowerHalHintWorker)
  : PowerHalHintWorker :=
  {| mNeedUpdateRefreshRateHint := mNeedUpdateRefreshRateHint w;
     mPrevRefreshRate := mPrevRefreshRate w;
     mPendingPrevRefreshRate := mPendingPrevRefreshRate w;
     mRefreshRateHintSupportMap := mRefreshRateHintSupportMap w;
     mIdleHintIsEnabled := mIdleHintIsEnabled w;
     mIdleHintDeadlineTime := mIdleHintDeadlineTime w;
     mIdleHintSupportIsChecked := checked;
     mIdleHintIsSupported := supported;
     mPowerModeState := mPowerModeState w;
     mVsyncPeriod := mVsyncPeriod w;
     mPowerHalExtAidl := mPowerHalExtAidl w;
     hal_calls := hal_calls w |}.

Definition set_idle_enabled (enabled : bool) (w : PowerHalHintWorker) : PowerHalHintWorker :=
  {| mNeedUpdateRefreshRateHint := mNeedUpdateRefreshRateHint w;
     mPrevRefreshRate := mPrevRefreshRate w;
     mPendingPrevRefreshRate := mPendingPrevRefreshRate w;
     mRefreshRateHintSupportMap := mRefreshRateHintSupportMap w;
     mIdleHintIsEnabled := enabled;
     mIdleHintDeadlineTime := mIdleHintDeadlineTime w;
     mIdleHintSupportIsChecked := mIdleHintSupportIsChecked w;
     mIdleHintIsSupported := mIdleHintIsSupported w;
     mPowerModeState := mPowerModeState w;
     mVsyncPeriod := mVsyncPeriod w;
     mPowerHalExtAidl := mPowerHalExtAidl w;
     hal_calls := hal_calls w |}.

Definition set_deadline (t : N) (w : PowerHalHintWorker) : PowerHalHintWorker :=
  {| mNeedUpdateRefreshRateHint := mNeedUpdateRefreshRateHint w;
     mPrevRefreshRate := mPrevRefreshRate w;
     mPendingPrevRefreshRate := mPendingPrevRefreshRate w;
     mRefreshRateHintSupportMap := mRefreshRateHintSupportMap w;
     mIdleHintIsEnabled := mIdleHintIsEnabled w;
     mIdleHintDeadlineTime := t;
     mIdleHintSupportIsChecked := mIdleHintSupportIsChecked w;
     mIdleHintIsSupported := mIdleHintIsSupported w;
     mPowerModeState := mPowerModeState w;
     mVsyncPeriod := mVsyncPeriod w;
     mPowerHalExtAidl := mPowerHalExtAidl w;
     hal_calls := hal_calls w |}.

Definition set_signal (need : bool) (powerMode : HWC2.PowerMode) (vsyncPeriod : N)
    (w : PowerHalHintWorker) : PowerHalHintWorker :=
  {| mNeedUpdateRefreshRateHint := need;
     mPrevRefreshRate := mPrevRefreshRate w;
     mPendingPrevRefreshRate := mPendingPrevRefreshRate w;
     mRefreshRateHintSupportMap := mRefreshRateHintSupportMap w;
     mIdleHintIsEnabled := mIdleHintIsEnabled w;
     mIdleHintDeadlineTime := mIdleHintDeadlineTime w;
     mIdleHintSupportIsChecked := mIdleHintSupportIsChecked w;
     mIdleHintIsSupported := mIdleHintIsSupported w;
     mPowerModeState := powerMode;
     mVsyncPeriod := vsyncPeriod;
     mPowerHalExtAidl := mPowerHalExtAidl w;
     hal_calls := hal_calls w |}.

(** [signalRefreshRate], without the wake-up of the worker thread. *)
Definition signalRefreshRate (powerMode : HWC2.PowerMode) (vsyncPeriod : N)
    (w : PowerHalHintWorker) : PowerHalHintWorker :=
  set_signal true powerMode vsyncPeriod w.

(** [signalIdle]; [now] is [systemTime(SYSTEM_TIME_MONOTONIC)]. *)
Definition signalIdle (now : N) (w : PowerHalHintWorker) : PowerHalHintWorker :=
  if mIdleHintSupportIsChecked w && negb (mIdleHintIsSupported w) then w
  else set_deadline ((now + nsecsIdleHintTimeout) mod 2 ^ 64)%N w.

(** The flag [mNeedUpdateRefreshRateHint]. *)
Definition set_need (need : bool) (w : PowerHalHintWorker) : PowerHalHintWorker :=
  set_signal need (mPowerModeState w) (mVsyncPeriod w) w.

(** What the other threads ask of the worker: [signalRefreshRate] and
    [signalIdle], the latter with the time that it reads. *)
Inductive Signal : Set :=
| SignalRefreshRate (powerMode : HWC2.PowerMode) (vsyncPeriod : N)
| SignalIdle (now : N).

Definition take_signal (sg : Signal) (w : PowerHalHintWorker) : PowerHalHintWorker :=
  match sg with
  | SignalRefreshRate powerMode vsyncPeriod => signalRefreshRate powerMode vsyncPeriod w
  | SignalIdle now => signalIdle now w
  end.

Definition take_signals (sgs : list Signal) (w : PowerHalHintWorker) : PowerHalHintWorker :=
  foldl (λ w sg, take_signal sg w) w sgs.

(** [EINTR], which [WaitForSignalOrExitLocked] returns (negated) when the
    worker is asked to exit. *)
Definition EINTR : Z := 4.

(** The surroundings of one call of [Routine]. *)
Record RoutineEnv := {
  currentTime : N;              (* systemTime, read before the timed wait *)
  waitStatus : Z;               (* the result of WaitForSignalOrExitLocked *)
  waitSignals : list Signal;    (* signals that arrive during the wait *)
  idleTime : N;                 (* systemTime, read by updateIdleHint *)
  updateSignals : list Signal;  (* signals that arrive right after the Unlock *)
  retrySignals : list Signal    (* signals that arrive when the hints are updated *)
}.

Inductive Step : Type :=
| Signalled (sg : Signal)
| Round (env : RoutineEnv).

Section Worker.

Context {hal : PowerHalExt}.

Definition connectPowerHalExt (w : PowerHalHintWorker) : Z * PowerHalHintWorker :=
  if mPowerHalExtAidl w then (NO_ERROR, w)
  else if fromBinder (hal_calls w) then (NO_ERROR, set_aidl true w)
  else (- EINVAL, w).

Definition checkPowerHalExtHintSupport (mode : string) (w : PowerHalHintWorker)
  : Z * PowerHalHintWorker :=
  if decide (mode = "") then (- EINVAL, w)
  else
    let '(rc, w) := connectPowerHalExt w in
    if decide (rc = NO_ERROR) then
      let '(ret, isSupported) := isModeSupported (hal_calls w) mode in
      let w := log_call (IsModeSupported mode) w in
      match ret with
      | TransactionFailed => (- ENOTCONN, set_aidl false w)
      | OtherException => (- EINVAL, w)
      | StatusOk => if isSupported then (NO_ERROR, w) else (- EOPNOTSUPP, w)
      end
    else (- EINVAL, w).

Definition sendPowerHalExtHint (mode : string) (enabled : bool) (w : PowerHalHintWorker)
  : Z * PowerHalHintWorker :=
  if decide (mode = "") then (- EINVAL, w)
  else
    let '(rc, w) := connectPowerHalExt w in
    if decide (rc = NO_ERROR) then
      let ret := setMode (hal_calls w) mode enabled in
      let w := log_call (SetMode mode enabled) w in
      match ret with
      | TransactionFailed => (- ENOTCONN, set_aidl false w)
      | OtherException => (- EINVAL, w)
      | StatusOk => (NO_ERROR, w)
      end
    else (- EINVAL, w).

Definition checkRefreshRateHintSupport (refreshRate : Z) (w : PowerHalHintWorker)
  : Z * PowerHalHintWorker :=
  match (mRefreshRateHintSupportMap w !! refreshRate : option bool) with
  | Datatypes.None =>
      (* check new hint *)
      let '(ret, w) := checkPowerHalExtHintSupport (refreshRateHintStr refreshRate) w in
      if decide (ret = NO_ERROR ∨ ret = - EOPNOTSUPP) then
        (ret, set_support (<[refreshRate := bool_decide (ret = NO_ERROR)]>
                             (mRefreshRateHintSupportMap w)) w)
      else (ret, w)
  | Some supported =>
      (* check existing hint *)
      if supported then (NO_ERROR, w) else (- EOPNOTSUPP, w)
  end.

Definition sendRefreshRateHint (refreshRate : Z) (enabled : bool) (w : PowerHalHintWorker)
  : Z * PowerHalHintWorker :=
  let '(ret, w) := sendPowerHalExtHint (refreshRateHintStr refreshRate) enabled w in
  if decide (ret = - ENOTCONN) then
    (* Reset the hints when binder failure occurs *)
    (ret, set_rates 0 0 w)
  else (ret, w).

(** The part of [updateRefreshRateHintInternal] that follows the retry
    of the pending hint.  [None]: the behaviour is undefined, which is the
    case when the display is on and the conversion of the rate to [int] is
    undefined. *)
Definition updateRefreshRateHint_switch (powerMode : HWC2.PowerMode) (vsyncPeriod : N)
    (w : PowerHalHintWorker) : option (Z * PowerHalHintWorker) :=
  if decide (powerMode ≠ HWC2.On) then
    if decide (mPrevRefreshRate w ≠ 0) then
      let '(ret, w) := sendRefreshRateHint (mPrevRefreshRate w) false w in
      if decide (ret = NO_ERROR)
      then Some (ret, set_rates 0 (mPendingPrevRefreshRate w) w)
      else Some (ret, w)
    else Some (NO_ERROR, w)
  else
    match refreshRateOf vsyncPeriod with
    | Datatypes.None => Datatypes.None
    | Some refreshRate =>
        if decide (mPrevRefreshRate w = refreshRate) then Some (NO_ERROR, w)
        else
          let '(ret, w) := checkRefreshRateHintSupport refreshRate w in
          if decide (ret ≠ NO_ERROR) then Some (ret, w)
          else
            (* enable the next hint first, then disable the previous one *)
            let '(ret, w) := sendRefreshRateHint refreshRate true w in
            if decide (ret ≠ NO_ERROR) then Some (ret, w)
            else if decide (mPrevRefreshRate w ≠ 0) then
              let '(ret, w') := sendRefreshRateHint (mPrevRefreshRate w) false w in
              if decide (ret ≠ NO_ERROR) then
                if decide (ret ≠ - ENOTCONN)
                then Some (ret, set_rates refreshRate (mPrevRefreshRate w') w')
                else Some (ret, w')
              else Some (ret, set_rates refreshRate (mPendingPrevRefreshRate w') w')
            else Some (ret, set_rates refreshRate (mPendingPrevRefreshRate w) w)
    end.

Definition updateRefreshRateHintInternal (powerMode : HWC2.PowerMode) (vsyncPeriod : N)
    (w : PowerHalHintWorker) : option (Z * PowerHalHintWorker) :=
  (* We should disable pending hint before other operations *)
  if decide (mPendingPrevRefreshRate w ≠ 0) then
    let '(ret, w) := sendRefreshRateHint (mPendingPrevRefreshRate w) false w in
    if decide (ret = NO_ERROR)
    then updateRefreshRateHint_switch powerMode vsyncPeriod
           (set_rates (mPrevRefreshRate w) 0 w)
    else Some (ret, w)
  else updateRefreshRateHint_switch powerMode vsyncPeriod w.

Definition checkIdleHintSupport (w : PowerHalHintWorker) : Z * PowerHalHintWorker :=
  if mIdleHintSupportIsChecked w then
    (if mIdleHintIsSupported w then NO_ERROR else - EOPNOTSUPP, w)
  else
    let '(ret, w) := checkPowerHalExtHintSupport "DISPLAY_IDLE" w in
    if decide (ret = NO_ERROR) then (ret, set_idle_support true true w)
    else if decide (ret = - EOPNOTSUPP)
    then (ret, set_idle_support true (mIdleHintIsSupported w) w)
    else (ret, w).

(** [now] is the [systemTime(SYSTEM_TIME_MONOTONIC)] that the deadline is
    compared with. *)
Definition updateIdleHint (now deadlineTime : N) (w : PowerHalHintWorker)
  : Z * PowerHalHintWorker :=
  let '(ret, w) := checkIdleHintSupport w in
  if decide (ret ≠ NO_ERROR) then (ret, w)
  else
    let enableIdleHint := bool_decide (deadlineTime < now)%N in
    if decide (mIdleHintIsEnabled w ≠ enableIdleHint) then
      let '(ret, w) := sendPowerHalExtHint "DISPLAY_IDLE" enableIdleHint w in
      if decide (ret = NO_ERROR) then (ret, set_idle_enabled enableIdleHint w) else (ret, w)
    else (ret, w).

(** One call of [Routine].  The worker's lock is a mutex of the base class
    [Worker] (worker.h is not among the files embedded here); what the
    other threads do while the worker does not hold it is given by [env].
    The functions that update the hints read none of the fields that a
    signal writes, and a signal reads none of the fields they write but
    the two about the support of the idle hint, which are written once,
    by [checkIdleHintSupport]: a signal that arrives while the hints are
    updated has the effect of one that arrives right after the [Unlock]
    or of one that arrives when the update is done.  [static_cast<uint_t>]
    keeps the low 32 bits of the time ([uint_t] is the [unsigned int] of
    <sys/types.h>).  [None]: the behaviour is undefined. *)
Definition Routine (env : RoutineEnv) (w : PowerHalHintWorker) : option PowerHalHintWorker :=
  let '(ret, w) :=
    if negb (mNeedUpdateRefreshRateHint w) then
      if negb (mIdleHintIsSupported w) || mIdleHintIsEnabled w then
        (waitStatus env, take_signals (waitSignals env) w)
      else
        let currentTime := (currentTime env `mod` 2 ^ 32)%N in
        if bool_decide (currentTime < mIdleHintDeadlineTime w)%N then
          (waitStatus env, take_signals (waitSignals env) w)
        else (NO_ERROR, w)
    else (NO_ERROR, w) in
  if decide (ret = - EINTR) then Some w
  else
    let needUpdateRefreshRateHint := mNeedUpdateRefreshRateHint w in
    let deadlineTime := mIdleHintDeadlineTime w in
    let powerMode := mPowerModeState w in
    let vsyncPeriod := mVsyncPeriod w in
    (* Clear the flags here instead of clearing them after calling the hint
       update functions. *)
    let w := set_need false w in
    let w := take_signals (updateSignals env) w in
    let '(_, w) := updateIdleHint (idleTime env) deadlineTime w in
    if needUpdateRefreshRateHint then
      match updateRefreshRateHintInternal powerMode vsyncPeriod w with
      | Datatypes.None => Datatypes.None
      | Some (rc, w) =>
          let w := take_signals (retrySignals env) w in
          if decide (rc ≠ NO_ERROR ∧ rc ≠ - EOPNOTSUPP) then
            if decide (mPowerModeState w = HWC2.On)
            then Some (set_need true w)   (* trigger update again for next loop *)
            else Some w
          else Some w
      end
    else Some w.

(** A run of the worker thread: calls of [Routine], and the signals that
    arrive between two of them. *)
Fixpoint run (steps : list Step) (w : PowerHalHintWorker) : option PowerHalHintWorker :=
  match steps with
  | [] => Some w
  | Signalled sg :: steps => run steps (take_signal sg w)
  | Round env :: steps =>
      match Routine env w with
      | Some w => run steps w
      | Datatypes.None => Datatypes.None
      end
  end.

End Worker.

(** The [setMode] transactions among a list of calls. *)
Definition set_mode_calls (cs : list HalCall) : list (string * bool) :=
  omap (λ c, match c with
             | SetMode m e => Some (m, e)
             | IsModeSupported _ => Datatypes.None
             end) cs.

Definition enable (refreshRate : Z) : string * bool := (refreshRateHintStr refreshRate, true).
Definition disable (refreshRate : Z) : string * bool := (refreshRateHintStr refreshRate, false).

(** The [setMode] requests of a complete switch to [rate], in order: the
    retry of a hint that could not be disabled earlier, the new hint, the
    previous hint. *)
Definition tail_sequence (prev rate : Z) : list (string * bool) :=
  enable rate :: (if decide (prev ≠ 0) then [disable prev] else []).

Definition switch_sequence (pending prev rate : Z) : list (string * bool) :=
  (if decide (pending ≠ 0) then [disable pending] else []) ++ tail_sequence prev rate.

(** What one [sendRefreshRateHint] leaves behind: the request was accepted,
    it was issued and failed, or the service could not be reached. *)
Inductive sent (r : Z) (e : bool) (w w' : PowerHalHintWorker) (ret : Z) : Prop :=
| sent_ok :
    ret = NO_ERROR ->
    hal_calls w' = hal_calls w ++ [SetMode (refreshRateHintStr r) e] ->
    mPrevRefreshRate w' = mPrevRefreshRate w ->
    mPendingPrevRefreshRate w' = mPendingPrevRefreshRate w ->
    sent r e w w' ret
| sent_failed :
    ret ≠ NO_ERROR ->
    hal_calls w' = hal_calls w ++ [SetMode (refreshRateHintStr r) e] ->
    (ret ≠ - ENOTCONN ->
       mPrevRefreshRate w' = mPrevRefreshRate w
       ∧ mPendingPrevRefreshRate w' = mPendingPrevRefreshRate w) ->
    sent r e w w' ret
| sent_unreachable :
    ret ≠ NO_ERROR -> ret ≠ - ENOTCONN ->
    hal_calls w' = hal_calls w ->
    mPrevRefreshRate w' = mPrevRefreshRate w ->
    mPendingPrevRefreshRate w' = mPendingPrevRefreshRate w ->
    sent r e w w' ret.

(** A worker that has hinted [prev] and still owes the disabling of
    [pending]. *)
Definition worker_at (prev pending : Z) : PowerHalHintWorker :=
  set_rates prev pending PowerHalHintWorker_init.

(** A service that is always reachable, supports every hint and accepts
    every request. *)
Definition healthy_hal : PowerHalExt :=
  {| fromBinder := λ _, true;
     isModeSupported := λ _ _, (StatusOk, true);
     setMode := λ _ _ _, StatusOk |}.

(** A service that is always reachable and accepts every request, and
    that supports the refresh-rate hints but not the idle hint. *)
Definition busy_hal : PowerHalExt :=
  {| fromBinder := λ _, true;
     isModeSupported := λ _ mode, (StatusOk, bool_decide (mode ≠ "DISPLAY_IDLE"));
     setMode := λ _ _ _, StatusOk |}.

(** A call of [Routine] at the time [now] during which no signal arrives:
    should the worker wait, it is woken by a signal that arrived before. *)
Definition quiet (now : N) : RoutineEnv :=
  {| currentTime := now; waitStatus := 0; waitSignals := [];
     idleTime := now; updateSignals := []; retrySignals := [] |}.

(** The display is on and its refresh rate goes from 60 to 90 Hz and back:
    three signals, each taken up by a call of [Routine]. *)
Definition rates_60_90_60 (t1 t2 t3 : N) : list Step :=
  [Signalled (SignalRefreshRate HWC2.On 16666666%N); Round (quiet t1);
   Signalled (SignalRefreshRate HWC2.On 11111111%N); Round (quiet t2);
   Signalled (SignalRefreshRate HWC2.On 16666666%N); Round (quiet t3)].

(** The [setMode] requests for refresh-rate hints among [cs]. *)
Definition refresh_rate_requests (cs : list HalCall) : list (string * bool) :=
  filter (λ c, c.1 ≠ "DISPLAY_IDLE") (set_mode_calls cs).

End PowerHint.

(** ** The session: slots, arbiter and pipeline controller *)

Module Session.

Abbreviation hwc2_display_t := N (only parsing).     (* uint64_t *)
Abbreviation hwc2_layer_t := N (only parsing).       (* uint64_t *)

Definition HWC_DISPLAY_PRIMARY : hwc2_display_t := 0%N.
Definition EINVAL : Z := 22.

(** [(hwc2_display_t)x]: conversion of an [int] to 64 unsigned bits. *)
Definition to_hwc2_display_t (x : Z) : hwc2_display_t := Z.to_N (x mod 2 ^ 64).

(** [INT(x)]: conversion to a 32-bit signed [int]. *)
Definition INT (x : Z) : Z := (x + 2 ^ 31) mod 2 ^ 32 - 2 ^ 31.

(** [UINT32(x)] *)
Definition UINT32 (x : Z) : Z := x mod 2 ^ 32.

(** [HWCCallbacks::kNum...]: the slot limits of hwc_callbacks.h, which the
    session only names. *)
Class HWCCallbacksLimits := {
  kNumBuiltIn : Z;
  kNumPluggable : Z;
  kNumVirtual : Z;
  kNumDisplays : N
}.

(** sdm [DisplayType], as far as the session distinguishes it. *)
Inductive DisplayType : Set := kBuiltIn | kPluggable | kVirtual | kDisplayTypeMax.

#[global] Instance DisplayType_eq_dec : EqDecision DisplayType.
Proof. solve_decision. Defined.

(** The legacy display names of qdutils taken by [GetDisplayIndex]. *)
Inductive qdutils_display : Set :=
| DISPLAY_PRIMARY
| DISPLAY_EXTERNAL
| DISPLAY_VIRTUAL
| DISPLAY_BUILTIN_2
| DISPLAY_OTHER (dpy : Z).

(** The display classes the session creates and destroys. *)
Inductive DisplayKind : Set :=
| HWCDisplayBuiltIn
| HWCDisplayPluggable
| HWCDisplayPluggableTest
| HWCDisplayVirtual
| HWCDisplayDummy.

#[global] Instance DisplayKind_eq_dec : EqDecision DisplayKind.
Proof. solve_decision. Defined.

Inductive DisplayValidateState : Set :=
| kNoValidate
| kNormalValidate
| kInternalValidate
| kSkipValidate.

#[global] Instance DisplayValidateState_eq_dec : EqDecision DisplayValidateState.
Proof. solve_decision. Defined.

(** *** Display and layer objects

    hwc_display.h and hwc_layers.h are not among the files embedded here.
    The records hold what the session reads and writes through the
    accessors it calls; the composition engine behind [Validate],
    [Present] and the other virtual methods is the parameter
    [DisplayEngine] below. *)

Record HWCLayer := mkHWCLayer {
  layer_geometry_changes_ : N;
  layer_attributes_ : list Z        (* what the setters store; opaque here *)
}.

Record HWCDisplay := mkHWCDisplay {
  kind_ : DisplayKind;
  id_ : hwc2_display_t;
  sdm_id_ : Z;
  last_power_mode_ : HWC2.PowerMode;
  active_ : bool;
  validate_state_ : DisplayValidateState;
  validated_ : bool;
  display_pending_refresh_ : bool;
  geometry_changes_ : N;
  layer_map_ : gmap N HWCLayer
}.

(** Modelled from the spec: the inline accessors of [HWCDisplay] that the
    session calls.  A display object "holds its own power-mode,
    validation, and activation state"; each accessor reads or writes the
    field it is named after. *)
Definition GetLastPowerMode (d : HWCDisplay) : HWC2.PowerMode := last_power_mode_ d.

Definition IsSkipValidateState (d : HWCDisplay) : bool :=
  bool_decide (validate_state_ d = kSkipValidate).

Definition IsInternalValidateState (d : HWCDisplay) : bool :=
  bool_decide (validate_state_ d = kInternalValidate).

Definition GetHWCLayer (d : HWCDisplay) (layer : hwc2_layer_t) : option HWCLayer :=
  layer_map_ d !! layer.

Definition display_ActivateDisplay (enable : bool) (d : HWCDisplay) : HWCDisplay :=
  mkHWCDisplay (kind_ d) (id_ d) (sdm_id_ d) (last_power_mode_ d) enable (validate_state_ d)
    (validated_ d) (display_pending_refresh_ d) (geometry_changes_ d) (layer_map_ d).

Definition SetValidationState (st : DisplayValidateState) (d : HWCDisplay) : HWCDisplay :=
  mkHWCDisplay (kind_ d) (id_ d) (sdm_id_ d) (last_power_mode_ d) (active_ d) st (validated_ d)
    (display_pending_refresh_ d) (geometry_changes_ d) (layer_map_ d).

Definition ResetValidation (d : HWCDisplay) : HWCDisplay :=
  mkHWCDisplay (kind_ d) (id_ d) (sdm_id_ d) (last_power_mode_ d) (active_ d) (validate_state_ d) false
    (display_pending_refresh_ d) (geometry_changes_ d) (layer_map_ d).

Definition SetPendingRefresh (d : HWCDisplay) : HWCDisplay :=
  mkHWCDisplay (kind_ d) (id_ d) (sdm_id_ d) (last_power_mode_ d) (active_ d) (validate_state_ d)
    (validated_ d) true (geometry_changes_ d) (layer_map_ d).

(** The layer object lives inside its display: a member function that
    changes it changes the display's [layer_map_] entry. *)
Definition put_layer (layer : hwc2_layer_t) (l : HWCLayer) (d : HWCDisplay) : HWCDisplay :=
  mkHWCDisplay (kind_ d) (id_ d) (sdm_id_ d) (last_power_mode_ d) (active_ d) (validate_state_ d)
    (validated_ d) (display_pending_refresh_ d) (geometry_changes_ d) (<[layer := l]>
    (layer_map_ d)).

(** Result of a static [Create]: the new object, or a non-zero status. *)
Inductive CreateResult : Type :=
| Created (d : HWCDisplay)
| CreateFailed (errno : positive).

(** The virtual methods of the display classes and their factories: the
    per-display composition engine, an external collaborator. *)
Class DisplayEngine := {
  Create : DisplayKind -> hwc2_display_t -> Z -> CreateResult;
  Validate : HWCDisplay -> HWCDisplay * (HWC2.Error * (N * N));
  GetValidateDisplayOutput : HWCDisplay -> HWC2.Error * (N * N);
  Present : HWCDisplay -> HWCDisplay * (HWC2.Error * Z);
  CanSkipValidate : HWCDisplay -> bool;
  HasClientComposition : HWCDisplay -> bool;
  GetGeometryChanges : HWCDisplay -> N;
  SetPowerMode_display : HWC2.PowerMode -> HWCDisplay -> HWCDisplay * HWC2.Error;
  SetVsyncEnabled_display : HWC2.Vsync -> HWCDisplay -> HWCDisplay * HWC2.Error;
  SetState : bool -> HWCDisplay -> HWCDisplay * Z;
  GetHdrCapabilities : HWCDisplay -> HWC2.Error * N;
  GetDisplayAttribute_VsyncPeriod : HWCDisplay -> option Z;
  SetColorModeDetailEnhancer : HWCDisplay -> HWCDisplay
}.

(** *** Hardware enumeration *)

Record HWDisplayInfo := mkHWDisplayInfo {
  display_id : Z;
  display_type : DisplayType;
  is_connected : bool;
  is_primary : bool
}.

(** [HWDisplaysInfo] is a [std::map] keyed by display id: the list is its
    iteration order. *)
Abbreviation HWDisplaysInfo := (list HWDisplayInfo) (only parsing).

(** What the core answers; [None] is an error code other than
    [kErrorNone]. *)
Record CoreInterface := mkCoreInterface {
  GetDisplaysStatus : option HWDisplaysInfo;
  GetFirstDisplayInterfaceType : option DisplayType;
  GetMaxDisplaysSupported : DisplayType -> option Z
}.

(** *** Slots *)

Record DisplayMapInfo := mkDisplayMapInfo {
  client_id : hwc2_display_t;       (* mapped sf id for this display *)
  sdm_id : Z;                       (* sdm id for this display *)
  disp_type : DisplayType;          (* sdm display type *)
  test_pattern : bool               (* display will show test pattern *)
}.

#[global] Instance DisplayMapInfo_eq_dec : EqDecision DisplayMapInfo.
Proof. solve_decision. Defined.

(** The default member initialisers. *)
Definition DisplayMapInfo_default `{HWCCallbacksLimits} : DisplayMapInfo :=
  mkDisplayMapInfo kNumDisplays (-1) kDisplayTypeMax false.

(** [DisplayMapInfo::Reset] *)
Definition Reset (m : DisplayMapInfo) : DisplayMapInfo :=
  (* Do not clear client id *)
  mkDisplayMapInfo (client_id m) (-1) kDisplayTypeMax false.

(** *** The frame-producer callback sink *)

Inductive CallbackEvent : Set :=
| CbHotplug (display : hwc2_display_t) (state : HWC2.Connection)
| CbRefresh (display : hwc2_display_t).

#[global] Instance CallbackEvent_eq_dec : EqDecision CallbackEvent.
Proof. solve_decision. Defined.

(** Modelled from the spec: [HWCCallbacks] (hwc_callbacks.h is not among
    the files embedded here).  Each notification "may report not yet
    ready" until the client has registered the callback; a delivered
    refresh is remembered per display so that present can tell that the
    session's own refresh trigger was exercised. *)
Record HWCCallbacks := mkHWCCallbacks {
  on_hotplug_ : bool;
  on_refresh_ : bool;
  cb_pending_refresh_ : N;
  delivered_ : list CallbackEvent
}.

Definition callbacks_Hotplug (display : hwc2_display_t) (state : HWC2.Connection)
    (c : HWCCallbacks) : HWC2.Error * HWCCallbacks :=
  if on_hotplug_ c
  then (HWC2.None,
        mkHWCCallbacks (on_hotplug_ c) (on_refresh_ c) (cb_pending_refresh_ c)
          (delivered_ c ++ [CbHotplug display state]))
  else (HWC2.NoResources, c).

Definition callbacks_Refresh (display : hwc2_display_t) (c : HWCCallbacks)
    : HWC2.Error * HWCCallbacks :=
  if on_refresh_ c
  then (HWC2.None,
        mkHWCCallbacks (on_hotplug_ c) (on_refresh_ c)
          (N.setbit (cb_pending_refresh_ c) display)
          (delivered_ c ++ [CbRefresh display]))
  else (HWC2.NoResources, c).

Definition NeedsRefresh (display : hwc2_display_t) (c : HWCCallbacks) : bool :=
  N.testbit (cb_pending_refresh_ c) display.

Definition ResetRefresh (display : hwc2_display_t) (c : HWCCallbacks) : HWCCallbacks :=
  mkHWCCallbacks (on_hotplug_ c) (on_refresh_ c)
    (N.clearbit (cb_pending_refresh_ c) display) (delivered_ c).

(** [callbacks_.Register]: modelled from the spec like the rest of the
    sink; a null [pointer] takes the callback back. *)
Inductive Callback : Set :=
| CallbackHotplug
| CallbackRefresh
| CallbackVsync
| CallbackInvalid.

#[global] Instance Callback_eq_dec : EqDecision Callback.
Proof. solve_decision. Defined.

Definition callbacks_Register (desc : Callback) (pointer : bool) (c : HWCCallbacks)
  : HWC2.Error * HWCCallbacks :=
  match desc with
  | CallbackHotplug =>
      (HWC2.None, mkHWCCallbacks pointer (on_refresh_ c) (cb_pending_refresh_ c)
                    (delivered_ c))
  | CallbackRefresh =>
      (HWC2.None, mkHWCCallbacks (on_hotplug_ c) pointer (cb_pending_refresh_ c)
                    (delivered_ c))
  | CallbackVsync => (HWC2.None, c)
  | CallbackInvalid => (HWC2.BadParameter, c)
  end.

(** *** Sequence locks *)

(** The scope-lock macros of utils/locker.h applied to one [Locker]. *)
Inductive LockOp : Set :=
| SEQUENCE_ENTRY_SCOPE_LOCK
| SEQUENCE_EXIT_SCOPE_LOCK
| SEQUENCE_CANCEL_SCOPE_LOCK
| SEQUENCE_WAIT_SCOPE_LOCK.

#[global] Instance LockOp_eq_dec : EqDecision LockOp.
Proof. solve_decision. Defined.

(** Modelled from the spec: the sequencing state of a lock token.  A
    sequence is pending from the moment validate enters it until present
    exits it or a failure cancels it; a waiter is held back exactly while
    it is pending. *)
Definition sequence_pending (ops : list LockOp) : bool :=
  match last ops with
  | Some SEQUENCE_ENTRY_SCOPE_LOCK => true
  | _ => false
  end.

(** Other effects on collaborators, in program order. *)
Inductive Event : Set :=
| EvUsleep (usec : Z)
| EvDestroy (kind : DisplayKind) (display : hwc2_display_t)
| EvDestroyCore
| EvValidate (display : hwc2_display_t)
| EvPresent (display : hwc2_display_t)
| EvLayerMember (display : hwc2_display_t) (layer : hwc2_layer_t)
| EvSignalIdle
| EvSignalRefreshRate (powerMode : HWC2.PowerMode) (vsyncPeriod : Z).

#[global] Instance Event_eq_dec : EqDecision Event.
Proof. solve_decision. Defined.

(** *** The session object *)

Record HWCSession := mkHWCSession {
  core_intf_ : option CoreInterface;
  hwc_display_ : gmap N HWCDisplay;
  callbacks_ : HWCCallbacks;
  color_mgr_ : bool;                            (* true: not null *)
  map_info_primary_ : DisplayMapInfo;           (* Primary display *)
  map_info_builtin_ : list DisplayMapInfo;      (* Builtin displays excluding primary *)
  map_info_pluggable_ : list DisplayMapInfo;    (* Pluggable displays excluding primary *)
  map_info_virtual_ : list DisplayMapInfo;      (* Virtual displays *)
  is_hdr_display_ : list bool;
  reset_panel_ : bool;
  primary_ready_ : bool;
  client_connected_ : bool;
  need_invalidate_ : bool;
  pluggable_is_primary_ : bool;
  null_display_active_ : bool;
  hpd_bpp_ : Z;
  hpd_pattern_ : Z;
  pending_refresh_ : N;                         (* std::bitset<kNumDisplays> *)
  locker_ : gmap N (list LockOp);               (* static Locker locker_[kNumDisplays] *)
  events_ : list Event
}.

Definition set_core_intf_ (v : option CoreInterface) (s : HWCSession) : HWCSession :=
  mkHWCSession v (hwc_display_ s) (callbacks_ s) (color_mgr_ s) (map_info_primary_ s)
    (map_info_builtin_ s) (map_info_pluggable_ s) (map_info_virtual_ s) (is_hdr_display_ s)
    (reset_panel_ s) (primary_ready_ s) (client_connected_ s) (need_invalidate_ s)
    (pluggable_is_primary_ s) (null_display_active_ s) (hpd_bpp_ s) (hpd_pattern_ s)
    (pending_refresh_ s) (locker_ s) (events_ s).

Definition set_hwc_display_ (v : gmap N HWCDisplay) (s : HWCSession) : HWCSession :=
  mkHWCSession (core_intf_ s) v (callbacks_ s) (color_mgr_ s) (map_info_primary_ s) (map_info_builtin_
    s) (map_info_pluggable_ s) (map_info_virtual_ s) (is_hdr_display_ s) (reset_panel_ s)
    (primary_ready_ s) (client_connected_ s) (need_invalidate_ s) (pluggable_is_primary_ s)
    (null_display_active_ s) (hpd_bpp_ s) (hpd_pattern_ s) (pending_refresh_ s) (locker_ s)
    (events_ s).

Definition set_callbacks_ (v : HWCCallbacks) (s : HWCSession) : HWCSession :=
  mkHWCSession (core_intf_ s) (hwc_display_ s) v (color_mgr_ s) (map_info_primary_ s)
    (map_info_builtin_ s) (map_info_pluggable_ s) (map_info_virtual_ s) (is_hdr_display_ s)
    (reset_panel_ s) (primary_ready_ s) (client_connected_ s) (need_invalidate_ s)
    (pluggable_is_primary_ s) (null_display_active_ s) (hpd_bpp_ s) (hpd_pattern_ s)
    (pending_refresh_ s) (locker_ s) (events_ s).

Definition set_color_mgr_ (v : bool) (s : HWCSession) : HWCSession :=
  mkHWCSession (core_intf_ s) (hwc_display_ s) (callbacks_ s) v (map_info_primary_ s)
    (map_info_builtin_ s) (map_info_pluggable_ s) (map_info_virtual_ s) (is_hdr_display_ s)
    (reset_panel_ s) (primary_ready_ s) (client_connected_ s) (need_invalidate_ s)
    (pluggable_is_primary_ s) (null_display_active_ s) (hpd_bpp_ s) (hpd_pattern_ s)
    (pending_refresh_ s) (locker_ s) (events_ s).

Definition set_map_info_primary_ (v : DisplayMapInfo) (s : HWCSession) : HWCSession :=
  mkHWCSession (core_intf_ s) (hwc_display_ s) (callbacks_ s) (color_mgr_ s) v (map_info_builtin_ s)
    (map_info_pluggable_ s) (map_info_virtual_ s) (is_hdr_display_ s) (reset_panel_ s)
    (primary_ready_ s) (client_connected_ s) (need_invalidate_ s) (pluggable_is_primary_ s)
    (null_display_active_ s) (hpd_bpp_ s) (hpd_pattern_ s) (pending_refresh_ s) (locker_ s)
    (events_ s).

Definition set_map_info_builtin_ (v : list DisplayMapInfo) (s : HWCSession) : HWCSession :=
  mkHWCSession (core_intf_ s) (hwc_display_ s) (callbacks_ s) (color_mgr_ s) (map_info_primary_ s) v
    (map_info_pluggable_ s) (map_info_virtual_ s) (is_hdr_display_ s) (reset_panel_ s)
    (primary_ready_ s) (client_connected_ s) (need_invalidate_ s) (pluggable_is_primary_ s)
    (null_display_active_ s) (hpd_bpp_ s) (hpd_pattern_ s) (pending_refresh_ s) (locker_ s)
    (events_ s).

Definition set_map_info_pluggable_ (v : list DisplayMapInfo) (s : HWCSession) : HWCSession :=
  mkHWCSession (core_intf_ s) (hwc_display_ s) (callbacks_ s) (color_mgr_ s) (map_info_primary_ s)
    (map_info_builtin_ s) v (map_info_virtual_ s) (is_hdr_display_ s) (reset_panel_ s)
    (primary_ready_ s) (client_connected_ s) (need_invalidate_ s) (pluggable_is_primary_ s)
    (null_display_active_ s) (hpd_bpp_ s) (hpd_pattern_ s) (pending_refresh_ s) (locker_ s)
    (events_ s).

Definition set_map_info_virtual_ (v : list DisplayMapInfo) (s : HWCSession) : HWCSession :=
  mkHWCSession (core_intf_ s) (hwc_display_ s) (callbacks_ s) (color_mgr_ s) (map_info_primary_ s)
    (map_info_builtin_ s) (map_info_pluggable_ s) v (is_hdr_display_ s) (reset_panel_ s)
    (primary_ready_ s) (client_connected_ s) (need_invalidate_ s) (pluggable_is_primary_ s)
    (null_display_active_ s) (hpd_bpp_ s) (hpd_pattern_ s) (pending_refresh_ s) (locker_ s)
    (events_ s).

Definition set_is_hdr_display_ (v : list bool) (s : HWCSession) : HWCSession :=
  mkHWCSession (core_intf_ s) (hwc_display_ s) (callbacks_ s) (color_mgr_ s) (map_info_primary_ s)
    (map_info_builtin_ s) (map_info_pluggable_ s) (map_info_virtual_ s) v (reset_panel_ s)
    (primary_ready_ s) (client_connected_ s) (need_invalidate_ s) (pluggable_is_primary_ s)
    (null_display_active_ s) (hpd_bpp_ s) (hpd_pattern_ s) (pending_refresh_ s) (locker_ s)
    (events_ s).

Definition set_reset_panel_ (v : bool) (s : HWCSession) : HWCSession :=
  mkHWCSession (core_intf_ s) (hwc_display_ s) (callbacks_ s) (color_mgr_ s) (map_info_primary_ s)
    (map_info_builtin_ s) (map_info_pluggable_ s) (map_info_virtual_ s) (is_hdr_display_ s)
    v (primary_ready_ s) (client_connected_ s) (need_invalidate_ s) (pluggable_is_primary_
    s) (null_display_active_ s) (hpd_bpp_ s) (hpd_pattern_ s) (pending_refresh_ s) (locker_
    s) (events_ s).

Definition set_primary_ready_ (v : bool) (s : HWCSession) : HWCSession :=
  mkHWCSession (core_intf_ s) (hwc_display_ s) (callbacks_ s) (color_mgr_ s) (map_info_primary_ s)
    (map_info_builtin_ s) (map_info_pluggable_ s) (map_info_virtual_ s) (is_hdr_display_ s)
    (reset_panel_ s) v (client_connected_ s) (need_invalidate_ s) (pluggable_is_primary_ s)
    (null_display_active_ s) (hpd_bpp_ s) (hpd_pattern_ s) (pending_refresh_ s) (locker_ s)
    (events_ s).

Definition set_client_connected_ (v : bool) (s : HWCSession) : HWCSession :=
  mkHWCSession (core_intf_ s) (hwc_display_ s) (callbacks_ s) (color_mgr_ s) (map_info_primary_ s)
    (map_info_builtin_ s) (map_info_pluggable_ s) (map_info_virtual_ s) (is_hdr_display_ s)
    (reset_panel_ s) (primary_ready_ s) v (need_invalidate_ s) (pluggable_is_primary_ s)
    (null_display_active_ s) (hpd_bpp_ s) (hpd_pattern_ s) (pending_refresh_ s) (locker_ s)
    (events_ s).

Definition set_need_invalidate_ (v : bool) (s : HWCSession) : HWCSession :=
  mkHWCSession (core_intf_ s) (hwc_display_ s) (callbacks_ s) (color_mgr_ s) (map_info_primary_ s)
    (map_info_builtin_ s) (map_info_pluggable_ s) (map_info_virtual_ s) (is_hdr_display_ s)
    (reset_panel_ s) (primary_ready_ s) (client_connected_ s) v (pluggable_is_primary_ s)
    (null_display_active_ s) (hpd_bpp_ s) (hpd_pattern_ s) (pending_refresh_ s) (locker_ s)
    (events_ s).

Definition set_pluggable_is_primary_ (v : bool) (s : HWCSession) : HWCSession :=
  mkHWCSession (core_intf_ s) (hwc_display_ s) (callbacks_ s) (color_mgr_ s) (map_info_primary_ s)
    (map_info_builtin_ s) (map_info_pluggable_ s) (map_info_virtual_ s) (is_hdr_display_ s)
    (reset_panel_ s) (primary_ready_ s) (client_connected_ s) (need_invalidate_ s) v
    (null_display_active_ s) (hpd_bpp_ s) (hpd_pattern_ s) (pending_refresh_ s) (locker_ s)
    (events_ s).

Definition set_null_display_active_ (v : bool) (s : HWCSession) : HWCSession :=
  mkHWCSession (core_intf_ s) (hwc_display_ s) (callbacks_ s) (color_mgr_ s) (map_info_primary_ s)
    (map_info_builtin_ s) (map_info_pluggable_ s) (map_info_virtual_ s) (is_hdr_display_ s)
    (reset_panel_ s) (primary_ready_ s) (client_connected_ s) (need_invalidate_ s)
    (pluggable_is_primary_ s) v (hpd_bpp_ s) (hpd_pattern_ s) (pending_refresh_ s) (locker_
    s) (events_ s).

Definition set_hpd_ (bpp pattern : Z) (s : HWCSession) : HWCSession :=
  mkHWCSession (core_intf_ s) (hwc_display_ s) (callbacks_ s) (color_mgr_ s) (map_info_primary_ s)
    (map_info_builtin_ s) (map_info_pluggable_ s) (map_info_virtual_ s) (is_hdr_display_ s)
    (reset_panel_ s) (primary_ready_ s) (client_connected_ s) (need_invalidate_ s)
    (pluggable_is_primary_ s) (null_display_active_ s) bpp pattern (pending_refresh_ s)
    (locker_ s) (events_ s).

Definition set_pending_refresh_ (v : N) (s : HWCSession) : HWCSession :=
  mkHWCSession (core_intf_ s) (hwc_display_ s) (callbacks_ s) (color_mgr_ s) (map_info_primary_ s)
    (map_info_builtin_ s) (map_info_pluggable_ s) (map_info_virtual_ s) (is_hdr_display_ s)
    (reset_panel_ s) (primary_ready_ s) (client_connected_ s) (need_invalidate_ s)
    (pluggable_is_primary_ s) (null_display_active_ s) (hpd_bpp_ s) (hpd_pattern_ s) v
    (locker_ s) (events_ s).

Definition set_locker_ (v : gmap N (list LockOp)) (s : HWCSession) : HWCSession :=
  mkHWCSession (core_intf_ s) (hwc_display_ s) (callbacks_ s) (color_mgr_ s) (map_info_primary_ s)
    (map_info_builtin_ s) (map_info_pluggable_ s) (map_info_virtual_ s) (is_hdr_display_ s)
    (reset_panel_ s) (primary_ready_ s) (client_connected_ s) (need_invalidate_ s)
    (pluggable_is_primary_ s) (null_display_active_ s) (hpd_bpp_ s) (hpd_pattern_ s)
    (pending_refresh_ s) v (events_ s).

Definition set_events_ (v : list Event) (s : HWCSession) : HWCSession :=
  mkHWCSession (core_intf_ s) (hwc_display_ s) (callbacks_ s) (color_mgr_ s) (map_info_primary_ s)
    (map_info_builtin_ s) (map_info_pluggable_ s) (map_info_virtual_ s) (is_hdr_display_ s)
    (reset_panel_ s) (primary_ready_ s) (client_connected_ s) (need_invalidate_ s)
    (pluggable_is_primary_ s) (null_display_active_ s) (hpd_bpp_ s) (hpd_pattern_ s)
    (pending_refresh_ s) (locker_ s) v.

(** The object as the constructor and the default member initialisers
    leave it. *)
Definition HWCSession_init `{HWCCallbacksLimits} : HWCSession :=
  {| core_intf_ := None;
     hwc_display_ := ∅;
     callbacks_ := mkHWCCallbacks false false 0 [];
     color_mgr_ := false;
     map_info_primary_ := DisplayMapInfo_default;
     map_info_builtin_ := [];
     map_info_pluggable_ := [];
     map_info_virtual_ := [];
     is_hdr_display_ := [];
     reset_panel_ := false;
     primary_ready_ := false;
     client_connected_ := false;
     need_invalidate_ := false;
     pluggable_is_primary_ := false;
     null_display_active_ := false;
     hpd_bpp_ := 0;
     hpd_pattern_ := 0;
     pending_refresh_ := 0%N;
     locker_ := ∅;
     events_ := [] |}.

(** *** Control flow

    A call returns, ends the process ([abort()], or the use of a null
    object pointer), or stays in a wait that only another thread can
    end. *)

Inductive Termination : Set := CalledAbort | NullDereference.

Inductive Outcome (A : Type) : Type :=
| Returned (a : A) (s : HWCSession)
| Terminated (t : Termination) (s : HWCSession)
| Blocked (s : HWCSession).
Arguments Returned {A} a s.
Arguments Terminated {A} t s.
Arguments Blocked {A} s.

Definition M (A : Type) : Type := HWCSession -> Outcome A.

#[global] Instance M_ret : MRet M := λ A a s, Returned a s.

#[global] Instance M_bind : MBind M := λ A B f m s,
  match m s with
  | Returned a s' => f a s'
  | Terminated t s' => Terminated t s'
  | Blocked s' => Blocked s'
  end.

(** The state a call leaves behind, whichever way it ends, and the value
    it returns, if it does. *)
Definition final {A} (o : Outcome A) : HWCSession :=
  match o with
  | Returned _ s | Terminated _ s | Blocked s => s
  end.

Definition returned {A} (o : Outcome A) : option A :=
  match o with
  | Returned a _ => Some a
  | _ => None
  end.

(** [m] leaves the observation [f] of the session as it found it. *)
Definition preserved {A X} (f : HWCSession -> X) (m : M A) : Prop :=
  ∀ s, f (final (m s)) = f s.

(** [m] returns from every state. *)
Definition returns {A} (m : M A) : Prop := ∀ s, ∃ a s', m s = Returned a s'.

(** In [s'] the client has been told what it was told in [s] and possibly
    more, and has the same callbacks registered. *)
Definition told_more (s s' : HWCSession) : Prop :=
  on_hotplug_ (callbacks_ s') = on_hotplug_ (callbacks_ s)
  ∧ on_refresh_ (callbacks_ s') = on_refresh_ (callbacks_ s)
  ∧ delivered_ (callbacks_ s) `prefix_of` delivered_ (callbacks_ s').

(** [m] takes back nothing that the client was told, and leaves the
    registered callbacks as they are. *)
Definition tells {A} (m : M A) : Prop := ∀ s, told_more s (final (m s)).

(** The client ids of the four slot tables. *)
Definition slot_ids (s : HWCSession)
  : hwc2_display_t * list hwc2_display_t * list hwc2_display_t * list hwc2_display_t :=
  (client_id (map_info_primary_ s), client_id <$> map_info_builtin_ s,
   client_id <$> map_info_pluggable_ s, client_id <$> map_info_virtual_ s).

Definition get : M HWCSession := λ s, Returned s s.
Definition gets {A} (f : HWCSession -> A) : M A := λ s, Returned (f s) s.
Definition modify (f : HWCSession -> HWCSession) : M unit := λ s, Returned () (f s).
Definition terminate {A} (t : Termination) : M A := λ s, Terminated t s.
Definition block {A} : M A := λ s, Blocked s.
Definition when (b : bool) (m : M unit) : M unit := if b then m else mret ().

Definition emit (e : Event) : M unit := modify (λ s, set_events_ (events_ s ++ [e]) s).

(** A scope-lock macro on [locker_[display]].  Mutual exclusion itself
    plays no part in a single thread of calls; a sequence wait returns
    only once no sequence is pending. *)
Definition lock_ops (display : hwc2_display_t) (s : HWCSession) : list LockOp :=
  default [] (locker_ s !! display).

Definition waits (op : LockOp) : bool :=
  match op with
  | SEQUENCE_WAIT_SCOPE_LOCK => true
  | _ => false
  end.

Definition scope_lock (op : LockOp) (display : hwc2_display_t) : M unit := λ s,
  if waits op && sequence_pending (lock_ops display s)
  then Blocked s
  else Returned () (set_locker_ (<[display := lock_ops display s ++ [op]]> (locker_ s)) s).

(** [hwc_display_[display]->...]: the object behind a pointer that the code
    uses without a null check. *)
Definition deref (display : hwc2_display_t) : M HWCDisplay := λ s,
  match hwc_display_ s !! display with
  | Some d => Returned d s
  | None => Terminated NullDereference s
  end.

Definition put_display (display : hwc2_display_t) (d : HWCDisplay) : M unit :=
  modify (λ s, set_hwc_display_ (<[display := d]> (hwc_display_ s)) s).

Definition clear_display (display : hwc2_display_t) : M unit :=
  modify (λ s, set_hwc_display_ (delete display (hwc_display_ s)) s).

Definition core : M CoreInterface := λ s,
  match core_intf_ s with
  | Some c => Returned c s
  | None => Terminated NullDereference s
  end.

(** *** Pointers to slots

    [DisplayMapInfo *map_info] points into one of the slot tables, or at
    a copy on the caller's stack, whose changes are lost with the frame. *)
Inductive MapInfoRef : Type :=
| RefPrimary
| RefBuiltin (i : nat)
| RefPluggable (i : nat)
| RefVirtual (i : nat)
| RefLocal (copy : DisplayMapInfo).

Definition lookup_ref (r : MapInfoRef) (s : HWCSession) : option DisplayMapInfo :=
  match r with
  | RefPrimary => Some (map_info_primary_ s)
  | RefBuiltin i => map_info_builtin_ s !! i
  | RefPluggable i => map_info_pluggable_ s !! i
  | RefVirtual i => map_info_virtual_ s !! i
  | RefLocal copy => Some copy
  end.

Definition load (r : MapInfoRef) : M DisplayMapInfo := λ s,
  match lookup_ref r s with
  | Some m => Returned m s
  | None => Terminated NullDereference s
  end.

(** An assignment through the pointer ([map_info->sdm_id = ...],
    [map_info->Reset()]): [f] is the change to the fields. *)
Definition assign (r : MapInfoRef) (f : DisplayMapInfo -> DisplayMapInfo) : M unit :=
  modify (λ s,
    match r with
    | RefPrimary => set_map_info_primary_ (f (map_info_primary_ s)) s
    | RefBuiltin i => set_map_info_builtin_ (alter f i (map_info_builtin_ s)) s
    | RefPluggable i => set_map_info_pluggable_ (alter f i (map_info_pluggable_ s)) s
    | RefVirtual i => set_map_info_virtual_ (alter f i (map_info_virtual_ s)) s
    | RefLocal _ => s
    end).

Definition set_test_pattern (b : bool) (m : DisplayMapInfo) : DisplayMapInfo :=
  mkDisplayMapInfo (client_id m) (sdm_id m) (disp_type m) b.

Definition set_type_and_id (t : DisplayType) (id : Z) (m : DisplayMapInfo) : DisplayMapInfo :=
  mkDisplayMapInfo (client_id m) id t (test_pattern m).

Definition set_client_id (c : hwc2_display_t) (m : DisplayMapInfo) : DisplayMapInfo :=
  mkDisplayMapInfo c (sdm_id m) (disp_type m) (test_pattern m).

Section Code.

Context {limits : HWCCallbacksLimits} {engine : DisplayEngine}.

(** **** Display slot registry *)

(** [std::vector::resize] *)
Definition resize (n : nat) (l : list DisplayMapInfo) : list DisplayMapInfo :=
  take n l ++ replicate (n - length l) DisplayMapInfo_default.

(** [for (auto &map_info : v) map_info.client_id = base_id++;] *)
Fixpoint assign_client_ids (base_id : hwc2_display_t) (l : list DisplayMapInfo)
  : list DisplayMapInfo * hwc2_display_t :=
  match l with
  | [] => ([], base_id)
  | m :: l =>
      let '(l', b) := assign_client_ids (base_id + 1)%N l in
      (set_client_id base_id m :: l', b)
  end.

Definition DestroyCore : M unit :=
  emit EvDestroyCore;; modify (set_core_intf_ None).

(** [created] is what [CoreInterface::CreateCore] hands back. *)
Definition InitSupportedDisplaySlots (created : option CoreInterface) : M unit :=
  assign RefPrimary (set_client_id 0%N);;
  match created with
  | None => mret ()
  | Some c =>
      modify (set_core_intf_ (Some c));;
      match GetFirstDisplayInterfaceType c with
      | None => DestroyCore
      | Some primary_type =>
          match GetMaxDisplaysSupported c kBuiltIn with
          | None => DestroyCore
          | Some max_builtin =>
              match GetMaxDisplaysSupported c kPluggable with
              | None => DestroyCore
              | Some max_pluggable =>
                  match GetMaxDisplaysSupported c kVirtual with
                  | None => DestroyCore
                  | Some max_virtual =>
                      let max_pluggable :=
                        if decide (primary_type = kPluggable)
                        then max_pluggable - 1 else max_pluggable in
                      let max_builtin :=
                        if decide (primary_type = kPluggable)
                        then max_builtin else max_builtin - 1 in
                      (* Init slots in accordance to h/w capability. *)
                      s ← get;
                      let disp_count := UINT32 (max_pluggable `min` kNumPluggable) in
                      let '(pluggable, base_id) :=
                        assign_client_ids 1%N
                          (resize (Z.to_nat disp_count) (map_info_pluggable_ s)) in
                      let disp_count := UINT32 (max_builtin `min` kNumBuiltIn) in
                      let '(builtin, base_id) :=
                        assign_client_ids base_id
                          (resize (Z.to_nat disp_count) (map_info_builtin_ s)) in
                      let disp_count := UINT32 (max_virtual `min` kNumVirtual) in
                      let '(virtual, base_id) :=
                        assign_client_ids base_id
                          (resize (Z.to_nat disp_count) (map_info_virtual_ s)) in
                      modify (set_map_info_pluggable_ pluggable);;
                      modify (set_map_info_builtin_ builtin);;
                      modify (set_map_info_virtual_ virtual);;
                      (* resize HDR supported map to total number of displays. *)
                      modify (λ s, set_is_hdr_display_
                                     (take (N.to_nat base_id) (is_hdr_display_ s)
                                      ++ replicate (N.to_nat base_id
                                                    - length (is_hdr_display_ s)) false) s)
                  end
              end
          end
      end
  end.

Definition GetDisplayIndex (dpy : qdutils_display) (s : HWCSession) : Z :=
  let map_info :=
    match dpy with
    | DISPLAY_PRIMARY => Some (map_info_primary_ s)
    | DISPLAY_EXTERNAL => head (map_info_pluggable_ s)
    | DISPLAY_VIRTUAL => head (map_info_virtual_ s)
    | DISPLAY_BUILTIN_2 => head (map_info_builtin_ s)
    | DISPLAY_OTHER _ => None
    end in
  match map_info with
  | None => -1
  | Some m => INT (Z.of_N (client_id m))
  end.

(** **** Notifications to the client *)

(** [Refresh]: the request is repeated under [callbacks_lock_.Wait()]
    until the sink accepts it; only a registration by another thread
    ends the wait. *)
Definition Refresh (display : hwc2_display_t) : M unit :=
  c ← gets callbacks_;
  let '(err, c') := callbacks_Refresh display c in
  if decide (err = HWC2.None) then modify (set_callbacks_ c') else block.

Definition HotPlug (display : hwc2_display_t) (state : HWC2.Connection) : M unit :=
  c ← gets callbacks_;
  let '(err, c') := callbacks_Hotplug display state c in
  if decide (err = HWC2.None) then modify (set_callbacks_ c') else block.

(** [callbacks_.Hotplug(...)] called directly: the status is dropped. *)
Definition notify_hotplug (display : hwc2_display_t) (state : HWC2.Connection) : M unit :=
  modify (λ s, set_callbacks_ (callbacks_Hotplug display state (callbacks_ s)).2 s).

(** The loop of [HandlePendingRefresh]: the first [i] below
    [pending_refresh_.size()] with [pending_refresh_.test(i)]. *)
Definition first_pending (bits : N) : option N :=
  snd <$> list_find (λ i, N.testbit bits i = true) (N.of_nat <$> seq 0 (N.to_nat kNumDisplays)).

Definition HandlePendingRefresh : M unit :=
  bits ← gets pending_refresh_;
  if decide (bits = 0%N) then mret ()
  else
    match first_pending bits with
    | Some i => Refresh i    (* SF refreshes all displays on refresh request. *)
    | None => mret ()
    end;;
    modify (set_pending_refresh_ 0%N).

(** **** Concurrency arbiter *)

Definition GetNextBuiltinIndex (s : HWCSession) : hwc2_display_t :=
  match find (λ m, bool_decide (is_Some (hwc_display_ s !! client_id m)))
             (map_info_builtin_ s) with
  | Some m => client_id m
  | None => 0%N
  end.

Definition GetSecondBuiltinStatus (s : HWCSession) : bool :=
  if decide (GetNextBuiltinIndex s = 0%N) then false   (* Single Builtin *)
  else
    match hwc_display_ s !! GetNextBuiltinIndex s with
    | Some d => bool_decide (GetLastPowerMode d ≠ HWC2.Off)
    | None => false
    end.

Definition ActivateDisplay (disp : hwc2_display_t) (enable : bool) : M unit :=
  modify (λ s,
    match hwc_display_ s !! disp with
    | None => s
    | Some d => set_hwc_display_ (<[disp := display_ActivateDisplay enable d]>
                                    (hwc_display_ s)) s
    end).

(** [idx < kNumDisplays && hwc_display_[idx]] *)
Definition present_at (idx : hwc2_display_t) (s : HWCSession) : bool :=
  bool_decide (idx < kNumDisplays)%N && bool_decide (is_Some (hwc_display_ s !! idx)).

Definition NonBuiltinConcurrency (disp : hwc2_display_t) (builtin_active : bool) : M unit :=
  s ← get;
  let vir_disp_idx := to_hwc2_display_t (GetDisplayIndex DISPLAY_VIRTUAL s) in
  let ext_disp_idx := to_hwc2_display_t (GetDisplayIndex DISPLAY_EXTERNAL s) in
  if bool_decide (disp ≠ ext_disp_idx) && bool_decide (disp ≠ vir_disp_idx) then mret ()
  else
    let display_created := bool_decide (is_Some (hwc_display_ s !! disp)) in
    (* Virtual and External cant be active at the same time. *)
    let cocu_disp := if decide (disp = ext_disp_idx) then vir_disp_idx else ext_disp_idx in
    let cocu_disp_present := present_at cocu_disp s in
    if display_created then
      when (builtin_active || cocu_disp_present) (ActivateDisplay disp false)
    else
      (* Activate pending Virtual Display if any. *)
      when (negb builtin_active && cocu_disp_present) (ActivateDisplay cocu_disp true).

Definition HandleConcurrency (disp : hwc2_display_t) : M unit :=
  s ← get;
  if negb (primary_ready_ s) then mret ()
  else
    let vir_disp_idx := to_hwc2_display_t (GetDisplayIndex DISPLAY_VIRTUAL s) in
    let ext_disp_idx := to_hwc2_display_t (GetDisplayIndex DISPLAY_EXTERNAL s) in
    let vir_disp_present := present_at vir_disp_idx s in
    let ext_disp_present := present_at ext_disp_idx s in
    (* Valid Concurrencies
       For two builtins   --> Builtin + Builtin
       For Single Builtin --> Builtin + Virtual OR Builtin + External *)
    let sec_builtin_active := GetSecondBuiltinStatus s in
    if decide (disp = GetNextBuiltinIndex s) then
      (* Activate non-built_in displays if any. *)
      if sec_builtin_active then
        when ext_disp_present (ActivateDisplay ext_disp_idx false);;
        when vir_disp_present (ActivateDisplay vir_disp_idx false)
      else
        (* Activate One of the two connected displays. *)
        if ext_disp_present then ActivateDisplay ext_disp_idx true
        else when vir_disp_present (ActivateDisplay vir_disp_idx true)
    else NonBuiltinConcurrency disp sec_builtin_active.

(** **** Hotplug *)

Definition GetVsyncPeriod (disp : hwc2_display_t) (s : HWCSession) : Z :=
  (* default value *)
  let vsync_period := 1000000000 `div` 60 in
  match hwc_display_ s !! disp with
  | Some d => default vsync_period (GetDisplayAttribute_VsyncPeriod d)
  | None => vsync_period
  end.

(** [usleep(UINT32(GetVsyncPeriod(HWC_DISPLAY_PRIMARY)) * 2 / 1000)] *)
Definition settle_delay : M unit :=
  s ← get;
  emit (EvUsleep (UINT32 (UINT32 (GetVsyncPeriod HWC_DISPLAY_PRIMARY s) * 2) `div` 1000)).

Definition HasHDRSupport (d : HWCDisplay) : bool :=
  let '(err, out_num_types) := GetHdrCapabilities d in
  if decide (err ≠ HWC2.None) then false else bool_decide (0 < out_num_types)%N.

Definition set_hdr (client_id : hwc2_display_t) (b : bool) : M unit :=
  modify (λ s, set_is_hdr_display_ (<[N.to_nat client_id := b]> (is_hdr_display_ s)) s).

(** [X::Destroy(hwc_display); hwc_display = nullptr;] *)
Definition destroy_object (kind : DisplayKind) (client_id : hwc2_display_t) : M unit :=
  emit (EvDestroy kind client_id);; clear_display client_id.

Definition DestroyPluggableDisplay (map_info : MapInfoRef) : M unit :=
  m ← load map_info;
  let client_id := client_id m in
  s ← get;
  when (negb (pluggable_is_primary_ s))
    (* Notify SurfaceFlinger. *)
    (notify_hotplug client_id HWC2.Disconnected);;
  Refresh 0%N;;
  (* wait for sufficient time to ensure sufficient resources are available *)
  settle_delay;;
  s ← get;
  match hwc_display_ s !! client_id with
  | None => mret ()
  | Some _ =>
      if pluggable_is_primary_ s then
        d ← deref HWC_DISPLAY_PRIMARY;
        put_display HWC_DISPLAY_PRIMARY (SetState false d).1
      else
        set_hdr client_id false;;
        destroy_object (if test_pattern m then HWCDisplayPluggableTest
                        else HWCDisplayPluggable) client_id;;
        assign map_info Reset;;
        HandleConcurrency client_id
  end.

Definition DestroyNonPluggableDisplay (map_info : MapInfoRef) : M unit :=
  m ← load map_info;
  let client_id := client_id m in
  s ← get;
  match hwc_display_ s !! client_id with
  | None => mret ()
  | Some _ =>
      set_hdr client_id false;;
      destroy_object (match disp_type m with
                      | kBuiltIn => HWCDisplayBuiltIn
                      | _ => HWCDisplayVirtual
                      end) client_id;;
      assign map_info Reset
  end.

Definition DestroyDisplay (map_info : MapInfoRef) : M unit :=
  m ← load map_info;
  match disp_type m with
  | kPluggable => DestroyPluggableDisplay map_info
  | _ => DestroyNonPluggableDisplay map_info
  end.

(** The [disconnect] flag of [HandleDisconnectedDisplays]: no connected
    entry of the snapshot carries this sdm id. *)
Definition disconnected (hw_displays_info : HWDisplaysInfo) (m : DisplayMapInfo) : bool :=
  negb (existsb (λ info, bool_decide (display_id info = sdm_id m) && is_connected info)
                hw_displays_info).

Fixpoint disconnect_pluggables (hw_displays_info : HWDisplaysInfo) (slots : list nat)
  : M unit :=
  match slots with
  | [] => mret ()
  | i :: slots =>
      m ← load (RefPluggable i);
      when (disconnected hw_displays_info m) (DestroyDisplay (RefPluggable i));;
      disconnect_pluggables hw_displays_info slots
  end.

Definition HandleDisconnectedDisplays (hw_displays_info : HWDisplaysInfo) : M Z :=
  (* Destroy pluggable displays which were connected earlier but got disconnected now. *)
  s ← get;
  when (pluggable_is_primary_ s)
    (let map_info := map_info_primary_ s in
     when (disconnected hw_displays_info map_info) (DestroyDisplay (RefLocal map_info)));;
  s ← get;
  disconnect_pluggables hw_displays_info (seq 0 (length (map_info_pluggable_ s)));;
  mret 0.

(** Status of a failed [Create]. *)
Definition create_status (errno : positive) : Z := Z.neg errno.

(** "find an empty slot to create display": [inl status] leaves
    [HandleConnectedDisplays] with that status, [inr (Some id)] is the
    slot filled, [inr None] means every slot was taken. *)
Fixpoint connect_pluggable (info : HWDisplayInfo) (slots : list nat)
  : M (Z + option hwc2_display_t) :=
  match slots with
  | [] => mret (inr None)
  | i :: slots =>
      m ← load (RefPluggable i);
      let client_id := client_id m in
      s ← get;
      match hwc_display_ s !! client_id with
      | Some _ => connect_pluggable info slots     (* Display is already connected. *)
      | None =>
          (* Test pattern generation ? *)
          let test := bool_decide (0 < hpd_bpp_ s) && bool_decide (0 < hpd_pattern_ s) in
          assign (RefPluggable i) (set_test_pattern test);;
          match Create (if test then HWCDisplayPluggableTest else HWCDisplayPluggable)
                       client_id (display_id info) with
          | CreateFailed e => mret (inl (create_status e))
          | Created d =>
              put_display client_id d;;
              set_hdr client_id (HasHDRSupport d);;
              assign (RefPluggable i)
                (set_type_and_id (display_type info) (display_id info));;
              HandleConcurrency client_id;;
              (* Display is created for this sdm id, move to next connected display. *)
              mret (inr (Some client_id))
          end
      end
  end.

Definition reset_primary_validation : M unit :=
  d ← deref HWC_DISPLAY_PRIMARY;
  put_display HWC_DISPLAY_PRIMARY (ResetValidation d).

Fixpoint connect_displays (infos : HWDisplaysInfo) (pending_hotplugs : list hwc2_display_t)
  : M (Z + list hwc2_display_t) :=
  match infos with
  | [] => mret (inr pending_hotplugs)
  | info :: infos =>
      s ← get;
      (* Do not recreate primary display or if display is not connected. *)
      status ←
        (if pluggable_is_primary_ s then
           let client_id := client_id (map_info_primary_ s) in
           status ←
             match hwc_display_ s !! client_id with
             | Some d =>
                 if is_primary info && bool_decide (display_type info = kPluggable)
                    && is_connected info
                 then
                   let '(d', status) := SetState true d in
                   put_display client_id d';;
                   if decide (status ≠ 0) then mret status
                   else set_hdr client_id (HasHDRSupport d');; mret 0
                 else mret 0
             | None => mret 0
             end;
           if decide (status ≠ 0) then mret status
           else reset_primary_validation;; Refresh 0%N;; mret 0
         else mret 0);
      if decide (status ≠ 0) then mret (inl status)
      else if negb (pluggable_is_primary_ s)
              && (is_primary info || bool_decide (display_type info ≠ kPluggable)
                  || negb (is_connected info))
      then connect_displays infos pending_hotplugs
      else
        s ← get;
        r ← connect_pluggable info (seq 0 (length (map_info_pluggable_ s)));
        match r with
        | inl status => mret (inl status)
        | inr (Some client_id) => connect_displays infos (pending_hotplugs ++ [client_id])
        | inr None => connect_displays infos pending_hotplugs
        end
  end.

Fixpoint notify_connected (pending_hotplugs : list hwc2_display_t) : M unit :=
  match pending_hotplugs with
  | [] => mret ()
  | client_id :: rest =>
      notify_hotplug client_id HWC2.Connected;;
      HandleConcurrency client_id;;
      notify_connected rest
  end.

Definition HandleConnectedDisplays (hw_displays_info : HWDisplaysInfo) (delay_hotplug : bool)
  : M Z :=
  r ← connect_displays hw_displays_info [];
  match r with
  | inl status => mret status
  | inr [] => mret 0                           (* No display was created. *)
  | inr pending_hotplugs =>
      (* Primary display needs revalidation *)
      reset_primary_validation;;
      Refresh 0%N;;
      (* Do not sleep if this method is called from client thread. *)
      when delay_hotplug settle_delay;;
      notify_connected pending_hotplugs;;
      mret 0
  end.

Definition CreatePluggableDisplays (delay_hotplug : bool) : M Z :=
  s ← get;
  if negb (primary_ready_ s) then mret 0
  else if null_display_active_ s then
    emit (EvDestroy HWCDisplayDummy HWC_DISPLAY_PRIMARY);;
    DestroyCore;;
    terminate CalledAbort
  else
    c ← core;
    match GetDisplaysStatus c with
    | None => mret (- EINVAL)
    | Some hw_displays_info =>
        status ← HandleDisconnectedDisplays hw_displays_info;
        if decide (status ≠ 0) then mret status
        else
          status ← HandleConnectedDisplays hw_displays_info delay_hotplug;
          if decide (status ≠ 0) then mret status else mret 0
    end.

(** [color_mgr] tells whether [HWCColorManager::CreateColorManager]
    yields an object. *)
Definition create_primary (info : HWDisplayInfo) (color_mgr : bool) : M Z :=
  s ← get;
  let client_id := client_id (map_info_primary_ s) in
  let created (kind : DisplayKind) : M Z :=
    match Create kind client_id (display_id info) with
    | CreateFailed e => mret (create_status e)
    | Created d =>
        put_display HWC_DISPLAY_PRIMARY d;;
        set_hdr client_id (HasHDRSupport d);;
        assign RefPrimary (set_type_and_id (display_type info) (display_id info));;
        modify (set_color_mgr_ color_mgr);;
        mret 0
    end in
  if negb (is_connected info) && bool_decide (display_type info = kPluggable) then
    modify (set_pluggable_is_primary_ true);;
    modify (set_null_display_active_ true);;
    created HWCDisplayDummy
  else if decide (display_type info = kBuiltIn) then created HWCDisplayBuiltIn
  else if is_connected info && bool_decide (display_type info = kPluggable) then
    modify (set_pluggable_is_primary_ true);;
    created HWCDisplayPluggable
  else mret 1.

Definition CreatePrimaryDisplay (color_mgr : bool) : M Z :=
  c ← core;
  match GetDisplaysStatus c with
  | None => mret 1
  | Some hw_displays_info =>
      match find is_primary hw_displays_info with
      | None => mret 1
      | Some info => create_primary info color_mgr     (* no need to parse more. *)
      end
  end.

(** The loop of [HandleBuiltInDisplays]; [client_id] is its slot
    counter. *)
Fixpoint map_builtins (infos : HWDisplaysInfo) (client_id : nat) : M unit :=
  match infos with
  | [] => mret ()
  | info :: infos =>
      if is_primary info || bool_decide (display_type info ≠ kBuiltIn)
         || negb (is_connected info)
      then map_builtins infos client_id
      else
        s ← get;
        let slot := RefBuiltin client_id in       (* &map_info_builtin_[client_id] *)
        match lookup_ref slot s with
        | None => mret ()           (* Insufficient builtin display slots. *)
        | Some map_info =>
            match Create HWCDisplayBuiltIn (Session.client_id map_info)
                         (display_id info) with
            | CreateFailed _ => mret ()           (* break *)
            | Created d =>
                put_display (Session.client_id map_info) d;;
                let client_id := S client_id in   (* client_id++ *)
                assign slot (set_type_and_id (display_type info) (display_id info));;
                let client_id := S client_id in   (* client_id++ *)
                map_builtins infos client_id
            end
        end
  end.

Definition HandleBuiltInDisplays : M unit :=
  (* This would be called after client connection establishes. *)
  c ← core;
  match GetDisplaysStatus c with
  | None => mret ()
  | Some hw_displays_info => map_builtins hw_displays_info 0
  end.

Fixpoint notify_all_connected (disps : list hwc2_display_t) : M unit :=
  match disps with
  | [] => mret ()
  | disp :: disps =>
      s ← get;
      match hwc_display_ s !! disp with
      | None => notify_all_connected disps
      | Some _ => notify_hotplug disp HWC2.Connected;; notify_all_connected disps
      end
  end.

Definition RegisterCallback (device : bool) (descriptor : Callback) (pointer : bool)
  : M Z :=
  if negb device then mret (HWC2.INT32 HWC2.BadParameter)
  else
    c ← gets callbacks_;
    let '(error, c') := callbacks_Register descriptor pointer c in
    modify (set_callbacks_ c');;
    if decide (error ≠ HWC2.None) then mret (HWC2.INT32 error)
    else
      when (bool_decide (descriptor = CallbackHotplug) && pointer)
        (s ← get;
         (* Map Builtin displays that got created during init. *)
         when (negb (client_connected_ s)) HandleBuiltInDisplays;;
         (* Notify All connected Displays. *)
         notify_all_connected (N.of_nat <$> seq 0 (N.to_nat kNumDisplays));;
         modify (set_client_connected_ true));;
      modify (set_need_invalidate_ false);;
      mret 0.

(** **** Validate / present pipeline *)

Definition ResetPanel : M unit :=
  d ← deref HWC_DISPLAY_PRIMARY;
  put_display HWC_DISPLAY_PRIMARY (SetPowerMode_display HWC2.Off d).1;;
  d ← deref HWC_DISPLAY_PRIMARY;
  let mode := GetLastPowerMode d in
  put_display HWC_DISPLAY_PRIMARY (SetPowerMode_display mode d).1;;
  d ← deref HWC_DISPLAY_PRIMARY;
  put_display HWC_DISPLAY_PRIMARY (SetVsyncEnabled_display HWC2.VsyncEnable d).1;;
  modify (set_reset_panel_ false).

Definition ValidateDisplayInternal (display : hwc2_display_t)
  : M (HWC2.Error * (N * N)) :=
  hwc_display ← deref display;
  if IsInternalValidateState hwc_display then
    (* Internal Validation has already been done on display, get the Output params. *)
    mret (GetValidateDisplayOutput hwc_display)
  else
    when (bool_decide (display = HWC_DISPLAY_PRIMARY))
      (s ← get;
       when (reset_panel_ s) ResetPanel;;
       s ← get;
       when (need_invalidate_ s) (Refresh display;; modify (set_need_invalidate_ false));;
       s ← get;
       when (color_mgr_ s)
         (d ← deref display; put_display display (SetColorModeDetailEnhancer d)));;
    hwc_display ← deref display;
    emit (EvValidate display);;
    let '(hwc_display, out) := Validate hwc_display in
    put_display display hwc_display;;
    mret out.

Definition PresentDisplayInternal (display : hwc2_display_t) : M (HWC2.Error * option Z) :=
  hwc_display ← deref display;
  (* If display is in Skip-Validate state and Validate cannot be skipped, do Internal
     Validation to optimize for the frames which don't require the Client composition. *)
  not_validated ←
    (if IsSkipValidateState hwc_display && negb (CanSkipValidate hwc_display) then
       '(error, _) ← ValidateDisplayInternal display;
       hwc_display ← deref display;
       if bool_decide (error ≠ HWC2.None) || HasClientComposition hwc_display then
         put_display display (SetValidationState kInternalValidate hwc_display);;
         mret true
       else mret false
     else mret false);
  if (not_validated : bool) then mret (HWC2.NotValidated, None)
  else
    hwc_display ← deref display;
    emit (EvPresent display);;
    let '(hwc_display, (error, out_retire_fence)) := Present hwc_display in
    put_display display hwc_display;;
    mret (error, Some out_retire_fence).

Definition ValidateDisplay (device : bool) (display : hwc2_display_t)
  : M (HWC2.Error * option (N * N)) :=
  (*  out_num_types and out_num_requests will be non-NULL *)
  if negb device then mret (HWC2.BadParameter, None)
  else if decide (kNumDisplays ≤ display)%N then mret (HWC2.BadDisplay, None)
  else
    scope_lock SEQUENCE_ENTRY_SCOPE_LOCK display;;
    s ← get;
    '(status, out) ←
      match hwc_display_ s !! display with
      | Some _ => '(status, out) ← ValidateDisplayInternal display; mret (status, Some out)
      | None => mret (HWC2.BadDisplay, None)
      end;
    (* Sequence locking currently begins on Validate, so cancel the sequence lock on
       failures *)
    when (bool_decide (status ≠ HWC2.None) && bool_decide (status ≠ HWC2.HasChanges))
      (scope_lock SEQUENCE_CANCEL_SCOPE_LOCK display);;
    mret (status, out).

Definition signalIdle : M unit := emit EvSignalIdle.

Definition PresentDisplay (device : bool) (display : hwc2_display_t)
    (out_retire_fence : bool) : M (HWC2.Error * option Z) :=
  if decide (kNumDisplays ≤ display)%N then mret (HWC2.BadDisplay, None)
  else
    scope_lock SEQUENCE_EXIT_SCOPE_LOCK display;;
    if negb device then mret (HWC2.BadDisplay, None)
    else if negb out_retire_fence then mret (HWC2.BadParameter, None)
    else
      s ← get;
      '(status, fence) ←
        match hwc_display_ s !! display with
        | Some d =>
            (* Check if hwc's refresh trigger is getting exercised. *)
            when (NeedsRefresh display (callbacks_ s))
              (put_display display (SetPendingRefresh d);;
               modify (λ s, set_callbacks_ (ResetRefresh display (callbacks_ s)) s));;
            r ← PresentDisplayInternal display;
            signalIdle;;
            mret r
        | None => mret (HWC2.BadDisplay, None)
        end;
      when (bool_decide (status ≠ HWC2.None) && bool_decide (status ≠ HWC2.NotValidated))
        (scope_lock SEQUENCE_CANCEL_SCOPE_LOCK display);;
      (* Handle pending builtin/pluggable display connections *)
      s ← get;
      when (negb (primary_ready_ s) && bool_decide (display = HWC_DISPLAY_PRIMARY))
        (modify (set_primary_ready_ true);;
         when (negb (pluggable_is_primary_ s)) (CreatePluggableDisplays false;; mret ()));;
      HandlePendingRefresh;;
      mret (status, fence).

(** **** Dispatch to display and layer objects *)

Definition CallDisplayFunction (device : bool) (display : hwc2_display_t)
    (member : HWCDisplay -> HWCDisplay * HWC2.Error) : M HWC2.Error :=
  if negb device then mret HWC2.BadParameter
  else if decide (kNumDisplays ≤ display)%N then mret HWC2.BadDisplay
  else
    s ← get;
    match hwc_display_ s !! display with
    | Some hwc_display =>
        let '(hwc_display, status) := member hwc_display in
        put_display display hwc_display;;
        mret status
    | None => mret HWC2.BadDisplay
    end.

Definition CallLayerFunction (device : bool) (display : hwc2_display_t)
    (layer : hwc2_layer_t) (member : HWCLayer -> HWCLayer * HWC2.Error) : M HWC2.Error :=
  if negb device then mret HWC2.BadParameter
  else if decide (kNumDisplays ≤ display)%N then mret HWC2.BadDisplay
  else
    s ← get;
    match hwc_display_ s !! display with
    | Some hwc_display =>
        match GetHWCLayer hwc_display layer with
        | Some hwc_layer =>
            emit (EvLayerMember display layer);;
            let '(hwc_layer, status) := member hwc_layer in
            let hwc_display := put_layer layer hwc_layer hwc_display in
            put_display display
              (if decide (GetGeometryChanges hwc_display ≠ 0%N)
               then ResetValidation hwc_display else hwc_display);;
            mret status
        | None => mret HWC2.BadLayer
        end
    | None => mret HWC2.BadDisplay
    end.

(** **** Power mode *)

Definition GetDozeSupport (display : hwc2_display_t) (s : HWCSession) : Z :=
  if bool_decide (display = HWC_DISPLAY_PRIMARY)
     || bool_decide (display = GetNextBuiltinIndex s)
  then 1 else 0.

Definition updateRefreshRateHint : M unit :=
  s ← get;
  let mVsyncPeriod := UINT32 (GetVsyncPeriod HWC_DISPLAY_PRIMARY s) in
  d ← deref HWC_DISPLAY_PRIMARY;
  let mPowerModeState := GetLastPowerMode d in
  when (bool_decide (mVsyncPeriod ≠ 0)) (emit (EvSignalRefreshRate mPowerModeState mVsyncPeriod)).

(** [static_cast<HWC2::PowerMode>(int_mode)] on the checked range. *)
Definition PowerMode_of (int_mode : Z) : HWC2.PowerMode :=
  if decide (int_mode = 1) then HWC2.Doze
  else if decide (int_mode = 2) then HWC2.On
  else if decide (int_mode = 3) then HWC2.DozeSuspend
  else HWC2.Off.

Definition SetPowerMode (device : bool) (display : hwc2_display_t) (int_mode : Z)
  : M HWC2.Error :=
  if decide (kNumDisplays ≤ display)%N then mret HWC2.BadDisplay
  (*  validate device and also avoid undefined behavior in cast to HWC2::PowerMode *)
  else if negb device || bool_decide (int_mode < 0) || bool_decide (3 < int_mode)
  then mret HWC2.BadParameter
  else
    let mode := PowerMode_of int_mode in
    (*  all displays support on/off. Check for doze modes *)
    s ← get;
    let support := GetDozeSupport display s in
    if bool_decide (support = 0)
       && (bool_decide (mode = HWC2.Doze) || bool_decide (mode = HWC2.DozeSuspend))
    then mret HWC2.Unsupported
    else
      error ← CallDisplayFunction device display (SetPowerMode_display mode);
      if decide (error ≠ HWC2.None) then mret error
      else
        HandleConcurrency display;;
        (if decide (mode = HWC2.Doze) then
           (* Trigger refresh for doze mode to take effect. *)
           Refresh display;;
           (* Trigger one more refresh for PP features to take effect. *)
           modify (λ s, set_pending_refresh_
                          (N.setbit (pending_refresh_ s) display) s)
         else
           (* Reset the pending refresh bit *)
           modify (λ s, set_pending_refresh_
                          (N.clearbit (pending_refresh_ s) display) s));;
        updateRefreshRateHint;;
        mret HWC2.None.

(** **** Virtual displays *)

(** The slot loop of [CreateVirtualDisplayObj] for one snapshot entry:
    [inl] is a failed [Create], [inr] the slot filled, if any. *)
Fixpoint create_virtual (info : HWDisplayInfo) (slots : list nat)
  : M (unit + option hwc2_display_t) :=
  match slots with
  | [] => mret (inr None)
  | i :: slots =>
      m ← load (RefVirtual i);
      let client_id := client_id m in
      s ← get;
      match hwc_display_ s !! client_id with
      | Some _ => create_virtual info slots
      | None =>
          match Create HWCDisplayVirtual client_id (display_id info) with
          | CreateFailed _ => mret (inl ())
          | Created d =>
              put_display client_id d;;
              set_hdr client_id (HasHDRSupport d);;
              assign (RefVirtual i)
                (set_type_and_id (display_type info) (display_id info));;
              mret (inr (Some client_id))
          end
      end
  end.

(** The loop over the snapshot.  [out_display_id] is the value behind the
    out-pointer, which a created display overwrites; the result carries
    the value behind it at the end, [inl] after a failed [Create]. *)
Fixpoint create_virtuals (infos : HWDisplaysInfo) (out_display_id : hwc2_display_t)
  : M (hwc2_display_t + hwc2_display_t) :=
  match infos with
  | [] => mret (inr out_display_id)
  | info :: infos =>
      if decide (display_type info ≠ kVirtual) then create_virtuals infos out_display_id
      else
        s ← get;
        r ← create_virtual info (seq 0 (length (map_info_virtual_ s)));
        match r with
        | inl _ => mret (inl out_display_id)
        | inr (Some client_id) => create_virtuals infos client_id
        | inr None => create_virtuals infos out_display_id
        end
  end.

(** [out_display_id] is the value behind the out-pointer on entry; the
    result carries the value behind it on return. *)
Definition CreateVirtualDisplayObj (out_display_id : hwc2_display_t)
  : M (HWC2.Error * hwc2_display_t) :=
  s ← get;
  if negb (client_connected_ s) then mret (HWC2.BadDisplay, out_display_id)
  else
    c ← core;
    match GetDisplaysStatus c with
    | None => mret (HWC2.BadDisplay, out_display_id)
    | Some hw_displays_info =>
        r ← create_virtuals hw_displays_info out_display_id;
        match r with
        | inl out_display_id => mret (HWC2.BadDisplay, out_display_id)
        | inr out_display_id =>
            scope_lock SEQUENCE_WAIT_SCOPE_LOCK HWC_DISPLAY_PRIMARY;;
            reset_primary_validation;;
            mret (HWC2.None, out_display_id)
        end
    end.

(** The non-null checks of [width], [height] and [format] are the flag
    [args_ok]; [out_display_id] is [None] for a null out-pointer. *)
Definition CreateVirtualDisplay (device : bool) (args_ok : bool)
    (out_display_id : option hwc2_display_t) : M (HWC2.Error * option hwc2_display_t) :=
  (* TODO(user): Handle concurrency with HDMI *)
  if negb device then mret (HWC2.BadDisplay, out_display_id)
  else
    match out_display_id with
    | None => mret (HWC2.BadParameter, None)
    | Some id =>
        if negb args_ok then mret (HWC2.BadParameter, out_display_id)
        else
          '(status, id) ← CreateVirtualDisplayObj id;
          HandleConcurrency id;;
          mret (status, Some id)
    end.

Fixpoint destroy_virtual (display : hwc2_display_t) (slots : list nat) : M unit :=
  match slots with
  | [] => mret ()
  | i :: slots =>
      m ← load (RefVirtual i);
      if decide (client_id m = display) then
        DestroyDisplay (RefVirtual i);;
        HandleConcurrency display
      else destroy_virtual display slots
  end.

Definition DestroyVirtualDisplay (device : bool) (display : hwc2_display_t)
  : M HWC2.Error :=
  if negb device || bool_decide (kNumDisplays ≤ display)%N then mret HWC2.BadDisplay
  else
    s ← get;
    destroy_virtual display (seq 0 (length (map_info_virtual_ s)));;
    mret HWC2.None.

(** The DRM hotplug branch of [UEventHandler], after the event text has
    been parsed into [bpp] and [pattern]. *)
Definition UEventHandler_hotplug (bpp pattern : Z) : M unit :=
  modify (set_hpd_ bpp pattern);;
  CreatePluggableDisplays true;;
  mret ().

(** **** The operations of a running session

    What reaches the session once [Init] is over: the client's calls, the
    hotplug events of the hardware, and the teardown of a slot's display. *)
Inductive Operation : Type :=
| OpRegisterCallback (device : bool) (descriptor : Callback) (pointer : bool)
| OpValidateDisplay (device : bool) (display : hwc2_display_t)
| OpPresentDisplay (device : bool) (display : hwc2_display_t) (out_retire_fence : bool)
| OpSetPowerMode (device : bool) (display : hwc2_display_t) (int_mode : Z)
| OpCallDisplayFunction (device : bool) (display : hwc2_display_t)
    (member : HWCDisplay -> HWCDisplay * HWC2.Error)
| OpCallLayerFunction (device : bool) (display : hwc2_display_t) (layer : hwc2_layer_t)
    (member : HWCLayer -> HWCLayer * HWC2.Error)
| OpCreateVirtualDisplay (device : bool) (args_ok : bool)
    (out_display_id : option hwc2_display_t)
| OpDestroyVirtualDisplay (device : bool) (display : hwc2_display_t)
| OpHotplugEvent (bpp pattern : Z)
| OpCreatePluggableDisplays (delay_hotplug : bool)
| OpHandleBuiltInDisplays
| OpDestroyDisplay (map_info : MapInfoRef)
| OpHandleConcurrency (disp : hwc2_display_t)
| OpHandlePendingRefresh.

Definition perform (op : Operation) : M unit :=
  match op with
  | OpRegisterCallback device descriptor pointer =>
      RegisterCallback device descriptor pointer;; mret ()
  | OpValidateDisplay device display => ValidateDisplay device display;; mret ()
  | OpPresentDisplay device display fence => PresentDisplay device display fence;; mret ()
  | OpSetPowerMode device display int_mode => SetPowerMode device display int_mode;; mret ()
  | OpCallDisplayFunction device display member =>
      CallDisplayFunction device display member;; mret ()
  | OpCallLayerFunction device display layer member =>
      CallLayerFunction device display layer member;; mret ()
  | OpCreateVirtualDisplay device args_ok out =>
      CreateVirtualDisplay device args_ok out;; mret ()
  | OpDestroyVirtualDisplay device display => DestroyVirtualDisplay device display;; mret ()
  | OpHotplugEvent bpp pattern => UEventHandler_hotplug bpp pattern
  | OpCreatePluggableDisplays delay_hotplug => CreatePluggableDisplays delay_hotplug;; mret ()
  | OpHandleBuiltInDisplays => HandleBuiltInDisplays
  | OpDestroyDisplay map_info => DestroyDisplay map_info
  | OpHandleConcurrency disp => HandleConcurrency disp
  | OpHandlePendingRefresh => HandlePendingRefresh
  end.

End Code.

(** A pointer into one of the slot tables. *)
Definition is_slot (r : MapInfoRef) : bool :=
  match r with
  | RefLocal _ => false
  | _ => true
  end.

End Session.

(** ** Scenarios

    Concrete collaborators and event sequences on which the statements
    below are exercised. *)

Module Scenario.

Import Session.

(** Slot limits used in the scenarios: one primary and four slots per
    category. *)
Definition limits : HWCCallbacksLimits :=
  {| kNumBuiltIn := 4; kNumPluggable := 4; kNumVirtual := 4; kNumDisplays := 13 |}.

Definition with_validation (st : DisplayValidateState) (validated : bool) (d : HWCDisplay) : HWCDisplay :=
  mkHWCDisplay (kind_ d) (id_ d) (sdm_id_ d) (last_power_mode_ d) (active_ d) st validated
    (display_pending_refresh_ d) (geometry_changes_ d) (layer_map_ d).

Definition with_power_mode (mode : HWC2.PowerMode) (d : HWCDisplay) : HWCDisplay :=
  mkHWCDisplay (kind_ d) (id_ d) (sdm_id_ d) mode (active_ d) (validate_state_ d) (validated_ d)
    (display_pending_refresh_ d) (geometry_changes_ d) (layer_map_ d).

Definition with_geometry_changes (gc : N) (d : HWCDisplay) : HWCDisplay :=
  mkHWCDisplay (kind_ d) (id_ d) (sdm_id_ d) (last_power_mode_ d) (active_ d) (validate_state_ d)
    (validated_ d) (display_pending_refresh_ d) gc (layer_map_ d).

(** Modelled from the spec: the display object of section 4.3, for the
    virtual methods that hwc_display.cpp (not among the files embedded
    here) implements.  Validation moves the display to the validated
    state and reports no changes; present needs a validated display,
    answers [NotValidated] otherwise, and leaves the display in the
    skip-validate state; validation can be skipped while the display is
    validated and no geometry change is recorded.  [fresh_active] is the
    activation state of a display that was just created. *)
Definition spec_engine (fresh_active : bool) : DisplayEngine :=
  {| Create kind id sdm :=
       Created (mkHWCDisplay kind id sdm HWC2.Off fresh_active kNoValidate false false 0 ∅);
     Validate d := (with_validation kNormalValidate true d, (HWC2.None, (0%N, 0%N)));
     GetValidateDisplayOutput d := (HWC2.None, (0%N, 0%N));
     Present d :=
       if validated_ d then (with_validation kSkipValidate true d, (HWC2.None, 0))
       else (d, (HWC2.NotValidated, -1));
     CanSkipValidate d := validated_ d && bool_decide (geometry_changes_ d = 0%N);
     HasClientComposition d := false;
     GetGeometryChanges d := geometry_changes_ d;
     SetPowerMode_display mode d := (with_power_mode mode d, HWC2.None);
     SetVsyncEnabled_display _ d := (d, HWC2.None);
     SetState _ d := (d, 0);
     GetHdrCapabilities _ := (HWC2.None, 0%N);
     GetDisplayAttribute_VsyncPeriod _ := Some 16666666;
     SetColorModeDetailEnhancer d := d |}.

(** A display engine that needs client composition for every frame. *)
Definition client_composition_engine : DisplayEngine :=
  {| Create := @Create (spec_engine true);
     Validate d := (with_validation kNormalValidate true d, (HWC2.HasChanges, (1%N, 0%N)));
     GetValidateDisplayOutput d := (HWC2.HasChanges, (1%N, 0%N));
     Present := @Present (spec_engine true);
     CanSkipValidate := @CanSkipValidate (spec_engine true);
     HasClientComposition d := true;
     GetGeometryChanges := @GetGeometryChanges (spec_engine true);
     SetPowerMode_display := @SetPowerMode_display (spec_engine true);
     SetVsyncEnabled_display := @SetVsyncEnabled_display (spec_engine true);
     SetState := @SetState (spec_engine true);
     GetHdrCapabilities := @GetHdrCapabilities (spec_engine true);
     GetDisplayAttribute_VsyncPeriod := @GetDisplayAttribute_VsyncPeriod (spec_engine true);
     SetColorModeDetailEnhancer := @SetColorModeDetailEnhancer (spec_engine true) |}.

(** Hardware: what the core reports.  [max] gives the three maxima. *)
Definition hardware (infos : HWDisplaysInfo) (max_builtin max_pluggable max_virtual : Z)
  : CoreInterface :=
  {| GetDisplaysStatus := Some infos;
     GetFirstDisplayInterfaceType := display_type <$> find is_primary infos;
     GetMaxDisplaysSupported t :=
       match t with
       | kBuiltIn => Some max_builtin
       | kPluggable => Some max_pluggable
       | kVirtual => Some max_virtual
       | kDisplayTypeMax => None
       end |}.

(** The hardware-event side: a new snapshot is what the next scan sees. *)
Definition hardware_reports (infos : HWDisplaysInfo) : M unit :=
  modify (λ s, match core_intf_ s with
               | Some c => set_core_intf_
                             (Some (mkCoreInterface (Some infos)
                                      (GetFirstDisplayInterfaceType c)
                                      (GetMaxDisplaysSupported c))) s
               | None => s
               end).

Section Boot.

Context {lim : HWCCallbacksLimits} {engine : DisplayEngine}.

(** [Init] as far as the slots go, the client's registration of its
    hotplug and refresh callbacks, and the first frame on the primary
    display. *)
Definition boot (hw : CoreInterface) : M unit :=
  InitSupportedDisplaySlots (Some hw);;
  CreatePrimaryDisplay true;;
  RegisterCallback true CallbackHotplug true;;
  RegisterCallback true CallbackRefresh true;;
  ValidateDisplay true HWC_DISPLAY_PRIMARY;;
  PresentDisplay true HWC_DISPLAY_PRIMARY true;;
  mret ().

Definition run {A} (m : M A) : Outcome A := m HWCSession_init.

End Boot.

Definition is_active (display : hwc2_display_t) (s : HWCSession) : bool :=
  match hwc_display_ s !! display with
  | Some d => active_ d
  | None => false
  end.

(** A session whose client has registered its callbacks. *)
Definition registered `{HWCCallbacksLimits} : HWCSession :=
  set_callbacks_ (mkHWCCallbacks true true 0 []) HWCSession_init.

(** Displays 1 and 2 wait for a refresh. *)
Definition two_pending : HWCSession :=
  set_pending_refresh_ 6%N (registered (H := limits)).

(** An external display in slot 1 with one layer (handle 7) and with a
    geometry change on record, last presented on the fast path. *)
Definition layered_display : HWCDisplay :=
  mkHWCDisplay HWCDisplayPluggable 1 1 HWC2.On true kSkipValidate true false 1
    {[ 7%N := mkHWCLayer 0 [] ]}.

Definition layered : HWCSession :=
  set_hwc_display_ {[ 1%N := layered_display ]} (registered (H := limits)).

(** [layered] with displays 1 and 2 waiting for a refresh. *)
Definition layered_pending : HWCSession := set_pending_refresh_ 6%N layered.

(** A layer setter: it stores its argument and succeeds. *)
Definition set_attribute (x : Z) (l : HWCLayer) : HWCLayer * HWC2.Error :=
  (mkHWCLayer (layer_geometry_changes_ l) (x :: layer_attributes_ l), HWC2.None).

(** The same display with an implicit validation on record, and in the
    state in which an explicit validation left it. *)
Definition internally_validated : HWCSession :=
  set_hwc_display_ {[ 1%N := with_validation kInternalValidate true layered_display ]}
    (registered (H := limits)).

Definition unvalidated : HWCSession :=
  set_hwc_display_ {[ 1%N := with_validation kNoValidate false layered_display ]}
    (registered (H := limits)).

(** Two calls of [ValidateDisplay] in a row on display 1. *)
Definition validate_twice (s : HWCSession)
  : Outcome ((HWC2.Error * option (N * N)) * (HWC2.Error * option (N * N))) :=
  (r1 ← ValidateDisplay (limits := limits) (engine := spec_engine true) true 1%N;
   r2 ← ValidateDisplay (limits := limits) (engine := spec_engine true) true 1%N;
   mret (r1, r2)) s.

(** *** One builtin primary panel, a pluggable and a virtual display *)

Definition panel : HWDisplayInfo := mkHWDisplayInfo 0 kBuiltIn true true.
Definition hdmi (connected : bool) : HWDisplayInfo := mkHWDisplayInfo 1 kPluggable connected false.
Definition writeback : HWDisplayInfo := mkHWDisplayInfo 2 kVirtual false false.

Section PanelHdmiWriteback.

Variable fresh_active : bool.

#[local] Existing Instance limits.
#[local] Instance panel_engine : DisplayEngine := spec_engine fresh_active.

(** The pluggable display is plugged in, a virtual display is created,
    and the pluggable one is unplugged and plugged in again. *)
Definition plug_virtual_replug : M unit :=
  boot (hardware [panel; hdmi false; writeback] 1 1 1);;
  hardware_reports [panel; hdmi true; writeback];;
  UEventHandler_hotplug 0 0;;
  CreateVirtualDisplay true true (Some 0%N);;
  hardware_reports [panel; hdmi false; writeback];;
  UEventHandler_hotplug 0 0;;
  hardware_reports [panel; hdmi true; writeback];;
  UEventHandler_hotplug 0 0.

(** After that, the primary display is switched on once more. *)
Definition plug_virtual_replug_power : M HWC2.Error :=
  plug_virtual_replug;;
  SetPowerMode true HWC_DISPLAY_PRIMARY 2.

End PanelHdmiWriteback.

(** The session after boot and the first connection of the pluggable
    display, with displays that are created active. *)
Definition plugged : HWCSession :=
  final (run (lim := limits)
           (boot (lim := limits) (engine := spec_engine true)
              (hardware [panel; hdmi false; writeback] 1 1 1);;
            hardware_reports [panel; hdmi true; writeback];;
            UEventHandler_hotplug (limits := limits) (engine := spec_engine true) 0 0)).

(** A second pluggable display, and a scan that finds both connected while
    the hardware has one pluggable slot. *)
Definition second_hdmi : HWDisplayInfo := mkHWDisplayInfo 3 kPluggable true false.

Definition two_hdmi_scan : Outcome Z :=
  run (lim := limits)
    (boot (lim := limits) (engine := spec_engine true)
       (hardware [panel; hdmi false; writeback] 1 1 1);;
     hardware_reports [panel; hdmi true; second_hdmi; writeback];;
     CreatePluggableDisplays (limits := limits) (engine := spec_engine true) true).

(** *** A pluggable primary display that is not connected at boot *)

Definition absent_primary : HWDisplayInfo := mkHWDisplayInfo 0 kPluggable false true.

Definition headless : HWCSession :=
  final (run (lim := limits)
           (boot (lim := limits) (engine := spec_engine true)
              (hardware [absent_primary] 1 1 1))).

(** [layered] once the primary display is ready. *)
Definition layered_ready : HWCSession := set_primary_ready_ true layered.

(** The kind of the display object in a slot of [hwc_display_]. *)
Definition kind_of (display : hwc2_display_t) (s : HWCSession) : option DisplayKind :=
  kind_ <$> hwc_display_ s !! display.

(** *** A builtin primary panel and two more builtin panels *)

Definition second_panel : HWDisplayInfo := mkHWDisplayInfo 1 kBuiltIn true false.
Definition third_panel : HWDisplayInfo := mkHWDisplayInfo 2 kBuiltIn true false.

(** Boot with the three panels connected, on hardware that supports
    [max_builtin] builtin displays (the primary one included). *)
Definition three_panels (max_builtin : Z) : Outcome unit :=
  run (lim := limits)
    (boot (lim := limits) (engine := spec_engine true)
       (hardware [panel; second_panel; third_panel] max_builtin 1 1)).

(** The sdm ids mapped to the builtin slots, by slot index, and whether the
    slot's display object exists. *)
Definition builtin_slots (s : HWCSession) : list (hwc2_display_t * Z * bool) :=
  (λ m, (client_id m, sdm_id m, bool_decide (is_Some (hwc_display_ s !! client_id m))))
    <$> map_info_builtin_ s.

End Scenario.

(** ** The power-hint worker: the hints that are on *)

Module PowerHintIdle.

Import PowerHint.

(** The hints that are on at a service that carries out every [setMode]
    request, after the requests [cs]. *)
Definition hints_on (cs : list (string * bool)) : gset string :=
  foldl (λ (on : gset string) (c : string * bool),
           if c.2 then on ∪ {[c.1]} else on ∖ {[c.1]}) ∅ cs.

(** A service that is reachable and completes every transaction; which
    hints it supports is up to it. *)
Definition accepting (hal : PowerHalExt) : Prop :=
  (∀ cs, fromBinder cs = true)
  ∧ (∀ cs mode, (isModeSupported cs mode).1 = StatusOk)
  ∧ (∀ cs mode enabled, setMode cs mode enabled = StatusOk).

(** A service that supports every hint. *)
Definition supporting (hal : PowerHalExt) : Prop :=
  ∀ cs mode, (isModeSupported cs mode).2 = true.

(** The refresh-rate hint that the worker has on record as enabled. *)
Definition recorded_hints (w : PowerHalHintWorker) : gset string :=
  if decide (mPrevRefreshRate w = 0) then ∅
  else {[refreshRateHintStr (mPrevRefreshRate w)]}.

(** The rate that the power mode and the period signalled last ask a hint
    for: none (0) when the display is not on. *)
Definition signalled_rate (w : PowerHalHintWorker) : option Z :=
  if decide (mPowerModeState w = HWC2.On) then refreshRateOf (mVsyncPeriod w) else Some 0.

(** A signal whose rate, with the display on, is not 0: the worker's
    bookkeeping takes the rate 0 for no hint. *)
Definition rated (sg : Signal) : Prop :=
  match sg with
  | SignalRefreshRate HWC2.On vsyncPeriod => refreshRateOf vsyncPeriod ≠ Some 0
  | _ => True
  end.

(** What the signals write and the worker reads when it takes them up. *)
Definition signalled (w : PowerHalHintWorker) : bool * HWC2.PowerMode * N :=
  (mNeedUpdateRefreshRateHint w, mPowerModeState w, mVsyncPeriod w).

(** The worker's record of the refresh-rate hints agrees with the service:
    the hint on record is the one that is on, none is pending, and the rate
    signalled is not 0. *)
Definition consistent (w : PowerHalHintWorker) : Prop :=
  hints_on (refresh_rate_requests (hal_calls w)) = recorded_hints w
  ∧ mPendingPrevRefreshRate w = 0
  ∧ rated (SignalRefreshRate (mPowerModeState w) (mVsyncPeriod w)).

(** No refresh rate was found unsupported, and when no update is due the
    rate on record is the rate signalled. *)
Definition settled (w : PowerHalHintWorker) : Prop :=
  map_Forall (λ _ b, b = true) (mRefreshRateHintSupportMap w)
  ∧ (mNeedUpdateRefreshRateHint w = false -> signalled_rate w = Some (mPrevRefreshRate w)).

(** The signals of one step of a run. *)
Definition signals_of (step : Step) : list Signal :=
  match step with
  | Signalled sg => [sg]
  | Round env => waitSignals env ++ updateSignals env ++ retrySignals env
  end.

End PowerHintIdle.

(** ** The session: teardown *)

Module SessionTeardown.

Import Session.

(** The part of the session that tells how [DestroyDisplay] proceeds for a
    pluggable display. *)
Definition destroy_context (s : HWCSession) : bool * bool * option CoreInterface :=
  (pluggable_is_primary_ s, on_refresh_ (callbacks_ s), core_intf_ s).

#[global] Instance MapInfoRef_eq_dec : EqDecision MapInfoRef.
Proof. solve_decision. Defined.


(** The displays that are active. *)
Definition is_active (display : hwc2_display_t) (s : HWCSession) : bool :=
  match hwc_display_ s !! display with
  | Some d => active_ d
  | None => false
  end.

(** Calls of [Deinit] on objects outside the session record. *)
Inductive TeardownCall : Set :=
| DestroyColorManager          (* color_mgr_->DestroyColorManager() *)
| UEventRegisterNull.          (* g_hwc_uevent_.Register(nullptr) *)

Section Code.

Context {limits : HWCCallbacksLimits} {engine : DisplayEngine}.

(** [for (auto &map_info : table) DestroyDisplay(&map_info);] with
    [slot i] for [&table[i]]. *)
Fixpoint destroy_displays (slot : nat -> MapInfoRef) (slots : list nat) : M unit :=
  match slots with
  | [] => mret ()
  | i :: slots => DestroyDisplay (slot i);; destroy_displays slot slots
  end.

(** [Deinit]: the result carries, next to the status, the calls that reach
    the color manager and the uevent thread. *)
Definition Deinit : M (Z * list TeardownCall) :=
  (* Destroy all connected displays *)
  DestroyDisplay RefPrimary;;
  s ← get;
  destroy_displays RefBuiltin (seq 0 (length (map_info_builtin_ s)));;
  s ← get;
  destroy_displays RefPluggable (seq 0 (length (map_info_pluggable_ s)));;
  s ← get;
  destroy_displays RefVirtual (seq 0 (length (map_info_virtual_ s)));;
  s ← get;
  let color_mgr := if color_mgr_ s then [DestroyColorManager] else [] in
  DestroyCore;;
  mret (0, color_mgr ++ [UEventRegisterNull]).

End Code.

End SessionTeardown.

(** ** Hardware events: the text of a uevent *)

Module UEvent.

Import Session.

Abbreviation ascii := Ascii.ascii (only parsing).

(** The bytes behind a [const char *], from the pointer on.  Bytes past the
    end of the list read as zero: [UEventThread] hands over a buffer that
    is zero-initialised and longer than the event by two bytes at least. *)
Abbreviation memory := (list ascii) (only parsing).

Definition NUL : ascii := Ascii.zero.

(** The C string that starts at [p]: the bytes before the first zero. *)
Fixpoint c_str (p : memory) : list ascii :=
  match p with
  | [] => []
  | c :: p => if decide (c = NUL) then [] else c :: c_str p
  end.

(** Modelled from the C library: [strstr], the offset of the first
    occurrence of [needle] in the contents of a C string, if any. *)
Fixpoint is_prefix (needle haystack : list ascii) : bool :=
  match needle, haystack with
  | [], _ => true
  | a :: needle, b :: haystack => bool_decide (a = b) && is_prefix needle haystack
  | _ :: _, [] => false
  end.

Fixpoint strstr (haystack needle : list ascii) : option nat :=
  if is_prefix needle haystack then Some 0%nat
  else match haystack with
       | [] => None
       | _ :: haystack => S <$> strstr haystack needle
       end.

(** [atoi] of the C library, on the contents of a C string. *)
Class CLibrary := { atoi : list ascii -> Z }.

Section Code.

Context {libc : CLibrary}.

(** The loop of [GetEventValue]; [iterator_str] is the offset
    [iterator_str - uevent_data].  Every round moves the pointer on by one
    byte at least and the loop ends at a zero byte, so that one round more
    than the list has bytes is never used up. *)
Fixpoint GetEventValue_loop (fuel : nat) (uevent_data : memory) (length : Z)
    (event_info : list ascii) (iterator_str : nat) : Z :=
  match fuel with
  | O => -1
  | S fuel =>
      let record := c_str (drop iterator_str uevent_data) in
      if bool_decide (Z.of_nat iterator_str ≤ length) && bool_decide (record ≠ []) then
        match strstr record event_info with
        | Some pstr =>
            atoi (c_str (drop (iterator_str + List.length event_info) uevent_data))
        | None =>
            GetEventValue_loop fuel uevent_data length event_info
              (iterator_str + List.length record + 1)
        end
      else -1
  end.

Definition GetEventValue (uevent_data : memory) (length : Z) (event_info : list ascii) : Z :=
  GetEventValue_loop (S (List.length uevent_data)) uevent_data length event_info 0.

(** The loop of [GetTokenValue]; the result is the offset of the returned
    pointer from [uevent_data], [None] for a null pointer. *)
Fixpoint GetTokenValue_loop (fuel : nat) (uevent_data : memory) (length : Z)
    (token : list ascii) (iterator_str : nat) : option nat :=
  match fuel with
  | O => None
  | S fuel =>
      let record := c_str (drop iterator_str uevent_data) in
      if bool_decide (Z.of_nat iterator_str ≤ length) && bool_decide (record ≠ []) then
        match strstr record token with
        | Some pstr => Some (iterator_str + pstr + List.length token)%nat
        | None =>
            GetTokenValue_loop fuel uevent_data length token
              (iterator_str + List.length record + 1)
        end
      else None
  end.

Definition GetTokenValue (uevent_data : memory) (length : Z) (token : list ascii)
  : option nat :=
  GetTokenValue_loop (S (List.length uevent_data)) uevent_data length token 0.

End Code.

(** A uevent as the kernel sends it: records, each closed by a zero
    byte. *)
Definition uevent_of (records : list (list ascii)) : memory :=
  concat ((λ record, record ++ [NUL]) <$> records).

Definition well_formed (record : list ascii) : Prop := record ≠ [] ∧ NUL ∉ record.

(** The first record that contains [key]. *)
Definition record_with (key : list ascii) (records : list (list ascii))
  : option (list ascii) :=
  find (λ record, bool_decide (is_Some (strstr record key))) records.

End UEvent.

(** ** More scenarios

    Services, sessions and uevents on which the statements about the
    worker's rounds, the teardown and the uevent text are exercised. *)

Module Situation.

(** A service whose process has died: it can be looked up, and every
    transaction fails. *)
Definition dead_hal : PowerHint.PowerHalExt :=
  {| PowerHint.fromBinder := λ _, true;
     PowerHint.isModeSupported := λ _ _, (PowerHint.TransactionFailed, false);
     PowerHint.setMode := λ _ _ _, PowerHint.TransactionFailed |}.

(** A service that answers the support queries and dies on the first
    [setMode]. *)
Definition crashing_hal : PowerHint.PowerHalExt :=
  {| PowerHint.fromBinder := λ _, true;
     PowerHint.isModeSupported := λ _ _, (PowerHint.StatusOk, true);
     PowerHint.setMode := λ _ _ _, PowerHint.TransactionFailed |}.

(** A service that completes every transaction and supports the hints of
    60 and 120 Hz, no other. *)
Definition picky_hal : PowerHint.PowerHalExt :=
  {| PowerHint.fromBinder := λ _, true;
     PowerHint.isModeSupported := λ _ mode,
       (PowerHint.StatusOk,
        bool_decide (mode = "REFRESH_60FPS") || bool_decide (mode = "REFRESH_120FPS"));
     PowerHint.setMode := λ _ _ _, PowerHint.StatusOk |}.

(** A run of the worker: 60 Hz; an idle signal, then 90 Hz and 120 Hz before
    the worker runs again; a call of [Routine] during which the display
    goes off; a call that takes that up; 60 Hz again. *)
Definition steps : list PowerHint.Step :=
  [PowerHint.Signalled (PowerHint.SignalRefreshRate HWC2.On 16666666%N);
   PowerHint.Round (PowerHint.quiet 1000%N);
   PowerHint.Signalled (PowerHint.SignalIdle 1500%N);
   PowerHint.Signalled (PowerHint.SignalRefreshRate HWC2.On 11111111%N);
   PowerHint.Signalled (PowerHint.SignalRefreshRate HWC2.On 8333333%N);
   PowerHint.Round
     {| PowerHint.currentTime := 2000%N; PowerHint.waitStatus := 0;
        PowerHint.waitSignals := []; PowerHint.idleTime := 2000%N;
        PowerHint.updateSignals := [PowerHint.SignalRefreshRate HWC2.Off 8333333%N];
        PowerHint.retrySignals := [PowerHint.SignalIdle 2500%N] |};
   PowerHint.Round (PowerHint.quiet 3000%N);
   PowerHint.Signalled (PowerHint.SignalRefreshRate HWC2.On 16666666%N);
   PowerHint.Round (PowerHint.quiet 4000%N)].

(** Hardware with two builtin panels, and the session right after the
    primary display was created: the client has not registered yet. *)
Definition two_panels : Session.CoreInterface :=
  Scenario.hardware [Scenario.panel; Scenario.second_panel] 2 2 1.

Definition created : Session.HWCSession :=
  Session.final
    (Scenario.run (lim := Scenario.limits)
       (Session.InitSupportedDisplaySlots (limits := Scenario.limits) (Some two_panels);;
        Session.CreatePrimaryDisplay (engine := Scenario.spec_engine true) true)).

(** [Scenario.plugged] once the hardware stops listing a virtual display. *)
Definition no_writeback : Session.HWCSession :=
  Session.final
    (Scenario.hardware_reports [Scenario.panel; Scenario.hdmi true] Scenario.plugged).


(** A C library whose [atoi] reads an optional sign and the decimal digits
    that follow it (no leading white space, no overflow). *)
Definition digit (c : Ascii.ascii) : option Z :=
  let n := Z.of_nat (Ascii.nat_of_ascii c) in
  if bool_decide (48 ≤ n) && bool_decide (n ≤ 57) then Some (n - 48) else None.

Fixpoint digits (acc : Z) (s : list Ascii.ascii) : Z :=
  match s with
  | [] => acc
  | c :: s =>
      match digit c with
      | Some d => digits (10 * acc + d) s
      | None => acc
      end
  end.

Definition decimal_atoi (s : list Ascii.ascii) : Z :=
  match s with
  | c :: s' =>
      if bool_decide (Ascii.nat_of_ascii c = 45%nat) then - digits 0 s'       (* '-' *)
      else if bool_decide (Ascii.nat_of_ascii c = 43%nat) then digits 0 s'    (* '+' *)
      else digits 0 s
  | [] => 0
  end.

Definition decimal_libc : UEvent.CLibrary := {| UEvent.atoi := decimal_atoi |}.

(** The hotplug event of an external display that asks for a test
    pattern. *)
Definition hotplug_event : list (list Ascii.ascii) :=
  String.list_ascii_of_string
    <$> ["change@/devices/platform/soc/ae00000.qcom,mdss_mdp/drm/card0";
         "ACTION=change"; "HOTPLUG=1"; "name=DP-1"; "status=connected";
         "bpp=24"; "pattern=3"].

(** An event of the panel in which the key sits in the middle of its
    record. *)
Definition panel_event : list (list Ascii.ascii) :=
  String.list_ascii_of_string
    <$> ["change@/devices/virtual/graphics/fb0"; "OLD_PANEL_ALIVE=1"].

End Situation.

(** * Properties

    ** The power-hint worker *)

Section PowerHintProperties.

Import PowerHint.

Lemma refreshRateHintStr_nonempty r : refreshRateHintStr r ≠ "".
Proof. unfold refreshRateHintStr. cbn. discriminate. Qed.

Lemma set_mode_calls_app cs1 cs2 :
  set_mode_calls (cs1 ++ cs2) = set_mode_calls cs1 ++ set_mode_calls cs2.
Proof. apply omap_app. Qed.

Section Worker.
Context {hal : PowerHalExt}.

(** What one hint request adds to the call log. *)
Lemma sendRefreshRateHint_sent r e w ret w' :
  sendRefreshRateHint r e w = (ret, w') -> sent r e w w' ret.
Proof.
  unfold sendRefreshRateHint, sendPowerHalExtHint, connectPowerHalExt.
  destruct (decide (refreshRateHintStr r = "")) as [E|_];
    [by destruct (refreshRateHintStr_nonempty r)|].
  destruct (mPowerHalExtAidl w) eqn:Ha; [|destruct (fromBinder (hal_calls w))]; cbn;
    try destruct (setMode _ _ _); cbn; intros [= <- <-]; cbn;
    first [ by apply sent_ok | by apply sent_failed | by apply sent_unreachable ].
Qed.

Lemma checkRefreshRateHintSupport_calls r w ret w' :
  checkRefreshRateHintSupport r w = (ret, w') ->
  mPrevRefreshRate w' = mPrevRefreshRate w
  ∧ mPendingPrevRefreshRate w' = mPendingPrevRefreshRate w
  ∧ ∃ cs, hal_calls w' = hal_calls w ++ cs ∧ set_mode_calls cs = [].
Proof.
  unfold checkRefreshRateHintSupport, checkPowerHalExtHintSupport, connectPowerHalExt.
  destruct (_ !! r) as [[]|]; [intros [= <- <-]; split_and!; try done; exists []; by rewrite app_nil_r ..|].
  destruct (decide (refreshRateHintStr r = "")) as [E|_];
    [by destruct (refreshRateHintStr_nonempty r)|].
  destruct (mPowerHalExtAidl w) eqn:Ha; [|destruct (fromBinder (hal_calls w))]; cbn;
    try destruct (isModeSupported _ _) as [[] []]; cbn; intros [= <- <-]; cbn;
    (split_and!; [done|done|]);
    first [ by eexists [_] | exists []; by rewrite app_nil_r ].
Qed.

Lemma updateRefreshRateHint_switch_calls v rate w ret w' :
  refreshRateOf v = Some rate ->
  updateRefreshRateHint_switch HWC2.On v w = Some (ret, w') ->
  ∃ cs, hal_calls w' = hal_calls w ++ cs
    ∧ set_mode_calls cs `prefix_of` tail_sequence (mPrevRefreshRate w) rate
    ∧ (ret = NO_ERROR -> mPrevRefreshRate w ≠ rate ->
         set_mode_calls cs = tail_sequence (mPrevRefreshRate w) rate
         ∧ mPrevRefreshRate w' = rate
         ∧ mPendingPrevRefreshRate w' = mPendingPrevRefreshRate w).
Proof.
  intros Hrate. unfold updateRefreshRateHint_switch, tail_sequence.
  destruct (decide (HWC2.On ≠ HWC2.On)) as [?|_]; [done|]. rewrite Hrate.
  case_decide as Hsame.
  { intros [= <- <-]. exists []. rewrite app_nil_r. split_and!; [done|apply prefix_nil|done]. }
  destruct (checkRefreshRateHintSupport _ w) as [r1 w1] eqn:E1.
  apply checkRefreshRateHintSupport_calls in E1 as (Hp1 & Hq1 & cs1 & Hc1 & Hs1).
  case_decide as Hr1.
  { intros [= <- <-]. exists cs1. rewrite Hs1. split_and!; [done|apply prefix_nil|done]. }
  destruct (sendRefreshRateHint _ true w1) as [r2 w2] eqn:E2.
  apply sendRefreshRateHint_sent in E2.
  case_decide as Hr2.
  { intros [= <- <-]. destruct E2 as [?|? Hc2 ?|? ? Hc2 ? ?]; [done| |].
    - exists (cs1 ++ [SetMode (refreshRateHintStr rate) true]).
      rewrite Hc2, Hc1, set_mode_calls_app, Hs1, <-(assoc_L (++)). cbn.
      split_and!; [done| |done]. by apply prefix_cons, prefix_nil.
    - exists cs1. rewrite Hc2, Hc1, Hs1. split_and!; [done|apply prefix_nil|done]. }
  destruct E2 as [_ Hc2 Hp2 Hq2|?|?]; [|done..].
  rewrite Hp2, Hp1.
  case_decide as Hprev.
  - destruct (sendRefreshRateHint _ false w2) as [r3 w3] eqn:E3.
    apply sendRefreshRateHint_sent in E3.
    assert (Hfull : ∀ w'', mPrevRefreshRate w ≠ 0 ->
              hal_calls w'' = hal_calls w2 ++ [SetMode (refreshRateHintStr (mPrevRefreshRate w)) false] ->
              hal_calls w'' = hal_calls w ++ (cs1 ++ [SetMode (refreshRateHintStr rate) true;
                                                     SetMode (refreshRateHintStr (mPrevRefreshRate w)) false])
              ∧ set_mode_calls (cs1 ++ [SetMode (refreshRateHintStr rate) true;
                                        SetMode (refreshRateHintStr (mPrevRefreshRate w)) false])
                = [enable rate; disable (mPrevRefreshRate w)]).
    { intros w'' _ ->. rewrite Hc2, Hc1, set_mode_calls_app, Hs1, <-!(assoc_L (++)). by cbn. }
    destruct E3 as [Hok Hc3 Hp3 Hq3 | Hbad Hc3 Hpq3 | Hbad Hne Hc3 Hp3 Hq3].
    + rewrite decide_False by (by intros ?). intros [= <- <-].
      eexists; split; [apply (Hfull w3 Hprev Hc3)|].
      rewrite (proj2 (Hfull w3 Hprev Hc3)). cbn. split_and!; try done. intros _ _. split_and!; [done..|congruence].
    + rewrite decide_True by done.
      assert (∀ w'', hal_calls w'' = hal_calls w3 -> Some (r3, w'') = Some (ret, w') ->
                ∃ cs, hal_calls w' = hal_calls w ++ cs
                  ∧ set_mode_calls cs `prefix_of` [enable rate; disable (mPrevRefreshRate w)]
                  ∧ (ret = NO_ERROR -> mPrevRefreshRate w ≠ rate ->
                     set_mode_calls cs = [enable rate; disable (mPrevRefreshRate w)]
                     ∧ mPrevRefreshRate w' = rate
                     ∧ mPendingPrevRefreshRate w' = mPendingPrevRefreshRate w)) as Hany.
      { intros w'' Hw'' [= <- <-]. rewrite Hw''.
        eexists; split; [apply (Hfull w3 Hprev Hc3)|].
        rewrite (proj2 (Hfull w3 Hprev Hc3)). split; [done|]. by intros ?. }
      case_decide; apply Hany; done.
    + rewrite !decide_True by done. intros [= <- <-]. cbn.
      exists (cs1 ++ [SetMode (refreshRateHintStr rate) true]).
      rewrite Hc3, Hc2, Hc1, set_mode_calls_app, Hs1, <-(assoc_L (++)). cbn.
      split_and!; [done| |done]. by apply prefix_cons, prefix_nil.
  - intros [= <- <-]. exists (cs1 ++ [SetMode (refreshRateHintStr rate) true]).
    cbn. rewrite Hc2, Hc1, set_mode_calls_app, Hs1, <-(assoc_L (++)). cbn.
    split_and!; [done|done|]. intros _ _. split_and!; [done..|congruence].
Qed.

Lemma updateRefreshRateHintInternal_calls v rate w ret w' :
  refreshRateOf v = Some rate ->
  updateRefreshRateHintInternal HWC2.On v w = Some (ret, w') ->
  ∃ cs, hal_calls w' = hal_calls w ++ cs
    ∧ set_mode_calls cs `prefix_of`
        switch_sequence (mPendingPrevRefreshRate w) (mPrevRefreshRate w) rate
    ∧ (ret = NO_ERROR -> mPrevRefreshRate w ≠ rate ->
         set_mode_calls cs =
           switch_sequence (mPendingPrevRefreshRate w) (mPrevRefreshRate w) rate
         ∧ mPrevRefreshRate w' = rate
         ∧ mPendingPrevRefreshRate w' = 0).
Proof.
  intros Hrate. unfold updateRefreshRateHintInternal, switch_sequence.
  case_decide as Hpend.
  - destruct (sendRefreshRateHint _ false w) as [r0 w0] eqn:E0.
    apply sendRefreshRateHint_sent in E0.
    case_decide as Hr0.
    + destruct E0 as [_ Hc0 Hp0 Hq0|?|?]; [|done..].
      intros Hsw. apply (updateRefreshRateHint_switch_calls _ _ _ _ _ Hrate) in Hsw
        as (cs & Hcs & Hpre & Hdone).
      cbn in Hcs, Hpre, Hdone. rewrite Hp0 in Hpre, Hdone.
      exists (SetMode (refreshRateHintStr (mPendingPrevRefreshRate w)) false :: cs).
      rewrite Hcs, Hc0, <-(assoc_L (++)).
      change (set_mode_calls (SetMode ?m ?e :: cs)) with ((m, e) :: set_mode_calls cs).
      split_and!; [done|by apply prefix_cons|].
      intros Hret Hne. destruct (Hdone Hret Hne) as (-> & -> & ->). done.
    + intros [= <- <-].
      destruct E0 as [?|_ Hc0 _|_ _ Hc0 _ _]; [done| |].
      * eexists [_]; split; [exact Hc0|]. cbn.
        split; [by apply prefix_cons, prefix_nil|done].
      * exists []. rewrite app_nil_r. split_and!; [done|apply prefix_nil|done].
  - intros Hsw. apply (updateRefreshRateHint_switch_calls _ _ _ _ _ Hrate) in Hsw
      as (cs & Hcs & Hpre & Hdone).
    exists cs. cbn. split_and!; [done..|].
    intros Hret Hne. destruct (Hdone Hret Hne) as (-> & -> & ->).
    split_and!; [done..|]. by destruct (decide (mPendingPrevRefreshRate w = 0)).
Qed.
(** The idle hint: its two requests reach the service under the name
    DISPLAY_IDLE and leave the refresh-rate bookkeeping alone. *)
Lemma checkPowerHalExtHintSupport_calls mode w ret w' :
  checkPowerHalExtHintSupport mode w = (ret, w') ->
  mPrevRefreshRate w' = mPrevRefreshRate w
  ∧ mPendingPrevRefreshRate w' = mPendingPrevRefreshRate w
  ∧ (hal_calls w' = hal_calls w ∨ hal_calls w' = hal_calls w ++ [IsModeSupported mode]).
Proof.
  unfold checkPowerHalExtHintSupport, connectPowerHalExt.
  repeat (case_match || case_decide); intros; simplify_eq/=; auto.
Qed.

Lemma sendPowerHalExtHint_calls mode e w ret w' :
  sendPowerHalExtHint mode e w = (ret, w') ->
  mPrevRefreshRate w' = mPrevRefreshRate w
  ∧ mPendingPrevRefreshRate w' = mPendingPrevRefreshRate w
  ∧ (hal_calls w' = hal_calls w ∨ hal_calls w' = hal_calls w ++ [SetMode mode e]).
Proof.
  unfold sendPowerHalExtHint, connectPowerHalExt.
  repeat (case_match || case_decide); intros; simplify_eq/=; auto.
Qed.

Lemma checkIdleHintSupport_calls w ret w' :
  checkIdleHintSupport w = (ret, w') ->
  mPrevRefreshRate w' = mPrevRefreshRate w
  ∧ mPendingPrevRefreshRate w' = mPendingPrevRefreshRate w
  ∧ (hal_calls w' = hal_calls w
     ∨ hal_calls w' = hal_calls w ++ [IsModeSupported "DISPLAY_IDLE"]).
Proof.
  unfold checkIdleHintSupport. destruct (mIdleHintSupportIsChecked w).
  { intros [= <- <-]. auto. }
  destruct (checkPowerHalExtHintSupport _ w) as [r0 w0] eqn:E0.
  apply checkPowerHalExtHintSupport_calls in E0 as (? & ? & ?).
  repeat case_decide; intros [= <- <-]; auto.
Qed.

Lemma updateIdleHint_calls now deadlineTime w ret w' :
  updateIdleHint now deadlineTime w = (ret, w') ->
  mPrevRefreshRate w' = mPrevRefreshRate w
  ∧ mPendingPrevRefreshRate w' = mPendingPrevRefreshRate w
  ∧ ∃ idle, hal_calls w' = hal_calls w ++ idle
      ∧ Forall (λ c, c = IsModeSupported "DISPLAY_IDLE" ∨ ∃ e, c = SetMode "DISPLAY_IDLE" e)
          idle.
Proof.
  unfold updateIdleHint.
  destruct (checkIdleHintSupport w) as [r0 w0] eqn:E0.
  apply checkIdleHintSupport_calls in E0 as (Hp0 & Hq0 & Hc0).
  assert (∃ idle, hal_calls w0 = hal_calls w ++ idle
            ∧ Forall (λ c, c = IsModeSupported "DISPLAY_IDLE"
                           ∨ ∃ e, c = SetMode "DISPLAY_IDLE" e) idle) as (idle0 & Hi0 & Hf0).
  { destruct Hc0 as [->| ->]; [exists []; by rewrite app_nil_r|].
    eexists; split; [done|]. apply Forall_singleton. by left. }
  destruct (decide (r0 ≠ NO_ERROR)); [intros [= <- <-]; split_and!; eauto|].
  destruct (decide (mIdleHintIsEnabled w0 ≠ _)); [|intros [= <- <-]; split_and!; eauto].
  destruct (sendPowerHalExtHint _ _ w0) as [r1 w1] eqn:E1.
  apply sendPowerHalExtHint_calls in E1 as (Hp1 & Hq1 & Hc1).
  assert (∃ idle, hal_calls w1 = hal_calls w ++ idle
            ∧ Forall (λ c, c = IsModeSupported "DISPLAY_IDLE"
                           ∨ ∃ e, c = SetMode "DISPLAY_IDLE" e) idle) as (idle1 & Hi1 & Hf1).
  { destruct Hc1 as [->| ->]; [by exists idle0|].
    exists (idle0 ++ [SetMode "DISPLAY_IDLE" (bool_decide (deadlineTime < now)%N)]).
    rewrite Hi0, <-(assoc_L (++)). split; [done|].
    apply Forall_app. split; [done|]. apply Forall_singleton. right. by eexists. }
  destruct (decide (r1 = NO_ERROR)); intros [= <- <-]; cbn; split_and!;
    try congruence; eauto.
Qed.

Lemma take_signals_calls sgs w :
  mPrevRefreshRate (take_signals sgs w) = mPrevRefreshRate w
  ∧ mPendingPrevRefreshRate (take_signals sgs w) = mPendingPrevRefreshRate w
  ∧ hal_calls (take_signals sgs w) = hal_calls w.
Proof.
  revert w. induction sgs as [|sg sgs IH]; intros w; [done|].
  unfold take_signals in *. cbn [foldl]. destruct (IH (take_signal sg w)) as (-> & -> & ->).
  destruct sg; cbn; [done|]. unfold signalIdle. by case_match.
Qed.

(** What [Routine] does when it finds the flag for a new refresh rate set:
    without waiting, it updates the idle hint and then hands the signalled
    power mode and period to [updateRefreshRateHintInternal]. *)
Lemma Routine_update env w w' :
  mNeedUpdateRefreshRateHint w = true ->
  Routine env w = Some w' ->
  ∃ idle w0 ret w1,
    hal_calls w0 = hal_calls w ++ idle
    ∧ Forall (λ c, c = IsModeSupported "DISPLAY_IDLE" ∨ ∃ e, c = SetMode "DISPLAY_IDLE" e) idle
    ∧ mPrevRefreshRate w0 = mPrevRefreshRate w
    ∧ mPendingPrevRefreshRate w0 = mPendingPrevRefreshRate w
    ∧ updateRefreshRateHintInternal (mPowerModeState w) (mVsyncPeriod w) w0 = Some (ret, w1)
    ∧ hal_calls w' = hal_calls w1
    ∧ mPrevRefreshRate w' = mPrevRefreshRate w1
    ∧ mPendingPrevRefreshRate w' = mPendingPrevRefreshRate w1.
Proof.
  intros Hneed. unfold Routine. rewrite Hneed. cbn [negb].
  rewrite decide_False by done. cbv zeta.
  destruct (updateIdleHint _ _ _) as [r0 w0] eqn:E0.
  apply updateIdleHint_calls in E0 as (Hp0 & Hq0 & idle & Hi0 & Hf0).
  destruct (take_signals_calls (updateSignals env) (set_need false w)) as (Hps & Hqs & Hcs).
  rewrite Hps in Hp0. rewrite Hqs in Hq0. rewrite Hcs in Hi0. cbn in Hp0, Hq0, Hi0.
  rewrite Hneed.
  destruct (updateRefreshRateHintInternal _ _ w0) as [[rc w1]|] eqn:E1; [|done].
  intros Hw'. exists idle, w0, rc, w1.
  destruct (take_signals_calls (retrySignals env) w1) as (Hpr & Hqr & Hcr).
  split_and!; [done..| | |];
    repeat case_decide; simplify_eq/=; done.
Qed.

End Worker.

(** C6.  One round of the worker with the display on issues its [setMode]
    requests for refresh-rate hints in this order: the disabling of a hint
    left pending by an earlier round, the enabling of the new rate's hint,
    the disabling of the previous rate's hint.  Whatever the service
    answers, the requests issued are a prefix of that sequence, and a round
    that returns [NO_ERROR] after a change of rate has issued all of it.
    [Routine], when it finds a refresh-rate signal, first updates the idle
    hint, which reaches the service as DISPLAY_IDLE, and then runs such a
    round for the power mode and the period that were signalled.  The
    vsync periods 16666666, 11111111 and 16666666 ns are the rates 60, 90
    and 60.  When each of the three signals is taken up by a call of
    [Routine], at any times, a worker fresh from its constructor issues
    enable(60), enable(90), disable(60), enable(60), disable(90): these are
    its requests for refresh-rate hints at a service that supports every
    hint, and all its [setMode] requests at one that does not support the
    idle hint. *)
Theorem refresh_rate_hint_ordering :
  (∀ (hal : PowerHalExt) (vsyncPeriod : N) (refreshRate : Z)
     (w w' : PowerHalHintWorker) (ret : Z),
      refreshRateOf vsyncPeriod = Some refreshRate ->
      updateRefreshRateHintInternal HWC2.On vsyncPeriod w = Some (ret, w') ->
      ∃ cs, hal_calls w' = hal_calls w ++ cs
        ∧ set_mode_calls cs `prefix_of`
            switch_sequence (mPendingPrevRefreshRate w) (mPrevRefreshRate w) refreshRate
        ∧ (ret = NO_ERROR -> mPrevRefreshRate w ≠ refreshRate ->
             set_mode_calls cs =
               switch_sequence (mPendingPrevRefreshRate w) (mPrevRefreshRate w) refreshRate))
  ∧ (∀ (hal : PowerHalExt) (env : RoutineEnv) (w w' : PowerHalHintWorker),
      mNeedUpdateRefreshRateHint w = true ->
      Routine env w = Some w' ->
      ∃ idle w0 ret w1,
        hal_calls w0 = hal_calls w ++ idle
        ∧ Forall (λ c, c = IsModeSupported "DISPLAY_IDLE"
                       ∨ ∃ e, c = SetMode "DISPLAY_IDLE" e) idle
        ∧ mPrevRefreshRate w0 = mPrevRefreshRate w
        ∧ mPendingPrevRefreshRate w0 = mPendingPrevRefreshRate w
        ∧ updateRefreshRateHintInternal (mPowerModeState w) (mVsyncPeriod w) w0
          = Some (ret, w1)
        ∧ hal_calls w' = hal_calls w1
        ∧ mPrevRefreshRate w' = mPrevRefreshRate w1
        ∧ mPendingPrevRefreshRate w' = mPendingPrevRefreshRate w1)
  ∧ refreshRateOf <$> [16666666; 11111111; 16666666]%N = [Some 60; Some 90; Some 60]
  ∧ (∀ t1 t2 t3 : N,
      (λ w, refresh_rate_requests (hal_calls w))
        <$> run (hal := healthy_hal) (rates_60_90_60 t1 t2 t3) PowerHalHintWorker_init
      = Some [enable 60; enable 90; disable 60; enable 60; disable 90])
  ∧ (∀ t1 t2 t3 : N,
      (λ w, set_mode_calls (hal_calls w))
        <$> run (hal := busy_hal) (rates_60_90_60 t1 t2 t3) PowerHalHintWorker_init
      = Some [enable 60; enable 90; disable 60; enable 60; disable 90]).
Proof.
  split_and!.
  - intros hal v rate w w' ret Hrate Hrun.
    destruct (updateRefreshRateHintInternal_calls v rate w ret w' Hrate Hrun)
      as (cs & ? & ? & Hdone).
    exists cs. split_and!; [done..|]. intros ? ?. by apply Hdone.
  - intros hal env w w'. apply Routine_update.
  - by vm_compute.
  - intros [|t1] [|t2] [|t3]; vm_compute; reflexivity.
  - intros [|t1] [|t2] [|t3]; vm_compute; reflexivity.
Qed.

(** A switch from 60 to 90 while the hint for 120 is still pending. *)
Lemma refresh_rate_hint_ordering_witness :
  ∃ w' cs,
    updateRefreshRateHintInternal (hal := healthy_hal) HWC2.On 11111111%N (worker_at 60 120)
    = Some (NO_ERROR, w')
    ∧ hal_calls w' = hal_calls (worker_at 60 120) ++ cs
    ∧ set_mode_calls cs = [disable 120; enable 90; disable 60].
Proof.
  destruct refresh_rate_hint_ordering as [Hgen _].
  pose (w' := default (worker_at 60 120)
                (snd <$> updateRefreshRateHintInternal (hal := healthy_hal) HWC2.On
                           11111111%N (worker_at 60 120))).
  assert (updateRefreshRateHintInternal (hal := healthy_hal) HWC2.On 11111111%N
            (worker_at 60 120) = Some (NO_ERROR, w')) as Hrun by (vm_compute; reflexivity).
  destruct (Hgen healthy_hal 11111111%N 90 (worker_at 60 120) w' NO_ERROR)
    as (cs & Hcs & _ & Hdone); [vm_compute; reflexivity|exact Hrun|].
  exists w', cs. split_and!; [exact Hrun|exact Hcs|].
  rewrite Hdone; [vm_compute; reflexivity|reflexivity|vm_compute; discriminate].
Defined.
End PowerHintProperties.

(** ** The session *)

(** Unfolds the monad of the embedding. *)
Ltac unfold_monad :=
  unfold Session.when, Session.emit, Session.put_display, Session.clear_display,
    Session.assign, Session.modify, Session.gets, Session.get, Session.terminate,
    Session.block, mbind, Session.M_bind, mret, Session.M_ret in *.

(** *** Frame conditions

    What a call leaves alone.  [f] is an observation of the session; each
    hypothesis says that [f] does not look at one field.  A lemma about a
    function uses the hypotheses for the fields that the function writes. *)

Section Frames.

Import Session.

Context {limits : HWCCallbacksLimits} {engine : DisplayEngine}.

Lemma bind_returned {A B} (m : M A) (f : A -> M B) s b s' :
  (m ≫= f) s = Returned b s' <-> ∃ a s1, m s = Returned a s1 ∧ f a s1 = Returned b s'.
Proof.
  unfold mbind, M_bind. split.
  - destruct (m s) as [a s1| |]; [eauto|done..].
  - by intros (a & s1 & -> & ?).
Qed.

Lemma preserved_ret {A X} (f : HWCSession -> X) (a : A) : preserved f (mret a).
Proof. by intros s. Qed.

Lemma preserved_bind {A B X} (f : HWCSession -> X) (m : M A) (k : A -> M B) :
  preserved f m -> (∀ a, preserved f (k a)) -> preserved f (m ≫= k).
Proof.
  intros Hm Hk s. unfold mbind, M_bind. specialize (Hm s).
  destruct (m s) as [a s'| |]; cbn in *; [by rewrite Hk|done..].
Qed.

Lemma preserved_modify {X} (f : HWCSession -> X) (g : HWCSession -> HWCSession) :
  (∀ s, f (g s) = f s) -> preserved f (modify g).
Proof. intros Hg s. apply Hg. Qed.

Lemma preserved_read {A X} (f : HWCSession -> X) (m : M A) :
  (∀ s, final (m s) = s) -> preserved f m.
Proof. intros Hm s. by rewrite Hm. Qed.

Lemma preserved_returned {A X} (f : HWCSession -> X) (m : M A) s a s' :
  preserved f m -> m s = Returned a s' -> f s' = f s.
Proof. intros Hm Hs. specialize (Hm s). by rewrite Hs in Hm. Qed.

Lemma returns_ret {A} (a : A) : returns (mret a).
Proof. intros s. by eexists _, _. Qed.

Lemma returns_bind {A B} (m : M A) (k : A -> M B) :
  returns m -> (∀ a, returns (k a)) -> returns (m ≫= k).
Proof.
  intros Hm Hk s. destruct (Hm s) as (a & s1 & H1). destruct (Hk a s1) as (b & s2 & H2).
  exists b, s2. apply bind_returned. eauto.
Qed.

Lemma returns_modify g : returns (modify g).
Proof. intros s. by eexists _, _. Qed.

Lemma returns_get : returns get.
Proof. intros s. by eexists _, _. Qed.

(** The arbiter always returns, and it touches the session through
    [ActivateDisplay] alone. *)
Ltac returns_step :=
  first
    [ apply returns_ret | apply returns_get | apply returns_modify
    | apply returns_bind; [|intros ?]
    | progress cbv zeta
    | match goal with |- returns (match ?x with _ => _ end) => destruct x end ].

Lemma ActivateDisplay_returns disp enable : returns (ActivateDisplay disp enable).
Proof. apply returns_modify. Qed.

Lemma NonBuiltinConcurrency_returns disp b : returns (NonBuiltinConcurrency disp b).
Proof.
  pose proof ActivateDisplay_returns. unfold NonBuiltinConcurrency, when.
  repeat first [done | returns_step].
Qed.

Lemma HandleConcurrency_returns disp : returns (HandleConcurrency disp).
Proof.
  pose proof ActivateDisplay_returns. pose proof NonBuiltinConcurrency_returns.
  unfold HandleConcurrency, when. repeat first [done | returns_step].
Qed.

Section Arbiter.

Context {X : Type} (f : HWCSession -> X).

Hypothesis f_ActivateDisplay : ∀ disp enable, preserved f (ActivateDisplay disp enable).

Ltac arbiter_step :=
  first
    [ solve [auto 1 using preserved_ret]
    | apply preserved_bind; [|intros ?]
    | apply preserved_read; intros ?; reflexivity
    | progress cbv zeta
    | match goal with |- preserved _ (match ?x with _ => _ end) => destruct x end ].

Lemma preserved_NonBuiltinConcurrency_by disp b : preserved f (NonBuiltinConcurrency disp b).
Proof. unfold NonBuiltinConcurrency, when, get. repeat arbiter_step. Qed.

Lemma preserved_HandleConcurrency_by disp : preserved f (HandleConcurrency disp).
Proof.
  pose proof preserved_NonBuiltinConcurrency_by.
  unfold HandleConcurrency, when, get. repeat arbiter_step.
Qed.

End Arbiter.

Context {X : Type} (f : HWCSession -> X).

Hypothesis f_hwc_display : ∀ v s, f (set_hwc_display_ v s) = f s.
Hypothesis f_callbacks : ∀ v s, f (set_callbacks_ v s) = f s.
Hypothesis f_events : ∀ v s, f (set_events_ v s) = f s.
Hypothesis f_is_hdr : ∀ v s, f (set_is_hdr_display_ v s) = f s.
Hypothesis f_pending_refresh : ∀ v s, f (set_pending_refresh_ v s) = f s.
Hypothesis f_locker : ∀ v s, f (set_locker_ v s) = f s.
Hypothesis f_core_intf : ∀ v s, f (set_core_intf_ v s) = f s.
Hypothesis f_color_mgr : ∀ v s, f (set_color_mgr_ v s) = f s.
Hypothesis f_reset_panel : ∀ v s, f (set_reset_panel_ v s) = f s.
Hypothesis f_primary_ready : ∀ v s, f (set_primary_ready_ v s) = f s.
Hypothesis f_client_connected : ∀ v s, f (set_client_connected_ v s) = f s.
Hypothesis f_need_invalidate : ∀ v s, f (set_need_invalidate_ v s) = f s.
Hypothesis f_pluggable_is_primary : ∀ v s, f (set_pluggable_is_primary_ v s) = f s.
Hypothesis f_null_display_active : ∀ v s, f (set_null_display_active_ v s) = f s.
Hypothesis f_hpd : ∀ b p s, f (set_hpd_ b p s) = f s.
Hypothesis f_assign : ∀ r g,
  (∀ m, client_id (g m) = client_id m) -> preserved f (assign r g).

(** One step of a frame proof: the head of the computation is split off,
    a case distinction is followed, or a field update is discharged by the
    hypothesis for its field. *)
Create HintDb frame discriminated.

Ltac frame_step :=
  first
    [ solve [auto 1 with frame nocore]
    | apply preserved_ret
    | apply preserved_bind; [|intros ?]
    | apply preserved_read; intros ?; reflexivity
    | apply f_assign; intros ?; reflexivity
    | apply preserved_modify; intros ?;
      repeat case_match;
      rewrite ?f_hwc_display, ?f_callbacks, ?f_events, ?f_is_hdr, ?f_pending_refresh,
        ?f_core_intf, ?f_color_mgr, ?f_reset_panel, ?f_primary_ready, ?f_client_connected,
        ?f_need_invalidate, ?f_pluggable_is_primary, ?f_null_display_active, ?f_hpd;
      reflexivity
    | progress cbv zeta
    | match goal with
      | |- preserved _ (match ?x with _ => _ end) => destruct x
      | |- preserved _ (let '(_, _) := ?x in _) => destruct x
      end ].

Ltac frame := unfold when, emit, put_display, clear_display, gets, get; repeat frame_step.

Lemma preserved_terminate {A} t : preserved f (terminate (A := A) t).
Proof. by intros s. Qed.

Lemma preserved_block {A} : preserved f (block (A := A)).
Proof. by intros s. Qed.

Lemma preserved_deref display : preserved f (deref display).
Proof. intros s. unfold deref. by destruct (_ !! _). Qed.

Lemma preserved_core : preserved f core.
Proof. intros s. unfold core. by destruct (core_intf_ s). Qed.

Lemma preserved_load r : preserved f (load r).
Proof. intros s. unfold load. by destruct (lookup_ref r s). Qed.

#[local] Hint Resolve preserved_terminate preserved_block preserved_deref preserved_core
  preserved_load : frame.

Lemma preserved_Refresh display : preserved f (Refresh display).
Proof. unfold Refresh. frame. Qed.

Lemma preserved_HotPlug display state : preserved f (HotPlug display state).
Proof. unfold HotPlug. frame. Qed.

Lemma preserved_notify_hotplug display state : preserved f (notify_hotplug display state).
Proof. unfold notify_hotplug. frame. Qed.

#[local] Hint Resolve preserved_Refresh preserved_HotPlug preserved_notify_hotplug : frame.

Lemma preserved_HandlePendingRefresh : preserved f HandlePendingRefresh.
Proof. unfold HandlePendingRefresh. frame. Qed.

Lemma preserved_ActivateDisplay disp enable : preserved f (ActivateDisplay disp enable).
Proof. unfold ActivateDisplay. frame. Qed.

#[local] Hint Resolve preserved_HandlePendingRefresh preserved_ActivateDisplay : frame.

Lemma preserved_NonBuiltinConcurrency disp b : preserved f (NonBuiltinConcurrency disp b).
Proof. unfold NonBuiltinConcurrency. frame. Qed.

#[local] Hint Resolve preserved_NonBuiltinConcurrency : frame.

Lemma preserved_HandleConcurrency disp : preserved f (HandleConcurrency disp).
Proof. unfold HandleConcurrency. frame. Qed.

#[local] Hint Resolve preserved_HandleConcurrency : frame.

Lemma preserved_settle_delay : preserved f settle_delay.
Proof. unfold settle_delay. frame. Qed.

Lemma preserved_set_hdr client_id b : preserved f (set_hdr client_id b).
Proof. unfold set_hdr. frame. Qed.

Lemma preserved_destroy_object kind client_id : preserved f (destroy_object kind client_id).
Proof. unfold destroy_object. frame. Qed.

Lemma preserved_DestroyCore : preserved f DestroyCore.
Proof. unfold DestroyCore. frame. Qed.

Lemma preserved_reset_primary_validation : preserved f reset_primary_validation.
Proof. unfold reset_primary_validation. frame. Qed.

#[local] Hint Resolve preserved_settle_delay preserved_set_hdr preserved_destroy_object
  preserved_DestroyCore preserved_reset_primary_validation : frame.

Lemma preserved_DestroyPluggableDisplay r : preserved f (DestroyPluggableDisplay r).
Proof. unfold DestroyPluggableDisplay. frame. Qed.

Lemma preserved_DestroyNonPluggableDisplay r : preserved f (DestroyNonPluggableDisplay r).
Proof. unfold DestroyNonPluggableDisplay. frame. Qed.

#[local] Hint Resolve preserved_DestroyPluggableDisplay preserved_DestroyNonPluggableDisplay
  : frame.

Lemma preserved_DestroyDisplay r : preserved f (DestroyDisplay r).
Proof. unfold DestroyDisplay. frame. Qed.

#[local] Hint Resolve preserved_DestroyDisplay : frame.

Lemma preserved_disconnect_pluggables infos slots :
  preserved f (disconnect_pluggables infos slots).
Proof. induction slots as [|i slots IH]; cbn [disconnect_pluggables]; frame. Qed.

#[local] Hint Resolve preserved_disconnect_pluggables : frame.

Lemma preserved_HandleDisconnectedDisplays infos :
  preserved f (HandleDisconnectedDisplays infos).
Proof. unfold HandleDisconnectedDisplays. frame. Qed.

Lemma preserved_connect_pluggable info slots : preserved f (connect_pluggable info slots).
Proof. induction slots as [|i slots IH]; cbn [connect_pluggable]; frame. Qed.

#[local] Hint Resolve preserved_HandleDisconnectedDisplays preserved_connect_pluggable : frame.

Lemma preserved_connect_displays infos pending :
  preserved f (connect_displays infos pending).
Proof.
  revert pending. induction infos as [|info infos IH]; intros pending;
    cbn [connect_displays]; frame.
Qed.

Lemma preserved_notify_connected pending : preserved f (notify_connected pending).
Proof. induction pending as [|c pending IH]; cbn [notify_connected]; frame. Qed.

#[local] Hint Resolve preserved_connect_displays preserved_notify_connected : frame.

Lemma preserved_HandleConnectedDisplays infos delay :
  preserved f (HandleConnectedDisplays infos delay).
Proof. unfold HandleConnectedDisplays. frame. Qed.

#[local] Hint Resolve preserved_HandleConnectedDisplays : frame.

Lemma preserved_CreatePluggableDisplays delay : preserved f (CreatePluggableDisplays delay).
Proof. unfold CreatePluggableDisplays. frame. Qed.

#[local] Hint Resolve preserved_CreatePluggableDisplays : frame.

Lemma preserved_create_primary info color_mgr : preserved f (create_primary info color_mgr).
Proof. unfold create_primary. frame. Qed.

#[local] Hint Resolve preserved_create_primary : frame.

Lemma preserved_CreatePrimaryDisplay color_mgr : preserved f (CreatePrimaryDisplay color_mgr).
Proof. unfold CreatePrimaryDisplay. frame. Qed.

Lemma preserved_map_builtins infos client_id : preserved f (map_builtins infos client_id).
Proof.
  revert client_id. induction infos as [|info infos IH]; intros client_id;
    cbn [map_builtins]; frame.
Qed.

#[local] Hint Resolve preserved_map_builtins : frame.

Lemma preserved_HandleBuiltInDisplays : preserved f HandleBuiltInDisplays.
Proof. unfold HandleBuiltInDisplays. frame. Qed.

Lemma preserved_notify_all_connected disps : preserved f (notify_all_connected disps).
Proof. induction disps as [|d disps IH]; cbn [notify_all_connected]; frame. Qed.

#[local] Hint Resolve preserved_HandleBuiltInDisplays preserved_notify_all_connected : frame.

Lemma preserved_RegisterCallback device descriptor pointer :
  preserved f (RegisterCallback device descriptor pointer).
Proof. unfold RegisterCallback. frame. Qed.

Lemma preserved_ResetPanel : preserved f ResetPanel.
Proof. unfold ResetPanel. frame. Qed.

#[local] Hint Resolve preserved_ResetPanel : frame.

Lemma preserved_ValidateDisplayInternal display : preserved f (ValidateDisplayInternal display).
Proof. unfold ValidateDisplayInternal. frame. Qed.

#[local] Hint Resolve preserved_ValidateDisplayInternal : frame.

Lemma preserved_PresentDisplayInternal display : preserved f (PresentDisplayInternal display).
Proof. unfold PresentDisplayInternal. frame. Qed.

#[local] Hint Resolve preserved_PresentDisplayInternal : frame.

Lemma preserved_CallDisplayFunction device display member :
  preserved f (CallDisplayFunction device display member).
Proof. unfold CallDisplayFunction. frame. Qed.

Lemma preserved_CallLayerFunction device display layer member :
  preserved f (CallLayerFunction device display layer member).
Proof. unfold CallLayerFunction. frame. Qed.

Lemma preserved_updateRefreshRateHint : preserved f updateRefreshRateHint.
Proof. unfold updateRefreshRateHint. frame. Qed.

#[local] Hint Resolve preserved_CallDisplayFunction preserved_updateRefreshRateHint : frame.

Lemma preserved_SetPowerMode device display int_mode :
  preserved f (SetPowerMode device display int_mode).
Proof. unfold SetPowerMode. frame. Qed.

Lemma preserved_UEventHandler_hotplug bpp pattern :
  preserved f (UEventHandler_hotplug bpp pattern).
Proof. unfold UEventHandler_hotplug. frame. Qed.

(** Calls that take a sequence lock leave alone what does not look at the
    locks. *)
Lemma preserved_scope_lock op display : preserved f (scope_lock op display).
Proof. intros s. unfold scope_lock. case_match; [done|]. cbn. apply f_locker. Qed.

#[local] Hint Resolve preserved_scope_lock : frame.

Lemma preserved_ValidateDisplay device display : preserved f (ValidateDisplay device display).
Proof. unfold ValidateDisplay. frame. Qed.

Lemma preserved_PresentDisplay device display fence :
  preserved f (PresentDisplay device display fence).
Proof. unfold PresentDisplay, signalIdle. frame. Qed.

Lemma preserved_create_virtual info slots : preserved f (create_virtual info slots).
Proof. induction slots as [|i slots IH]; cbn [create_virtual]; frame. Qed.

#[local] Hint Resolve preserved_create_virtual : frame.

Lemma preserved_create_virtuals infos out : preserved f (create_virtuals infos out).
Proof.
  revert out. induction infos as [|info infos IH]; intros out; cbn [create_virtuals]; frame.
Qed.

#[local] Hint Resolve preserved_create_virtuals : frame.

Lemma preserved_CreateVirtualDisplayObj out : preserved f (CreateVirtualDisplayObj out).
Proof. unfold CreateVirtualDisplayObj. frame. Qed.

#[local] Hint Resolve preserved_CreateVirtualDisplayObj : frame.

Lemma preserved_CreateVirtualDisplay device args_ok out :
  preserved f (CreateVirtualDisplay device args_ok out).
Proof. unfold CreateVirtualDisplay. frame. Qed.

Lemma preserved_destroy_virtual display slots : preserved f (destroy_virtual display slots).
Proof. induction slots as [|i slots IH]; cbn [destroy_virtual]; frame. Qed.

#[local] Hint Resolve preserved_destroy_virtual : frame.

Lemma preserved_DestroyVirtualDisplay device display :
  preserved f (DestroyVirtualDisplay device display).
Proof. unfold DestroyVirtualDisplay. frame. Qed.

#[local] Hint Resolve preserved_RegisterCallback preserved_ValidateDisplay
  preserved_PresentDisplay preserved_SetPowerMode preserved_CallLayerFunction
  preserved_CreateVirtualDisplay preserved_DestroyVirtualDisplay
  preserved_UEventHandler_hotplug : frame.

Lemma preserved_perform op : preserved f (perform op).
Proof. destruct op; cbn [perform]; frame. Qed.

End Frames.

(** *** What the client is told

    No call of the hotplug and present paths takes back what was delivered
    to the client, and none registers or unregisters a callback. *)

Section Tells.

Import Session.

Context {limits : HWCCallbacksLimits} {engine : DisplayEngine}.

Lemma told_more_refl s : told_more s s.
Proof. by split_and!. Qed.

Lemma told_more_trans s1 s2 s3 : told_more s1 s2 -> told_more s2 s3 -> told_more s1 s3.
Proof.
  intros (Hh1 & Hr1 & Hd1) (Hh2 & Hr2 & Hd2). split_and!; [congruence..|].
  by etrans.
Qed.

Lemma told_more_callbacks s s' : callbacks_ s' = callbacks_ s -> told_more s s'.
Proof. intros H. unfold told_more. rewrite H. by split_and!. Qed.

Lemma tells_ret {A} (a : A) : tells (mret a).
Proof. intros s. apply told_more_refl. Qed.

Lemma tells_bind {A B} (m : M A) (k : A -> M B) :
  tells m -> (∀ a, tells (k a)) -> tells (m ≫= k).
Proof.
  intros Hm Hk s. unfold mbind, M_bind. specialize (Hm s).
  destruct (m s) as [a s'| |]; cbn in *; [|done..].
  eapply told_more_trans; [exact Hm|apply Hk].
Qed.

Lemma tells_preserved {A} (m : M A) : preserved callbacks_ m -> tells m.
Proof. intros Hm s. apply told_more_callbacks, Hm. Qed.

Lemma tells_modify (g : HWCSession -> HWCSession) :
  (∀ s, callbacks_ (g s) = callbacks_ s) -> tells (modify g).
Proof. intros Hg. by apply tells_preserved, preserved_modify. Qed.

Lemma tells_read {A} (m : M A) : (∀ s, final (m s) = s) -> tells m.
Proof. intros Hm. by apply tells_preserved, preserved_read. Qed.

Lemma tells_terminate {A} t : tells (terminate (A := A) t).
Proof. intros s. apply told_more_refl. Qed.

Lemma tells_block {A} : tells (block (A := A)).
Proof. intros s. apply told_more_refl. Qed.

Lemma tells_deref display : tells (deref display).
Proof. by apply tells_preserved, preserved_deref. Qed.

Lemma tells_core : tells core.
Proof. by apply tells_preserved, preserved_core. Qed.

Lemma tells_load r : tells (load r).
Proof. by apply tells_preserved, preserved_load. Qed.

Lemma callbacks_assign r g : preserved callbacks_ (assign r g).
Proof. intros s. by destruct r. Qed.

Lemma tells_assign r g : tells (assign r g).
Proof. apply tells_preserved, callbacks_assign. Qed.

Lemma tells_scope_lock op display : tells (scope_lock op display).
Proof. by apply tells_preserved, preserved_scope_lock. Qed.

Lemma tells_Refresh display : tells (Refresh display).
Proof.
  intros s. unfold Refresh, callbacks_Refresh. unfold_monad. cbn.
  destruct (on_refresh_ (callbacks_ s)) eqn:Hreg; cbn; [|apply told_more_refl].
  split_and!; [done..|]. cbn. by apply prefix_app_r.
Qed.

Lemma tells_HotPlug display state : tells (HotPlug display state).
Proof.
  intros s. unfold HotPlug, callbacks_Hotplug. unfold_monad. cbn.
  destruct (on_hotplug_ (callbacks_ s)) eqn:Hreg; cbn; [|apply told_more_refl].
  split_and!; [done..|]. cbn. by apply prefix_app_r.
Qed.

Lemma tells_notify_hotplug display state : tells (notify_hotplug display state).
Proof.
  intros s. unfold notify_hotplug, callbacks_Hotplug. unfold_monad. cbn.
  destruct (on_hotplug_ (callbacks_ s)) eqn:Hreg; cbn; [|by apply told_more_callbacks].
  split_and!; [done..|]. cbn. by apply prefix_app_r.
Qed.

Lemma tells_HandleConcurrency disp : tells (HandleConcurrency disp).
Proof. by apply tells_preserved, preserved_HandleConcurrency. Qed.

Create HintDb tells discriminated.

#[local] Hint Resolve tells_terminate tells_block tells_deref tells_core tells_load
  tells_assign tells_scope_lock tells_Refresh tells_HotPlug tells_notify_hotplug
  tells_HandleConcurrency : tells.

Ltac tells_step :=
  first
    [ solve [auto 1 with tells nocore]
    | apply tells_ret
    | apply tells_bind; [|intros ?]
    | apply tells_read; intros ?; reflexivity
    | apply tells_modify; intros ?; repeat case_match; reflexivity
    | progress cbv zeta
    | match goal with
      | |- tells (match ?x with _ => _ end) => destruct x
      | |- tells (let '(_, _) := ?x in _) => destruct x
      end ].

Ltac tells := unfold when, emit, put_display, clear_display, gets, get; repeat tells_step.

Lemma tells_settle_delay : tells settle_delay.
Proof. unfold settle_delay. tells. Qed.

Lemma tells_set_hdr client_id b : tells (set_hdr client_id b).
Proof. unfold set_hdr. tells. Qed.

Lemma tells_destroy_object kind client_id : tells (destroy_object kind client_id).
Proof. unfold destroy_object. tells. Qed.

Lemma tells_DestroyCore : tells DestroyCore.
Proof. unfold DestroyCore. tells. Qed.

Lemma tells_reset_primary_validation : tells reset_primary_validation.
Proof. unfold reset_primary_validation. tells. Qed.

#[local] Hint Resolve tells_settle_delay tells_set_hdr tells_destroy_object tells_DestroyCore
  tells_reset_primary_validation : tells.

Lemma tells_DestroyPluggableDisplay r : tells (DestroyPluggableDisplay r).
Proof. unfold DestroyPluggableDisplay. tells. Qed.

Lemma tells_DestroyNonPluggableDisplay r : tells (DestroyNonPluggableDisplay r).
Proof. unfold DestroyNonPluggableDisplay. tells. Qed.

#[local] Hint Resolve tells_DestroyPluggableDisplay tells_DestroyNonPluggableDisplay : tells.

Lemma tells_DestroyDisplay r : tells (DestroyDisplay r).
Proof. unfold DestroyDisplay. tells. Qed.

#[local] Hint Resolve tells_DestroyDisplay : tells.

Lemma tells_disconnect_pluggables infos slots : tells (disconnect_pluggables infos slots).
Proof. induction slots as [|i slots IH]; cbn [disconnect_pluggables]; tells. Qed.

#[local] Hint Resolve tells_disconnect_pluggables : tells.

Lemma tells_HandleDisconnectedDisplays infos : tells (HandleDisconnectedDisplays infos).
Proof. unfold HandleDisconnectedDisplays. tells. Qed.

Lemma tells_connect_pluggable info slots : tells (connect_pluggable info slots).
Proof. induction slots as [|i slots IH]; cbn [connect_pluggable]; tells. Qed.

#[local] Hint Resolve tells_HandleDisconnectedDisplays tells_connect_pluggable : tells.

Lemma tells_connect_displays infos pending : tells (connect_displays infos pending).
Proof.
  revert pending. induction infos as [|info infos IH]; intros pending;
    cbn [connect_displays]; tells.
Qed.

Lemma tells_notify_connected pending : tells (notify_connected pending).
Proof. induction pending as [|c pending IH]; cbn [notify_connected]; tells. Qed.

#[local] Hint Resolve tells_connect_displays tells_notify_connected : tells.

Lemma tells_HandleConnectedDisplays infos delay : tells (HandleConnectedDisplays infos delay).
Proof. unfold HandleConnectedDisplays. tells. Qed.

#[local] Hint Resolve tells_HandleConnectedDisplays : tells.

Lemma tells_CreatePluggableDisplays delay : tells (CreatePluggableDisplays delay).
Proof. unfold CreatePluggableDisplays. tells. Qed.

Lemma tells_ResetPanel : tells ResetPanel.
Proof. unfold ResetPanel. tells. Qed.

#[local] Hint Resolve tells_CreatePluggableDisplays tells_ResetPanel : tells.

Lemma tells_ValidateDisplayInternal display : tells (ValidateDisplayInternal display).
Proof. unfold ValidateDisplayInternal. tells. Qed.

#[local] Hint Resolve tells_ValidateDisplayInternal : tells.

Lemma tells_PresentDisplayInternal display : tells (PresentDisplayInternal display).
Proof. unfold PresentDisplayInternal. tells. Qed.

Lemma tells_returned {A} (m : M A) s a s' : tells m -> m s = Returned a s' -> told_more s s'.
Proof. intros Hm Hs. specialize (Hm s). by rewrite Hs in Hm. Qed.

(** The validation of a frame tells the client nothing, unless it is the
    primary display's and the session owes the client an invalidation. *)
Lemma ValidateDisplayInternal_quiet display s :
  display ≠ HWC_DISPLAY_PRIMARY ∨ need_invalidate_ s = false ->
  callbacks_ (final (ValidateDisplayInternal display s)) = callbacks_ s
  ∧ need_invalidate_ (final (ValidateDisplayInternal display s)) = need_invalidate_ s.
Proof.
  intros Hq. unfold ValidateDisplayInternal, ResetPanel, Refresh, deref, when.
  unfold_monad.
  destruct (hwc_display_ s !! display) as [d|] eqn:Hd; [|done]. cbn.
  destruct (IsInternalValidateState d); [done|].
  destruct (bool_decide (display = HWC_DISPLAY_PRIMARY)) eqn:Hp; cbn.
  2:{ rewrite Hd. cbn. by destruct (Validate d). }
  apply bool_decide_eq_true in Hp as ->. destruct Hq as [?|Hq]; [done|].
  repeat (case_match; simplify_eq/=; try done); congruence.
Qed.

Lemma PresentDisplayInternal_quiet display s :
  display ≠ HWC_DISPLAY_PRIMARY ∨ need_invalidate_ s = false ->
  callbacks_ (final (PresentDisplayInternal display s)) = callbacks_ s.
Proof.
  intros Hq. unfold PresentDisplayInternal. unfold mbind at 1. unfold M_bind.
  unfold deref at 1.
  destruct (hwc_display_ s !! display) as [d|] eqn:Hd; [|done].
  unfold mbind at 1. unfold M_bind.
  destruct (IsSkipValidateState d && negb (CanSkipValidate d)).
  - unfold mbind at 1. unfold M_bind.
    destruct (ValidateDisplayInternal_quiet display s Hq) as [Hcb _].
    destruct (ValidateDisplayInternal display s) as [[error out] s1| |]; cbn in Hcb; [|done..].
    rewrite <-Hcb. clear Hcb.
    unfold deref, put_display. unfold_monad.
    repeat (case_match; simplify_eq/=; try done).
  - unfold deref, put_display. unfold_monad. cbn. rewrite Hd.
    repeat (case_match; simplify_eq/=; try done).
Qed.

End Tells.

Section SessionProperties.

Import Session.

Context {limits : HWCCallbacksLimits} {engine : DisplayEngine}.

#[local] Arguments ValidateDisplayInternal : simpl never.
#[local] Arguments PresentDisplayInternal : simpl never.
#[local] Arguments HandleConcurrency : simpl never.
#[local] Arguments NonBuiltinConcurrency : simpl never.
#[local] Arguments HandlePendingRefresh : simpl never.
#[local] Arguments CreatePluggableDisplays : simpl never.
#[local] Arguments HandleConnectedDisplays : simpl never.
#[local] Arguments HandleDisconnectedDisplays : simpl never.
#[local] Arguments DestroyDisplay : simpl never.
#[local] Arguments Refresh : simpl never.
#[local] Arguments ResetPanel : simpl never.
#[local] Arguments settle_delay : simpl never.

(** *** Pending refresh *)

Lemma nonzero_has_bit (bits : N) (k : N) :
  bits ≠ 0%N -> (bits < 2 ^ k)%N -> ∃ i, (i < k)%N ∧ N.testbit bits i = true.
Proof.
  intros Hnz Hlt. exists (N.log2 bits). split.
  - apply N.log2_lt_pow2; lia.
  - apply N.bit_log2. done.
Qed.

Lemma first_pending_Some bits i :
  first_pending bits = Some i <->
  (i < kNumDisplays)%N ∧ N.testbit bits i = true
  ∧ ∀ j, (j < i)%N -> N.testbit bits j = false.
Proof.
  unfold first_pending. split.
  - destruct (list_find _ _) as [[n x]|] eqn:Hf; [|done]. intros [= <-]. cbn.
    apply list_find_Some in Hf as (Hn & Hx & Hmin).
    apply list_lookup_fmap_Some in Hn as (n' & -> & Hn').
    apply lookup_seq in Hn' as [-> Hlt]. cbn in *.
    split_and!; [lia|done|].
    intros j Hj. destruct (N.testbit bits j) eqn:Hbit; [|done].
    destruct (Hmin (N.to_nat j) j); [|lia|done].
    rewrite list_lookup_fmap, lookup_seq_lt by lia. cbn. by rewrite N2Nat.id.
  - intros (Hlt & Hbit & Hmin).
    assert (list_find (λ i, N.testbit bits i = true)
              (N.of_nat <$> seq 0 (N.to_nat kNumDisplays)) = Some (N.to_nat i, i)) as ->; [|done].
    apply list_find_Some. split_and!.
    + rewrite list_lookup_fmap, lookup_seq_lt by lia. cbn. by rewrite N2Nat.id.
    + done.
    + intros j y Hy Hj. apply list_lookup_fmap_Some in Hy as (n' & -> & Hn').
      apply lookup_seq in Hn' as [-> _]. cbn. rewrite Hmin by lia. done.
Qed.

Lemma HandlePendingRefresh_clears s s' :
  HandlePendingRefresh s = Returned () s' -> pending_refresh_ s' = 0%N.
Proof.
  unfold HandlePendingRefresh, Refresh, callbacks_Refresh. unfold_monad.
  repeat case_match; intros; simplify_eq/=; done.
Qed.

(** What one call of [HandlePendingRefresh] does when a bit is set. *)
Lemma HandlePendingRefresh_serves s :
  pending_refresh_ s ≠ 0%N ->
  (pending_refresh_ s < 2 ^ kNumDisplays)%N ->
  on_refresh_ (callbacks_ s) = true ->
  ∃ i s',
    HandlePendingRefresh s = Returned () s'
    ∧ N.testbit (pending_refresh_ s) i = true
    ∧ (∀ j, (j < i)%N -> N.testbit (pending_refresh_ s) j = false)
    ∧ delivered_ (callbacks_ s') = delivered_ (callbacks_ s) ++ [CbRefresh i]
    ∧ hwc_display_ s' = hwc_display_ s
    ∧ events_ s' = events_ s
    ∧ N.testbit (pending_refresh_ s') i = false
    ∧ pending_refresh_ s' = 0%N.
Proof.
  intros Hnz Hlt Hreg.
  destruct (nonzero_has_bit _ _ Hnz Hlt) as (k & Hk & Hbit).
  assert (∃ i, first_pending (pending_refresh_ s) = Some i) as [i Hi].
  { unfold first_pending.
    destruct (list_find _ _) as [[n x]|] eqn:Hf; [by eexists|].
    eapply (list_find_None) in Hf. rewrite Forall_forall in Hf.
    destruct (Hf k); [|done].
    apply list_elem_of_fmap. exists (N.to_nat k).
    split; [by rewrite N2Nat.id|]. apply elem_of_seq. lia. }
  pose proof Hi as (_ & Hset & Hlow)%first_pending_Some.
  unfold HandlePendingRefresh, Refresh, callbacks_Refresh. unfold_monad. cbn beta.
  rewrite decide_False by done. cbn in *. rewrite Hi. cbn. rewrite Hreg. cbn.
  eexists i, _. split; [reflexivity|]. cbn. split_and!; try done.
Qed.

(** The calls of [PresentDisplay] before [HandlePendingRefresh] leave the
    pending bits, the flag [primary_ready_] and the owed invalidation to
    the calls that are named here. *)
Ltac keeps :=
  unfold when, emit, put_display, signalIdle;
  repeat first
    [ apply preserved_ret
    | apply preserved_scope_lock; intros; reflexivity
    | apply preserved_PresentDisplayInternal; intros; reflexivity
    | apply preserved_CreatePluggableDisplays;
      first [intros; reflexivity | intros slot ? _ ?; by destruct slot]
    | apply preserved_bind; [|intros ?]
    | apply preserved_read; intros ?; reflexivity
    | apply preserved_modify; intros ?; reflexivity
    | progress cbv zeta
    | match goal with
      | |- preserved _ (match ?x with _ => _ end) => case x; intros
      | |- preserved _ (let '(_, _) := ?x in _) => case x; intros
      end ].

Lemma tells_ResetRefresh display :
  tells (modify (λ s, set_callbacks_ (ResetRefresh display (callbacks_ s)) s)).
Proof. intros s. by split_and!. Qed.

Ltac tells_present :=
  unfold when, emit, put_display, signalIdle;
  repeat first
    [ apply tells_ret
    | apply tells_scope_lock
    | apply tells_PresentDisplayInternal
    | apply tells_CreatePluggableDisplays
    | apply tells_ResetRefresh
    | apply tells_bind; [|intros ?]
    | apply tells_read; intros ?; reflexivity
    | apply tells_modify; intros ?; reflexivity
    | progress cbv zeta
    | match goal with
      | |- tells (match ?x with _ => _ end) => case x; intros
      | |- tells (let '(_, _) := ?x in _) => case x; intros
      end ].

(** [PresentDisplay], past its parameter checks, up to the call of
    [HandlePendingRefresh]: the pending bits are as on entry, the client
    has the same callbacks registered and has been told [earlier], which
    is nothing unless this is the first frame of the primary display
    (which starts the scan for pluggable displays) or the primary display
    is validated while the session owes the client an invalidation. *)
Lemma PresentDisplay_before_pending display s r s' :
  (display < kNumDisplays)%N ->
  PresentDisplay true display true s = Returned r s' ->
  ∃ s4 earlier,
    HandlePendingRefresh s4 = Returned () s'
    ∧ pending_refresh_ s4 = pending_refresh_ s
    ∧ on_refresh_ (callbacks_ s4) = on_refresh_ (callbacks_ s)
    ∧ delivered_ (callbacks_ s4) = delivered_ (callbacks_ s) ++ earlier
    ∧ (display ≠ HWC_DISPLAY_PRIMARY
       ∨ primary_ready_ s = true ∧ need_invalidate_ s = false -> earlier = []).
Proof.
  intros Hlt. unfold PresentDisplay. rewrite decide_False by lia. cbn [negb].
  intros H.
  apply bind_returned in H as (? & s1 & Hexit & H).
  apply bind_returned in H as (? & ? & [= <- <-] & H).
  apply bind_returned in H as ([st o] & s2 & Hmid & H).
  apply bind_returned in H as (? & s3 & Hcancel & H).
  apply bind_returned in H as (? & ? & [= <- <-] & H).
  apply bind_returned in H as (? & s4 & Hready & H).
  apply bind_returned in H as ([] & s5 & Hpending & [= <- <-]).
  assert (told_more s s4) as (_ & Hreg & earlier & Hearlier).
  { eapply told_more_trans; [eapply tells_returned; [|exact Hexit]; tells_present|].
    eapply told_more_trans; [eapply tells_returned; [|exact Hmid]; tells_present|].
    eapply told_more_trans; [eapply tells_returned; [|exact Hcancel]; tells_present|].
    eapply tells_returned; [|exact Hready]. tells_present. }
  assert (pending_refresh_ s4 = pending_refresh_ s) as Hbits.
  { transitivity (pending_refresh_ s3).
    { eapply preserved_returned; [|exact Hready]. keeps. }
    transitivity (pending_refresh_ s2); [eapply preserved_returned; [|exact Hcancel]; keeps|].
    transitivity (pending_refresh_ s1); [eapply preserved_returned; [|exact Hmid]; keeps|].
    eapply preserved_returned; [|exact Hexit]. keeps. }
  exists s4, earlier. split_and!; [done..|].
  intros Hquiet.
  assert (primary_ready_ s3 = primary_ready_ s) as Hprimary.
  { transitivity (primary_ready_ s2); [eapply preserved_returned; [|exact Hcancel]; keeps|].
    transitivity (primary_ready_ s1); [eapply preserved_returned; [|exact Hmid]; keeps|].
    eapply preserved_returned; [|exact Hexit]. keeps. }
  assert (s4 = s3) as ->.
  { destruct Hquiet as [Hne|[Hr _]].
    - rewrite (bool_decide_eq_false_2 _ Hne), andb_false_r in Hready.
      change (Returned () s3 = Returned x1 s4) in Hready. congruence.
    - rewrite Hprimary, Hr in Hready.
      change (Returned () s3 = Returned x1 s4) in Hready. congruence. }
  assert (callbacks_ s3 = callbacks_ s2) as Hcb3.
  { eapply preserved_returned; [|exact Hcancel]. keeps. }
  assert (callbacks_ s1 = callbacks_ s ∧ need_invalidate_ s1 = need_invalidate_ s)
    as [Hcb1 Hinv1].
  { split; (eapply preserved_returned; [|exact Hexit]); keeps. }
  assert (delivered_ (callbacks_ s2) = delivered_ (callbacks_ s1)) as Hcb2.
  { destruct (hwc_display_ s1 !! display) as [d|];
      [|unfold mret, M_ret in Hmid; congruence].
    apply bind_returned in Hmid as (? & sa & Hwhen & Hmid).
    apply bind_returned in Hmid as (r0 & sb & HP & Hmid).
    apply bind_returned in Hmid as (? & sc & Hidle & [= _ <-]).
    assert (delivered_ (callbacks_ sa) = delivered_ (callbacks_ s1)
            ∧ need_invalidate_ sa = need_invalidate_ s1) as [Hda Hia].
    { destruct (NeedsRefresh display (callbacks_ s1));
        unfold when, put_display, modify, mbind, M_bind, mret, M_ret in Hwhen;
        injection Hwhen; intros; subst sa; by split. }
    assert (callbacks_ sb = callbacks_ sa) as Hdb.
    { pose proof (PresentDisplayInternal_quiet display sa) as Hq. rewrite HP in Hq.
      apply Hq. destruct Hquiet as [?|[_ ?]]; [by left|right; congruence]. }
    unfold signalIdle, emit, modify in Hidle. injection Hidle; intros; subst sc.
    change (delivered_ (callbacks_ sb) = delivered_ (callbacks_ s1)). by rewrite Hdb. }
  rewrite Hcb3, Hcb2, Hcb1 in Hearlier.
  apply (inj (app (delivered_ (callbacks_ s)))). by rewrite app_nil_r.
Qed.

(** C5.  When pending-refresh bits are set (and the client has registered
    its refresh callback), [HandlePendingRefresh] serves exactly one display:
    the lowest set bit.  It serves it by one refresh request to the client
    and by nothing else (no display object and no other collaborator is
    touched), and afterwards the served display's bit, like every other bit,
    is clear.  [HandlePendingRefresh] is the last step of [PresentDisplay]:
    a [PresentDisplay] that went down the present path and returns has,
    as the last thing, sent the client the refresh request for the lowest
    bit that was set when it was called, and has cleared the bits.  What
    the call told the client before that ([earlier]) is nothing, unless
    this is the first frame of the primary display or the primary display
    was validated while the session owed the client an invalidation. *)
Theorem pending_refresh_serves_lowest_bit (s : HWCSession) :
  pending_refresh_ s ≠ 0%N ->
  (pending_refresh_ s < 2 ^ kNumDisplays)%N ->
  on_refresh_ (callbacks_ s) = true ->
  (∃ i s',
     HandlePendingRefresh s = Returned () s'
     ∧ N.testbit (pending_refresh_ s) i = true
     ∧ (∀ j, (j < i)%N -> N.testbit (pending_refresh_ s) j = false)
     ∧ delivered_ (callbacks_ s') = delivered_ (callbacks_ s) ++ [CbRefresh i]
     ∧ hwc_display_ s' = hwc_display_ s
     ∧ events_ s' = events_ s
     ∧ N.testbit (pending_refresh_ s') i = false
     ∧ pending_refresh_ s' = 0%N)
  ∧ (∀ display r s1,
       (display < kNumDisplays)%N ->
       PresentDisplay true display true s = Returned r s1 ->
       ∃ i earlier,
         N.testbit (pending_refresh_ s) i = true
         ∧ (∀ j, (j < i)%N -> N.testbit (pending_refresh_ s) j = false)
         ∧ delivered_ (callbacks_ s1)
           = delivered_ (callbacks_ s) ++ earlier ++ [CbRefresh i]
         ∧ (display ≠ HWC_DISPLAY_PRIMARY
            ∨ primary_ready_ s = true ∧ need_invalidate_ s = false -> earlier = [])
         ∧ pending_refresh_ s1 = 0%N).
Proof.
  intros Hnz Hlt Hreg.
  split; [by apply HandlePendingRefresh_serves|].
  intros display r s1 Hd Hrun.
  destruct (PresentDisplay_before_pending display s r s1 Hd Hrun)
    as (s4 & earlier & Hlast & Hbits & Hreg4 & Hearlier & Hquiet).
  destruct (HandlePendingRefresh_serves s4) as (i & s' & Hrun' & Hset & Hlow & Hdel & _ & _ & _ & Hclr);
    [by rewrite Hbits..|congruence|].
  assert (s' = s1) as -> by congruence.
  exists i, earlier. rewrite Hbits in Hset, Hlow.
  split_and!; [done..| |done|done].
  by rewrite Hdel, Hearlier, <-(assoc_L (++)).
Qed.

(** *** Layer functions *)

(** C10.  [CallLayerFunction] on an occupied display with an existing layer
    runs the member function on the layer and, when the display then reports
    geometry changes, resets the display's validation: the display is left
    unvalidated, so an engine that skips validation only for a validated
    display cannot take the skip-validate fast path for it.  For an
    unoccupied slot the call returns [BadDisplay], for an unknown layer
    [BadLayer]; in both cases nothing changes and the member function is not
    invoked. *)
Theorem CallLayerFunction_resets_validation :
  (∀ s display layer (member : HWCLayer -> HWCLayer * HWC2.Error) d l,
      (display < kNumDisplays)%N ->
      hwc_display_ s !! display = Some d ->
      GetHWCLayer d layer = Some l ->
      let d' := put_layer layer (member l).1 d in
      ∃ s' d_after,
        CallLayerFunction true display layer member s = Returned (member l).2 s'
        ∧ hwc_display_ s' !! display = Some d_after
        ∧ events_ s' = events_ s ++ [EvLayerMember display layer]
        ∧ (GetGeometryChanges d' = 0%N -> d_after = d')
        ∧ (GetGeometryChanges d' ≠ 0%N ->
             d_after = ResetValidation d'
             ∧ validated_ d_after = false
             ∧ ((∀ x, validated_ x = false -> CanSkipValidate x = false) ->
                  CanSkipValidate d_after = false)))
  ∧ (∀ s display layer member,
        (display < kNumDisplays)%N ->
        hwc_display_ s !! display = None ->
        CallLayerFunction true display layer member s = Returned HWC2.BadDisplay s)
  ∧ (∀ s display layer member d,
        (display < kNumDisplays)%N ->
        hwc_display_ s !! display = Some d ->
        GetHWCLayer d layer = None ->
        CallLayerFunction true display layer member s = Returned HWC2.BadLayer s).
Proof.
  split_and!.
  - intros s display layer member d l Hd Hs Hl d'.
    unfold CallLayerFunction. rewrite decide_False by lia. unfold_monad. cbn.
    rewrite Hs, Hl. destruct (member l) as [l' status] eqn:Hm. cbn in d'. cbn.
    eexists _, _. split; [reflexivity|]. cbn. rewrite lookup_insert_eq.
    split; [reflexivity|]. fold d'. split; [done|].
    split; intros Hg.
    + by rewrite decide_False by (by intros ?).
    + rewrite decide_True by done. split_and!; [done..|]. intros Hskip. by apply Hskip.
  - intros s display layer member Hd Hs.
    unfold CallLayerFunction. rewrite decide_False by lia. unfold_monad. cbn.
    by rewrite Hs.
  - intros s display layer member d Hd Hs Hl.
    unfold CallLayerFunction. rewrite decide_False by lia. unfold_monad. cbn.
    by rewrite Hs, Hl.
Qed.

(** *** Validation *)

Lemma ValidateDisplayInternal_cached s display d :
  hwc_display_ s !! display = Some d ->
  IsInternalValidateState d = true ->
  ValidateDisplayInternal display s = Returned (GetValidateDisplayOutput d) s.
Proof.
  intros Hs Hi. unfold ValidateDisplayInternal, deref. unfold_monad.
  by rewrite Hs, Hi.
Qed.

Lemma ValidateDisplayInternal_delegates s display d :
  display ≠ HWC_DISPLAY_PRIMARY ->
  hwc_display_ s !! display = Some d ->
  IsInternalValidateState d = false ->
  ValidateDisplayInternal display s =
    Returned (Validate d).2
      (set_hwc_display_ (<[display := (Validate d).1]> (hwc_display_ s))
         (set_events_ (events_ s ++ [EvValidate display]) s)).
Proof.
  intros Hp Hs Hi. unfold ValidateDisplayInternal, deref. unfold_monad.
  rewrite Hs, Hi, bool_decide_eq_false_2 by done. cbn. rewrite Hs.
  by destruct (Validate d) as [d' out].
Qed.

Lemma ValidateDisplay_cached s display d :
  (display < kNumDisplays)%N ->
  hwc_display_ s !! display = Some d ->
  IsInternalValidateState d = true ->
  ∃ s1, ValidateDisplay true display s =
          Returned ((GetValidateDisplayOutput d).1, Some (GetValidateDisplayOutput d).2) s1
    ∧ hwc_display_ s1 = hwc_display_ s ∧ events_ s1 = events_ s.
Proof.
  intros Hd Hs Hi. unfold ValidateDisplay, scope_lock. rewrite decide_False by lia.
  unfold_monad. cbn. rewrite Hs.
  rewrite (ValidateDisplayInternal_cached _ _ d); [|done..].
  destruct (GetValidateDisplayOutput d) as [status out]. cbn.
  destruct (bool_decide (status ≠ HWC2.None) && bool_decide (status ≠ HWC2.HasChanges));
    cbn; eexists; (split_and!; [reflexivity|..]); done.
Qed.

(** *** Slots *)

Lemma slot_ids_assign r g :
  (∀ m, client_id (g m) = client_id m) -> preserved slot_ids (assign r g).
Proof.
  intros Hg s.
  assert (∀ (i : nat) (l : list DisplayMapInfo),
            client_id <$> alter g i l = client_id <$> l) as Halter.
  { intros i l. rewrite (list_fmap_alter _ _ id) by (apply Forall_forall; intros; apply Hg).
    by apply list_alter_id. }
  destruct r; cbn; unfold slot_ids; cbn; by rewrite ?Hg, ?Halter.
Qed.

Lemma slot_ids_perform op : preserved slot_ids (perform op).
Proof. apply preserved_perform; try done. apply slot_ids_assign. Qed.

Lemma assign_client_ids_consecutive base l :
  client_id <$> (assign_client_ids base l).1
  = (λ i, (base + N.of_nat i)%N) <$> seq 0 (length l).
Proof.
  revert base. induction l as [|m l IH]; intros base; [done|].
  cbn [assign_client_ids]. specialize (IH (base + 1)%N).
  destruct (assign_client_ids (base + 1) l) as [l' b]. cbn in *.
  rewrite IH, N.add_0_r. f_equal. rewrite <-fmap_S_seq, <-list_fmap_compose.
  apply list_fmap_ext. intros _ i _. cbn. lia.
Qed.

Lemma lookup_ref_assign r g s :
  is_slot r = true -> lookup_ref r (final (assign r g s)) = g <$> lookup_ref r s.
Proof. destruct r; cbn; intros; try done; apply list_lookup_alter_eq. Qed.

Lemma occupied_ActivateDisplay c disp enable :
  preserved (λ s, bool_decide (is_Some (hwc_display_ s !! c))) (ActivateDisplay disp enable).
Proof.
  intros s. unfold ActivateDisplay, modify. cbn.
  destruct (hwc_display_ s !! disp) as [d|] eqn:Hd; [|done]. cbn.
  apply bool_decide_ext. rewrite lookup_insert. case_decide; subst; [|done].
  rewrite Hd. split; eauto.
Qed.

Lemma DestroyNonPluggableDisplay_resets r s m d :
  is_slot r = true ->
  lookup_ref r s = Some m ->
  hwc_display_ s !! client_id m = Some d ->
  ∃ s', DestroyNonPluggableDisplay r s = Returned () s'
    ∧ hwc_display_ s' !! client_id m = None
    ∧ lookup_ref r s' = Some (Reset m).
Proof.
  intros Hr Hm Hd. unfold DestroyNonPluggableDisplay, load, set_hdr, destroy_object.
  unfold_monad. rewrite Hm. cbn. rewrite Hd. cbn.
  eexists. split; [reflexivity|]. split.
  - destruct r; cbn; by rewrite lookup_delete_eq.
  - destruct r; cbn in *; try done.
    + by simplify_eq.
    + by rewrite list_lookup_alter_eq, Hm.
    + by rewrite list_lookup_alter_eq, Hm.
    + by rewrite list_lookup_alter_eq, Hm.
Qed.

Lemma DestroyPluggableDisplay_resets r s m d :
  is_slot r = true ->
  lookup_ref r s = Some m ->
  hwc_display_ s !! client_id m = Some d ->
  pluggable_is_primary_ s = false ->
  on_refresh_ (callbacks_ s) = true ->
  ∃ s', DestroyPluggableDisplay r s = Returned () s'
    ∧ hwc_display_ s' !! client_id m = None
    ∧ lookup_ref r s' = Some (Reset m).
Proof.
  intros Hr Hm Hd Hp Hreg.
  assert (∀ c, preserved (lookup_ref r) (HandleConcurrency c)) as Hkeep.
  { intros c. apply preserved_HandleConcurrency. by destruct r. }
  destruct r as [|i|i|i|?]; [..|done].
  all: unfold DestroyPluggableDisplay, load, notify_hotplug, Refresh, settle_delay, set_hdr,
    destroy_object, callbacks_Refresh, callbacks_Hotplug, GetVsyncPeriod.
  all: unfold_monad; rewrite Hm; cbn; rewrite Hp; cbn.
  all: destruct (on_hotplug_ (callbacks_ s)); cbn; rewrite Hreg; cbn;
    rewrite decide_True by done; cbn; rewrite Hd, Hp; cbn.
  all: match goal with |- context [HandleConcurrency ?c ?s1] =>
         destruct (HandleConcurrency_returns c s1) as ([] & s' & Hhc);
         pose proof (preserved_returned _ _ _ _ _
                       (preserved_HandleConcurrency_by _ (occupied_ActivateDisplay c) c) Hhc)
           as Hocc;
         pose proof (preserved_returned _ _ _ _ _ (Hkeep c) Hhc) as Href;
         rewrite Hhc; exists s'
       end.
  all: cbn in Hocc, Href; rewrite lookup_delete_eq in Hocc.
  all: split; [reflexivity|]; split;
    [ destruct (hwc_display_ s' !! client_id m); [|done];
      rewrite bool_decide_eq_true_2 in Hocc by eauto;
      rewrite bool_decide_eq_false_2 in Hocc; [done|by intros [? ?]]
    | ].
  all: cbn in Hm |- *; rewrite Href; try (by simplify_eq).
  all: by rewrite list_lookup_alter_eq, Hm.
Qed.

(** With a pluggable primary display, [DestroyPluggableDisplay] switches
    the primary display off and destroys nothing. *)
Lemma DestroyPluggableDisplay_primary_kept r s m d dp :
  lookup_ref r s = Some m ->
  hwc_display_ s !! client_id m = Some d ->
  hwc_display_ s !! HWC_DISPLAY_PRIMARY = Some dp ->
  pluggable_is_primary_ s = true ->
  on_refresh_ (callbacks_ s) = true ->
  ∃ s', DestroyPluggableDisplay r s = Returned () s'
    ∧ is_Some (hwc_display_ s' !! client_id m)
    ∧ lookup_ref r s' = Some m.
Proof.
  intros Hm Hd Hdp Hp Hreg.
  unfold DestroyPluggableDisplay, load, Refresh, settle_delay, callbacks_Refresh,
    GetVsyncPeriod, deref.
  unfold_monad. rewrite Hm. cbn. rewrite Hp. cbn. rewrite Hreg. cbn.
  rewrite decide_True by done. cbn. rewrite Hd, Hp. cbn. rewrite Hdp. cbn.
  eexists. split; [reflexivity|]. cbn. split.
  - destruct (decide (client_id m = HWC_DISPLAY_PRIMARY)) as [->|Hne].
    + rewrite lookup_insert_eq. eauto.
    + rewrite lookup_insert_ne by done. eauto.
  - by destruct r.
Qed.

(** C9.  [Reset] puts [sdm_id], [disp_type] and [test_pattern] back to
    their defaults and keeps [client_id].  [DestroyDisplay] on an occupied
    slot destroys the display object and resets the slot in this way (for a
    pluggable display: when the primary display is not pluggable, and with
    the client's refresh callback in place; with a pluggable primary
    display that display is switched off instead, nothing is destroyed and
    the slot stays as it is).  Initialisation numbers the slots of a table
    consecutively, and no operation of the running session changes the
    client id of any slot afterwards. *)
Theorem slot_reset_keeps_client_id :
  (∀ m, Reset m = mkDisplayMapInfo (client_id m) (-1) kDisplayTypeMax false)
  ∧ (∀ r s m d,
        is_slot r = true ->
        lookup_ref r s = Some m ->
        hwc_display_ s !! client_id m = Some d ->
        (disp_type m = kPluggable ->
           pluggable_is_primary_ s = false ∧ on_refresh_ (callbacks_ s) = true) ->
        ∃ s' m',
          DestroyDisplay r s = Returned () s'
          ∧ hwc_display_ s' !! client_id m = None
          ∧ lookup_ref r s' = Some m'
          ∧ client_id m' = client_id m
          ∧ sdm_id m' = -1 ∧ disp_type m' = kDisplayTypeMax ∧ test_pattern m' = false)
  ∧ (∀ r s m d dp,
        lookup_ref r s = Some m ->
        disp_type m = kPluggable ->
        hwc_display_ s !! client_id m = Some d ->
        hwc_display_ s !! HWC_DISPLAY_PRIMARY = Some dp ->
        pluggable_is_primary_ s = true ->
        on_refresh_ (callbacks_ s) = true ->
        ∃ s', DestroyDisplay r s = Returned () s'
          ∧ is_Some (hwc_display_ s' !! client_id m)
          ∧ lookup_ref r s' = Some m)
  ∧ (∀ base l,
        client_id <$> (assign_client_ids base l).1
        = (λ i, (base + N.of_nat i)%N) <$> seq 0 (length l))
  ∧ (∀ op s, slot_ids (final (perform op s)) = slot_ids s).
Proof.
  split_and!.
  - done.
  - intros r s m d Hr Hm Hd Hplug.
    assert (∃ s', DestroyDisplay r s = Returned () s'
              ∧ hwc_display_ s' !! client_id m = None
              ∧ lookup_ref r s' = Some (Reset m)) as (s' & ? & ? & ?).
    { unfold DestroyDisplay, load. unfold mbind, M_bind. rewrite Hm.
      destruct (disp_type m) eqn:Ht.
      2: { destruct Hplug as [? ?]; [done|]. by eapply DestroyPluggableDisplay_resets. }
      all: by eapply DestroyNonPluggableDisplay_resets. }
    exists s', (Reset m). split_and!; done.
  - intros r s m d dp Hm Ht Hd Hdp Hp Hreg.
    unfold DestroyDisplay, load. unfold mbind, M_bind. rewrite Hm, Ht.
    by eapply DestroyPluggableDisplay_primary_kept.
  - apply assign_client_ids_consecutive.
  - apply slot_ids_perform.
Qed.

(** *** The placeholder primary display *)

(** C8.  When the primary display is pluggable and not connected at boot,
    [CreatePrimaryDisplay] puts the dummy display into the primary slot and
    sets [null_display_active_].  A pluggable hotplug scan that runs in that
    state once the primary is ready destroys the dummy object and the core
    and aborts the process.  A failing enumeration of the hardware, on the
    other hand, only ends the scan with an error: [CreatePluggableDisplays]
    returns [-EINVAL] ([CreatePrimaryDisplay]: 1) and changes nothing, and
    the hotplug event handler returns. *)
Theorem placeholder_primary_reconnect_aborts :
  (∀ s c infos info d color_mgr,
      core_intf_ s = Some c ->
      GetDisplaysStatus c = Some infos ->
      find is_primary infos = Some info ->
      is_connected info = false ->
      display_type info = kPluggable ->
      Create HWCDisplayDummy (client_id (map_info_primary_ s)) (display_id info) = Created d ->
      ∃ s', CreatePrimaryDisplay color_mgr s = Returned 0 s'
        ∧ pluggable_is_primary_ s' = true
        ∧ null_display_active_ s' = true
        ∧ hwc_display_ s' !! HWC_DISPLAY_PRIMARY = Some d)
  ∧ (∀ s delay_hotplug,
        primary_ready_ s = true ->
        null_display_active_ s = true ->
        ∃ s', CreatePluggableDisplays delay_hotplug s = Terminated CalledAbort s'
          ∧ events_ s' = events_ s ++ [EvDestroy HWCDisplayDummy HWC_DISPLAY_PRIMARY;
                                       EvDestroyCore])
  ∧ (∀ s c delay_hotplug,
        primary_ready_ s = true ->
        null_display_active_ s = false ->
        core_intf_ s = Some c ->
        GetDisplaysStatus c = None ->
        CreatePluggableDisplays delay_hotplug s = Returned (- EINVAL) s
        ∧ ∀ bpp pattern,
            UEventHandler_hotplug bpp pattern s = Returned () (set_hpd_ bpp pattern s))
  ∧ (∀ s c color_mgr,
        core_intf_ s = Some c ->
        GetDisplaysStatus c = None ->
        CreatePrimaryDisplay color_mgr s = Returned 1 s).
Proof.
  split_and!.
  - intros s c infos info d color_mgr Hc Hinfos Hfind Hconn Htype Hcreate.
    unfold CreatePrimaryDisplay, core, create_primary, set_hdr. unfold_monad.
    rewrite Hc. cbn. rewrite Hinfos, Hfind. cbn. rewrite Hconn, Htype. cbn.
    rewrite Hcreate. cbn. eexists. split; [reflexivity|]. cbn.
    split_and!; [done..|]. by rewrite lookup_insert_eq.
  - intros s delay Hready Hnull.
    unfold CreatePluggableDisplays, DestroyCore. unfold_monad. rewrite Hready, Hnull. cbn.
    eexists. split; [reflexivity|]. cbn. by rewrite <-(assoc_L (++)).
  - intros s c delay Hready Hnull Hc Hinfos.
    assert (∀ s0 b, primary_ready_ s0 = true -> null_display_active_ s0 = false ->
              core_intf_ s0 = Some c ->
              Session.CreatePluggableDisplays b s0 = Returned (- EINVAL) s0) as Hscan.
    { intros s0 b H1 H2 H3. unfold Session.CreatePluggableDisplays, core. unfold_monad.
      rewrite H1, H2. cbn. by rewrite H3, Hinfos. }
    split; [by apply Hscan|].
    intros bpp pattern. unfold UEventHandler_hotplug. unfold_monad.
    by rewrite Hscan.
  - intros s c color_mgr Hc Hinfos.
    unfold CreatePrimaryDisplay, core. unfold_monad. by rewrite Hc, Hinfos.
Qed.

(** *** The validate / present pipeline *)

Lemma sequence_pending_snoc ops op :
  sequence_pending (ops ++ [op]) = bool_decide (op = SEQUENCE_ENTRY_SCOPE_LOCK).
Proof. unfold sequence_pending. rewrite last_snoc. by destruct op. Qed.

Lemma sequence_pending_cancelled ops op :
  sequence_pending (ops ++ [op; SEQUENCE_CANCEL_SCOPE_LOCK]) = false.
Proof.
  change (ops ++ [op; SEQUENCE_CANCEL_SCOPE_LOCK])
    with (ops ++ [op] ++ [SEQUENCE_CANCEL_SCOPE_LOCK]).
  by rewrite (assoc_L (++)), sequence_pending_snoc.
Qed.

Lemma lock_ops_scope_lock op display s :
  waits op = false ->
  ∃ s', scope_lock op display s = Returned () s'
    ∧ lock_ops display s' = lock_ops display s ++ [op]
    ∧ hwc_display_ s' = hwc_display_ s
    ∧ callbacks_ s' = callbacks_ s
    ∧ events_ s' = events_ s
    ∧ primary_ready_ s' = primary_ready_ s
    ∧ pending_refresh_ s' = pending_refresh_ s.
Proof.
  intros Hw. unfold scope_lock. rewrite Hw. cbn. eexists. split; [reflexivity|].
  unfold lock_ops. cbn. by rewrite lookup_insert_eq.
Qed.

Lemma HandlePendingRefresh_returns s :
  on_refresh_ (callbacks_ s) = true ->
  ∃ s', HandlePendingRefresh s = Returned () s'
    ∧ hwc_display_ s' = hwc_display_ s
    ∧ events_ s' = events_ s
    ∧ locker_ s' = locker_ s.
Proof.
  intros Hreg. unfold HandlePendingRefresh, Refresh, callbacks_Refresh. unfold_monad.
  cbn beta. destruct (decide (pending_refresh_ s = 0%N)); [by eexists|].
  destruct (first_pending _); cbn; rewrite ?Hreg; cbn; by eexists.
Qed.

Lemma ValidateDisplayInternal_runs s display d :
  hwc_display_ s !! display = Some d ->
  IsInternalValidateState d = false ->
  on_refresh_ (callbacks_ s) = true ->
  ∃ d0 s',
    ValidateDisplayInternal display s = Returned (Validate d0).2 s'
    ∧ (display ≠ HWC_DISPLAY_PRIMARY -> d0 = d)
    ∧ hwc_display_ s' !! display = Some (Validate d0).1
    ∧ events_ s' = events_ s ++ [EvValidate display]
    ∧ on_refresh_ (callbacks_ s') = true
    ∧ primary_ready_ s' = primary_ready_ s
    ∧ locker_ s' = locker_ s.
Proof.
  intros Hs Hi Hreg. destruct (decide (display = HWC_DISPLAY_PRIMARY)) as [->|Hp].
  - unfold ValidateDisplayInternal, ResetPanel, Refresh, callbacks_Refresh, deref.
    unfold_monad. rewrite Hs, Hi, bool_decide_eq_true_2 by done.
    repeat first
      [ rewrite Hs | rewrite Hreg | rewrite lookup_insert_eq | rewrite decide_True by done
      | progress cbn
      | match goal with
        | |- context [reset_panel_ s] => destruct (reset_panel_ s)
        | |- context [need_invalidate_ s] => destruct (need_invalidate_ s)
        | |- context [color_mgr_ s] => destruct (color_mgr_ s)
        end ].
    all: match goal with |- context [Validate ?x] =>
           exists x; destruct (Validate x) as [dv out] eqn:Hv end.
    all: eexists; split; [reflexivity|]; cbn; rewrite ?lookup_insert_eq; by split_and!.
  - exists d. eexists. split; [by apply ValidateDisplayInternal_delegates|].
    cbn. rewrite lookup_insert_eq. by split_and!.
Qed.

(** [ValidateDisplay] on a display without an internal validation on record
    runs the display's own [Validate], on the object [d0]: the display
    itself, for the primary display after its preparation. *)
Lemma ValidateDisplay_delegates s display d :
  (display < kNumDisplays)%N ->
  hwc_display_ s !! display = Some d ->
  IsInternalValidateState d = false ->
  on_refresh_ (callbacks_ s) = true ->
  ∃ d0 s',
    ValidateDisplay true display s = Returned ((Validate d0).2.1, Some (Validate d0).2.2) s'
    ∧ (display ≠ HWC_DISPLAY_PRIMARY -> d0 = d)
    ∧ hwc_display_ s' !! display = Some (Validate d0).1
    ∧ events_ s' = events_ s ++ [EvValidate display].
Proof.
  intros Hlt Hs Hi Hreg. unfold ValidateDisplay. rewrite decide_False by lia.
  unfold scope_lock. unfold_monad. cbn. rewrite Hs.
  match goal with |- context [ValidateDisplayInternal _ ?x] =>
    destruct (ValidateDisplayInternal_runs x display d)
      as (d0 & s1 & -> & Hd0 & Hs1 & He1 & _); [done..|]
  end.
  exists d0. destruct (Validate d0) as [dv [status out]]. cbn in *.
  destruct (bool_decide (status ≠ HWC2.None) && bool_decide (status ≠ HWC2.HasChanges));
    cbn; eexists; (split; [reflexivity|]); cbn; by split_and!.
Qed.

(** C2, as amended.  On an occupied display on which an internal (implicit)
    validation is on record, [ValidateDisplay] returns the output cached by
    that validation without running the display's own [Validate]; called
    twice in a row it returns that same output both times.  On a display in
    any other state the call runs the display's own [Validate] (for the
    primary display after its preparation) and returns what that returns. *)
Theorem ValidateDisplay_served_from_internal_validation :
  (∀ s display d,
      (display < kNumDisplays)%N ->
      hwc_display_ s !! display = Some d ->
      IsInternalValidateState d = true ->
      let cached := ((GetValidateDisplayOutput d).1, Some (GetValidateDisplayOutput d).2) in
      ∃ s1 s2,
        ValidateDisplay true display s = Returned cached s1
        ∧ ValidateDisplay true display s1 = Returned cached s2
        ∧ hwc_display_ s2 = hwc_display_ s
        ∧ events_ s2 = events_ s)
  ∧ (∀ s display d,
        (display < kNumDisplays)%N ->
        hwc_display_ s !! display = Some d ->
        IsInternalValidateState d = false ->
        on_refresh_ (callbacks_ s) = true ->
        ∃ d0 s',
          ValidateDisplay true display s
          = Returned ((Validate d0).2.1, Some (Validate d0).2.2) s'
          ∧ (display ≠ HWC_DISPLAY_PRIMARY -> d0 = d)
          ∧ hwc_display_ s' !! display = Some (Validate d0).1
          ∧ events_ s' = events_ s ++ [EvValidate display]).
Proof.
  split.
  - intros s display d Hd Hs Hi cached.
    destruct (ValidateDisplay_cached s display d Hd Hs Hi) as (s1 & H1 & Hd1 & He1).
    destruct (ValidateDisplay_cached s1 display d Hd) as (s2 & H2 & Hd2 & He2);
      [by rewrite Hd1|done|].
    exists s1, s2. split_and!; [done..|congruence|congruence].
  - intros s display d. apply ValidateDisplay_delegates.
Qed.

Lemma skip_state_not_internal d :
  IsSkipValidateState d = true -> IsInternalValidateState d = false.
Proof.
  unfold IsSkipValidateState, IsInternalValidateState.
  intros ->%bool_decide_eq_true. done.
Qed.

(** [PresentDisplayInternal] on a display in skip-validate state that may
    not skip validation.  [d0] is the display object as the implicit
    validation finds it. *)
Lemma PresentDisplayInternal_validates s display d :
  hwc_display_ s !! display = Some d ->
  IsSkipValidateState d = true ->
  CanSkipValidate d = false ->
  on_refresh_ (callbacks_ s) = true ->
  ∃ d0 s',
    (display ≠ HWC_DISPLAY_PRIMARY -> d0 = d)
    ∧ let v := Validate d0 in
      let refused := bool_decide (v.2.1 ≠ HWC2.None) || HasClientComposition v.1 in
      PresentDisplayInternal display s =
        Returned (if refused then (HWC2.NotValidated, None)
                  else ((Present v.1).2.1, Some (Present v.1).2.2)) s'
      ∧ hwc_display_ s' !! display =
          Some (if refused then SetValidationState kInternalValidate v.1 else (Present v.1).1)
      ∧ events_ s' = events_ s ++ EvValidate display ::
                       (if refused then [] else [EvPresent display])
      ∧ on_refresh_ (callbacks_ s') = true
      ∧ primary_ready_ s' = primary_ready_ s
      ∧ locker_ s' = locker_ s.
Proof.
  intros Hs Hskip Hcan Hreg.
  destruct (ValidateDisplayInternal_runs s display d Hs (skip_state_not_internal _ Hskip) Hreg)
    as (d0 & s1 & Hv & Hd0 & Hs1 & He1 & Hr1 & Hp1 & Hl1).
  exists d0. unfold PresentDisplayInternal, deref. unfold_monad.
  rewrite Hs, Hskip, Hcan. cbn. rewrite Hv.
  destruct (Validate d0) as [dv [err out]]. cbn in *. rewrite Hs1.
  destruct (bool_decide (err ≠ HWC2.None) || HasClientComposition dv); cbn.
  - eexists. split; [done|]. split; [reflexivity|]. cbn. rewrite lookup_insert_eq.
    by split_and!.
  - rewrite Hs1. destruct (Present dv) as [dp [e fence]]. cbn.
    eexists. split; [done|]. split; [reflexivity|]. cbn. rewrite lookup_insert_eq, He1.
    rewrite <-app_assoc. by split_and!.
Qed.

(** [PresentDisplayInternal] on a display that is not in skip-validate
    state, or that may skip validation, goes to the display's [Present]. *)
Lemma PresentDisplayInternal_presents s display d :
  hwc_display_ s !! display = Some d ->
  IsSkipValidateState d && negb (CanSkipValidate d) = false ->
  ∃ s',
    PresentDisplayInternal display s = Returned ((Present d).2.1, Some (Present d).2.2) s'
    ∧ hwc_display_ s' !! display = Some (Present d).1
    ∧ events_ s' = events_ s ++ [EvPresent display]
    ∧ callbacks_ s' = callbacks_ s
    ∧ primary_ready_ s' = primary_ready_ s
    ∧ locker_ s' = locker_ s.
Proof.
  intros Hs Hfast. unfold PresentDisplayInternal, deref. unfold_monad.
  rewrite Hs, Hfast. cbn. rewrite Hs. destruct (Present d) as [dp [e fence]]. cbn.
  eexists. split; [reflexivity|]. cbn. by rewrite lookup_insert_eq.
Qed.

Lemma PresentDisplayInternal_returns s display d :
  hwc_display_ s !! display = Some d ->
  on_refresh_ (callbacks_ s) = true ->
  ∃ r s', PresentDisplayInternal display s = Returned r s'
    ∧ on_refresh_ (callbacks_ s') = true
    ∧ primary_ready_ s' = primary_ready_ s.
Proof.
  intros Hs Hreg.
  destruct (IsSkipValidateState d && negb (CanSkipValidate d)) eqn:Hfast.
  - apply andb_true_iff in Hfast as [Hskip Hcan%negb_true_iff].
    destruct (PresentDisplayInternal_validates s display d Hs Hskip Hcan Hreg)
      as (d0 & s' & _ & Hp & _ & _ & ? & ? & _).
    by eexists _, s'.
  - destruct (PresentDisplayInternal_presents s display d Hs Hfast)
      as (s' & Hp & _ & _ & Hc & ? & _).
    eexists _, s'. split_and!; [done| |done]. by rewrite Hc.
Qed.


(** [PresentDisplay] around [PresentDisplayInternal]: on an occupied
    display of a session whose primary display is ready, the call arrives at
    [PresentDisplayInternal] in a state [s1], and it completes whatever
    [PresentDisplayInternal] returns there. *)
Lemma PresentDisplay_occupied s display d :
  (display < kNumDisplays)%N ->
  hwc_display_ s !! display = Some d ->
  on_refresh_ (callbacks_ s) = true ->
  primary_ready_ s = true ->
  ∃ s1,
    hwc_display_ s1 !! display =
      Some (if NeedsRefresh display (callbacks_ s) then SetPendingRefresh d else d)
    ∧ events_ s1 = events_ s
    ∧ on_refresh_ (callbacks_ s1) = true
    ∧ lock_ops display s1 = lock_ops display s ++ [SEQUENCE_EXIT_SCOPE_LOCK]
    ∧ ∀ status fence s2,
        PresentDisplayInternal display s1 = Returned (status, fence) s2 ->
        on_refresh_ (callbacks_ s2) = true ->
        primary_ready_ s2 = primary_ready_ s1 ->
        locker_ s2 = locker_ s1 ->
        ∃ s', PresentDisplay true display true s = Returned (status, fence) s'
          ∧ hwc_display_ s' = hwc_display_ s2
          ∧ events_ s' = events_ s2 ++ [EvSignalIdle]
          ∧ lock_ops display s' =
              lock_ops display s ++ SEQUENCE_EXIT_SCOPE_LOCK ::
                (if bool_decide (status ≠ HWC2.None) && bool_decide (status ≠ HWC2.NotValidated)
                 then [SEQUENCE_CANCEL_SCOPE_LOCK] else []).
Proof.
  intros Hlt Hs Hreg Hready.
  unfold PresentDisplay. rewrite decide_False by lia.
  unfold signalIdle, scope_lock. unfold_monad. cbn. rewrite Hs.
  destruct (NeedsRefresh display (callbacks_ s)) eqn:Hn; cbn.
  all: match goal with |- context [PresentDisplayInternal _ ?x] => exists x end.
  all: unfold lock_ops; cbn; rewrite ?lookup_insert_eq; cbn.
  all: split_and!; [done..|].
  all: intros status fence s2 HP Hr2 Hp2 Hl2; rewrite HP; cbn in *.
  all: destruct (bool_decide (status ≠ HWC2.None) && bool_decide (status ≠ HWC2.NotValidated));
    cbn; rewrite Hp2, Hready; cbn.
  all: match goal with |- context [HandlePendingRefresh ?x] =>
         destruct (HandlePendingRefresh_returns x) as (s' & -> & Hd' & He' & Hl'); [done|]
       end.
  all: exists s'; rewrite Hd', He', Hl'; cbn; rewrite Hl2; cbn;
    rewrite ?lookup_insert_eq; cbn; rewrite <-?app_assoc; done.
Qed.

(** [PresentDisplay] on an occupied display in skip-validate state that may
    not skip validation: the implicit validation runs first, on the object
    [d0] (the display as presented; for the primary display, after its
    preparation). *)
Lemma PresentDisplay_validates_first s display d :
  (display < kNumDisplays)%N ->
  hwc_display_ s !! display = Some d ->
  on_refresh_ (callbacks_ s) = true ->
  primary_ready_ s = true ->
  let d1 := if NeedsRefresh display (callbacks_ s) then SetPendingRefresh d else d in
  IsSkipValidateState d1 = true ->
  CanSkipValidate d1 = false ->
  ∃ d0 s',
    (display ≠ HWC_DISPLAY_PRIMARY -> d0 = d1)
    ∧ let v := Validate d0 in
      let refused := bool_decide (v.2.1 ≠ HWC2.None) || HasClientComposition v.1 in
      PresentDisplay true display true s =
        Returned (if refused then (HWC2.NotValidated, None)
                  else ((Present v.1).2.1, Some (Present v.1).2.2)) s'
      ∧ events_ s' = events_ s ++ EvValidate display ::
                       (if refused then [] else [EvPresent display]) ++ [EvSignalIdle]
      ∧ (refused = true ->
           let kept := SetValidationState kInternalValidate v.1 in
           hwc_display_ s' !! display = Some kept
           ∧ lock_ops display s' = lock_ops display s ++ [SEQUENCE_EXIT_SCOPE_LOCK]
           ∧ ∃ s'', ValidateDisplay true display s' =
                      Returned ((GetValidateDisplayOutput kept).1,
                                Some (GetValidateDisplayOutput kept).2) s''
                ∧ hwc_display_ s'' = hwc_display_ s'
                ∧ events_ s'' = events_ s').
Proof.
  intros Hlt Hs Hreg Hready d1 Hskip Hcan.
  destruct (PresentDisplay_occupied s display d Hlt Hs Hreg Hready)
    as (s1 & Hs1 & He1 & Hr1 & Hl1 & Hrest). fold d1 in Hs1.
  destruct (PresentDisplayInternal_validates s1 display d1 Hs1 Hskip Hcan Hr1)
    as (d0 & s2 & Hd0 & HP & Hs2 & He2 & Hr2 & Hp2 & Hk2).
  exists d0. cbn zeta in *.
  destruct (bool_decide ((Validate d0).2.1 ≠ HWC2.None) || HasClientComposition (Validate d0).1)
    eqn:Hrefused.
  - destruct (Hrest _ _ _ HP Hr2 Hp2 Hk2) as (s' & HPD & Hd' & He' & Hl').
    exists s'. split; [done|]. split; [done|]. split.
    { rewrite He', He2, He1. by rewrite <-app_assoc. }
    intros _.
    assert (hwc_display_ s' !! display
            = Some (SetValidationState kInternalValidate (Validate d0).1)) as Hkept
      by (by rewrite Hd').
    split; [done|]. split; [done|]. by apply ValidateDisplay_cached.
  - destruct (Hrest _ _ _ HP Hr2 Hp2 Hk2) as (s' & HPD & Hd' & He' & Hl').
    exists s'. split; [done|]. split; [done|]. split; [|done].
    rewrite He', He2, He1. by rewrite <-app_assoc.
Qed.

(** [PresentDisplay] on an occupied display that is not in skip-validate
  state: the [NotValidated] of the display's own [Present] is the answer of
  the call. *)
Lemma PresentDisplay_straight_to_Present s display d :
  (display < kNumDisplays)%N ->
  hwc_display_ s !! display = Some d ->
  on_refresh_ (callbacks_ s) = true ->
  primary_ready_ s = true ->
  let d1 := if NeedsRefresh display (callbacks_ s) then SetPendingRefresh d else d in
  IsSkipValidateState d1 = false ->
  (Present d1).2.1 = HWC2.NotValidated ->
  ∃ s', PresentDisplay true display true s =
          Returned (HWC2.NotValidated, Some (Present d1).2.2) s'
    ∧ hwc_display_ s' !! display = Some (Present d1).1
    ∧ events_ s' = events_ s ++ [EvPresent display; EvSignalIdle]
    ∧ lock_ops display s' = lock_ops display s ++ [SEQUENCE_EXIT_SCOPE_LOCK].
Proof.
  intros Hlt Hs Hreg Hready d1 Hskip Hnv.
  destruct (PresentDisplay_occupied s display d Hlt Hs Hreg Hready)
    as (s1 & Hs1 & He1 & Hr1 & Hl1 & Hrest). fold d1 in Hs1.
  destruct (PresentDisplayInternal_presents s1 display d1 Hs1) as
    (s2 & HP & Hs2 & He2 & Hc2 & Hp2 & Hk2); [by rewrite Hskip|].
  rewrite Hnv in HP.
  destruct (Hrest _ _ _ HP) as (s' & HPD & Hd' & He' & Hl'); [by rewrite Hc2|done..|].
  exists s'. split; [done|]. rewrite Hd', He', He2, He1, Hl', <-app_assoc. done.
Qed.


(** *** Sequence locks *)

Lemma locker_assign r g : preserved locker_ (assign r g).
Proof. intros s. by destruct r. Qed.

Lemma locker_ValidateDisplayInternal display :
  preserved locker_ (ValidateDisplayInternal display).
Proof. by apply preserved_ValidateDisplayInternal. Qed.

Lemma locker_PresentDisplayInternal display :
  preserved locker_ (PresentDisplayInternal display).
Proof. by apply preserved_PresentDisplayInternal. Qed.

Lemma locker_CreatePluggableDisplays delay :
  preserved locker_ (CreatePluggableDisplays delay).
Proof. apply preserved_CreatePluggableDisplays; try done. intros. apply locker_assign. Qed.

Lemma locker_HandlePendingRefresh : preserved locker_ HandlePendingRefresh.
Proof. by apply preserved_HandlePendingRefresh. Qed.

(** A frame proof for the lock table, over the calls above. *)
Ltac keeps_locker :=
  unfold when, emit, put_display, signalIdle;
  repeat first
    [ apply preserved_ret
    | apply locker_ValidateDisplayInternal
    | apply locker_PresentDisplayInternal
    | apply locker_CreatePluggableDisplays
    | apply locker_HandlePendingRefresh
    | apply preserved_bind; [|intros ?]
    | apply preserved_read; intros ?; reflexivity
    | apply preserved_modify; intros ?; reflexivity
    | progress cbv zeta
    | match goal with
      | |- preserved _ (match ?x with _ => _ end) => destruct x
      | |- preserved _ (let '(_, _) := ?x in _) => destruct x
      end ].

Lemma lock_ops_locker display s s' : locker_ s' = locker_ s -> lock_ops display s' = lock_ops display s.
Proof. unfold lock_ops. by intros ->. Qed.

Lemma scope_lock_returned op display s u s' :
  scope_lock op display s = Returned u s' -> lock_ops display s' = lock_ops display s ++ [op].
Proof.
  unfold scope_lock. case_match; [done|]. intros [= _ <-].
  unfold lock_ops. cbn. by rewrite lookup_insert_eq.
Qed.

Lemma when_scope_lock_returned (b : bool) op display s u s' :
  when b (scope_lock op display) s = Returned u s' ->
  lock_ops display s' = lock_ops display s ++ (if b then [op] else []).
Proof.
  destruct b; cbn.
  - apply scope_lock_returned.
  - intros [= _ <-]. by rewrite app_nil_r.
Qed.

Lemma ValidateDisplay_lock_ops s display status out s' :
  (display < kNumDisplays)%N ->
  ValidateDisplay true display s = Returned (status, out) s' ->
  lock_ops display s' =
    lock_ops display s ++ SEQUENCE_ENTRY_SCOPE_LOCK ::
      (if bool_decide (status ≠ HWC2.None) && bool_decide (status ≠ HWC2.HasChanges)
       then [SEQUENCE_CANCEL_SCOPE_LOCK] else []).
Proof.
  intros Hlt. unfold ValidateDisplay. rewrite decide_False by lia. cbn [negb].
  intros H.
  apply bind_returned in H as (? & s1 & Hentry & H).
  apply bind_returned in H as (? & ? & [= <- <-] & H).
  apply bind_returned in H as ([st o] & s2 & Hmid & H).
  apply bind_returned in H as (? & s3 & Hcancel & [= <- <- <-]).
  apply scope_lock_returned in Hentry. apply when_scope_lock_returned in Hcancel.
  assert (locker_ s2 = locker_ s1) as Hkeep.
  { eapply preserved_returned; [|exact Hmid]. keeps_locker. }
  rewrite Hcancel, (lock_ops_locker _ _ _ Hkeep), Hentry, <-app_assoc. done.
Qed.

Lemma PresentDisplay_lock_ops s display status fence s' :
  (display < kNumDisplays)%N ->
  PresentDisplay true display true s = Returned (status, fence) s' ->
  lock_ops display s' =
    lock_ops display s ++ SEQUENCE_EXIT_SCOPE_LOCK ::
      (if bool_decide (status ≠ HWC2.None) && bool_decide (status ≠ HWC2.NotValidated)
       then [SEQUENCE_CANCEL_SCOPE_LOCK] else []).
Proof.
  intros Hlt. unfold PresentDisplay. rewrite decide_False by lia. cbn [negb].
  intros H.
  apply bind_returned in H as (? & s1 & Hexit & H).
  apply bind_returned in H as (? & ? & [= <- <-] & H).
  apply bind_returned in H as ([st o] & s2 & Hmid & H).
  apply bind_returned in H as (? & s3 & Hcancel & H).
  apply bind_returned in H as (? & ? & [= <- <-] & H).
  apply bind_returned in H as (? & s4 & Hready & H).
  apply bind_returned in H as (? & s5 & Hpending & [= <- <- <-]).
  apply scope_lock_returned in Hexit. apply when_scope_lock_returned in Hcancel.
  assert (locker_ s2 = locker_ s1) as Hkeep2.
  { eapply preserved_returned; [|exact Hmid]. keeps_locker. }
  assert (locker_ s4 = locker_ s3) as Hkeep4.
  { eapply preserved_returned; [|exact Hready]. keeps_locker. }
  assert (locker_ s5 = locker_ s4) as Hkeep5.
  { eapply preserved_returned; [|exact Hpending]. keeps_locker. }
  rewrite (lock_ops_locker _ _ _ Hkeep5), (lock_ops_locker _ _ _ Hkeep4), Hcancel,
    (lock_ops_locker _ _ _ Hkeep2), Hexit, <-app_assoc. done.
Qed.

Lemma ValidateDisplay_returns s display :
  (display < kNumDisplays)%N ->
  on_refresh_ (callbacks_ s) = true ->
  ∃ r s', ValidateDisplay true display s = Returned r s'.
Proof.
  intros Hlt Hreg. unfold ValidateDisplay. rewrite decide_False by lia.
  unfold scope_lock. unfold_monad. cbn.
  destruct (hwc_display_ s !! display) as [d|] eqn:Hs.
  - match goal with |- context [ValidateDisplayInternal display ?x] =>
      assert (∃ r s1, ValidateDisplayInternal display x = Returned r s1) as (r & s1 & ->)
    end.
    { destruct (IsInternalValidateState d) eqn:Hi.
      - eexists _, _. by apply (ValidateDisplayInternal_cached _ _ d).
      - edestruct ValidateDisplayInternal_runs as (d0 & s1 & Hv & _); [..|by eexists _, _];
          done. }
    destruct r as [status out]. cbn.
    destruct (bool_decide (status ≠ HWC2.None) && bool_decide (status ≠ HWC2.HasChanges));
      cbn; by eexists _, _.
  - cbn. by eexists _, _.
Qed.

Lemma PresentDisplay_returns s display :
  (display < kNumDisplays)%N ->
  on_refresh_ (callbacks_ s) = true ->
  primary_ready_ s = true ->
  ∃ r s', PresentDisplay true display true s = Returned r s'.
Proof.
  intros Hlt Hreg Hready. destruct (hwc_display_ s !! display) as [d|] eqn:Hs.
  - destruct (PresentDisplay_occupied s display d Hlt Hs Hreg Hready)
      as (s1 & Hs1 & _ & Hr1 & _ & Hrest).
    destruct (PresentDisplayInternal_returns s1 display _ Hs1 Hr1)
      as ([status fence] & s2 & HP & Hr2 & Hp2).
    destruct (Hrest _ _ _ HP Hr2 Hp2) as (s' & ? & _).
    { eapply preserved_returned; [|exact HP]. apply locker_PresentDisplayInternal. }
    by eexists _, _.
  - unfold PresentDisplay. rewrite decide_False by lia.
    unfold scope_lock. unfold_monad. cbn. rewrite Hs.
    rewrite !bool_decide_eq_true_2 by done. cbn. rewrite Hready. cbn.
    match goal with |- context [HandlePendingRefresh ?x] =>
      destruct (HandlePendingRefresh_returns x) as (s' & -> & _); [done|]
    end.
    by eexists _, _.
Qed.

(** C4, as amended.  [ValidateDisplay], past its parameter checks, enters
    the sequence scope of the display's lock and cancels it for every status
    other than [None] and [HasChanges]; after such a failure no sequence is
    pending.  [PresentDisplay] on a display id in range exits the sequence
    scope first; past its null-pointer checks it cancels the scope as well
    for every status other than [None] and [NotValidated], and at a null
    pointer it returns with the scope exited and not cancelled.  After
    [PresentDisplay] no sequence is pending, whatever the status.  With the
    client's refresh callback in place (and, for [PresentDisplay], the
    primary display ready) the calls return. *)
Theorem sequence_scope_discipline :
  (∀ s display status out s',
      (display < kNumDisplays)%N ->
      ValidateDisplay true display s = Returned (status, out) s' ->
      let failed := bool_decide (status ≠ HWC2.None) && bool_decide (status ≠ HWC2.HasChanges) in
      lock_ops display s' =
        lock_ops display s ++ SEQUENCE_ENTRY_SCOPE_LOCK ::
          (if failed then [SEQUENCE_CANCEL_SCOPE_LOCK] else [])
      ∧ sequence_pending (lock_ops display s') = negb failed)
  ∧ (∀ s display status fence s',
        (display < kNumDisplays)%N ->
        PresentDisplay true display true s = Returned (status, fence) s' ->
        let failed :=
          bool_decide (status ≠ HWC2.None) && bool_decide (status ≠ HWC2.NotValidated) in
        lock_ops display s' =
          lock_ops display s ++ SEQUENCE_EXIT_SCOPE_LOCK ::
            (if failed then [SEQUENCE_CANCEL_SCOPE_LOCK] else [])
        ∧ sequence_pending (lock_ops display s') = false)
  ∧ (∀ s display device out_retire_fence,
        (display < kNumDisplays)%N ->
        device && out_retire_fence = false ->
        ∃ s', PresentDisplay device display out_retire_fence s =
                Returned (if device then HWC2.BadParameter else HWC2.BadDisplay, None) s'
          ∧ lock_ops display s' = lock_ops display s ++ [SEQUENCE_EXIT_SCOPE_LOCK]
          ∧ sequence_pending (lock_ops display s') = false)
  ∧ (∀ s display,
        (display < kNumDisplays)%N ->
        on_refresh_ (callbacks_ s) = true ->
        (∃ r s', ValidateDisplay true display s = Returned r s')
        ∧ (primary_ready_ s = true ->
             ∃ r s', PresentDisplay true display true s = Returned r s')).
Proof.
  split_and!.
  - intros s display status out s' Hlt H failed.
    rewrite (ValidateDisplay_lock_ops _ _ _ _ _ Hlt H). fold failed.
    split; [done|]. destruct failed.
    + apply sequence_pending_cancelled.
    + by rewrite sequence_pending_snoc.
  - intros s display status fence s' Hlt H failed.
    rewrite (PresentDisplay_lock_ops _ _ _ _ _ Hlt H). fold failed.
    split; [done|]. destruct failed.
    + apply sequence_pending_cancelled.
    + by rewrite sequence_pending_snoc.
  - intros s display device fence Hlt Hnull.
    destruct (lock_ops_scope_lock SEQUENCE_EXIT_SCOPE_LOCK display s eq_refl)
      as (s' & Hexit & Hops & _).
    exists s'. unfold PresentDisplay. rewrite decide_False by lia.
    unfold_monad. rewrite Hexit, Hops, sequence_pending_snoc.
    by destruct device, fence.
  - intros s display Hlt Hreg. split.
    + by apply ValidateDisplay_returns.
    + intros Hready. by apply PresentDisplay_returns.
Qed.


(** *** Concurrency *)

(** The arbiter called for the first builtin display while no second
    builtin display is active: it activates the pluggable display and does
    not look at the virtual one. *)
Lemma HandleConcurrency_activates_pluggable s disp ext vir de dv :
  primary_ready_ s = true ->
  disp = GetNextBuiltinIndex s ->
  GetSecondBuiltinStatus s = false ->
  to_hwc2_display_t (GetDisplayIndex DISPLAY_EXTERNAL s) = ext ->
  to_hwc2_display_t (GetDisplayIndex DISPLAY_VIRTUAL s) = vir ->
  (ext < kNumDisplays)%N ->
  ext ≠ vir ->
  hwc_display_ s !! ext = Some de ->
  hwc_display_ s !! vir = Some dv ->
  ∃ s', HandleConcurrency disp s = Returned () s'
    ∧ hwc_display_ s' !! ext = Some (display_ActivateDisplay true de)
    ∧ hwc_display_ s' !! vir = Some dv.
Proof.
  intros Hready -> Hsec Hext Hvir Hlt Hne Hde Hdv.
  unfold HandleConcurrency, ActivateDisplay, present_at. unfold_monad.
  rewrite Hready. cbn. rewrite decide_True by done. rewrite Hsec, Hext.
  rewrite !bool_decide_eq_true_2 by eauto. cbn. rewrite Hde.
  eexists. split; [reflexivity|]. cbn.
  by rewrite lookup_insert_eq, lookup_insert_ne.
Qed.


(** *** Slot search *)

(** The slot search of [HandleConnectedDisplays] when every slot holds a
    display: nothing is created and nothing changes. *)
Lemma connect_pluggable_taken info slots s :
  Forall (λ i, ∃ m, map_info_pluggable_ s !! i = Some m
                 ∧ is_Some (hwc_display_ s !! client_id m)) slots ->
  connect_pluggable info slots s = Returned (inr None) s.
Proof.
  induction 1 as [|i slots (m & Hm & [d Hd]) _ IH]; [done|].
  cbn. unfold load. unfold_monad. cbn. by rewrite Hm, Hd.
Qed.

(** The search stops at the first slot without a display. *)
Lemma connect_pluggable_first_free info taken i rest s m d :
  Forall (λ i, ∃ m, map_info_pluggable_ s !! i = Some m
                 ∧ is_Some (hwc_display_ s !! client_id m)) taken ->
  map_info_pluggable_ s !! i = Some m ->
  hwc_display_ s !! client_id m = None ->
  let test := bool_decide (0 < hpd_bpp_ s) && bool_decide (0 < hpd_pattern_ s) in
  Create (if test then HWCDisplayPluggableTest else HWCDisplayPluggable)
         (client_id m) (display_id info) = Created d ->
  ∃ s', connect_pluggable info (taken ++ i :: rest) s = Returned (inr (Some (client_id m))) s'
    ∧ is_Some (hwc_display_ s' !! client_id m)
    ∧ map_info_pluggable_ s' !! i =
        Some (mkDisplayMapInfo (client_id m) (display_id info) (display_type info) test).
Proof.
  intros Htaken Hm Hfree test Hcreate.
  induction Htaken as [|j taken (mj & Hmj & [dj Hdj]) _ IH].
  - cbn [app connect_pluggable]. unfold load, set_hdr. unfold_monad. cbn.
    rewrite Hm, Hfree. fold test. rewrite Hcreate. cbn.
    match goal with |- context [HandleConcurrency ?c ?s1] =>
      destruct (HandleConcurrency_returns c s1) as ([] & s' & Hhc);
      pose proof (preserved_returned _ _ _ _ _
                    (preserved_HandleConcurrency_by _ (occupied_ActivateDisplay c) c) Hhc)
        as Hocc;
      assert (map_info_pluggable_ s' = map_info_pluggable_ s1) as Hmap
        by (eapply preserved_returned; [by apply preserved_HandleConcurrency|exact Hhc]);
      rewrite Hhc
    end.
    exists s'. split; [done|]. cbn in Hocc, Hmap. rewrite lookup_insert_eq in Hocc.
    split.
    + eapply bool_decide_eq_true_1. rewrite Hocc. by apply bool_decide_eq_true_2.
    + rewrite Hmap, !list_lookup_alter_eq, Hm. done.
  - cbn [app connect_pluggable]. unfold load. unfold_monad. cbn. rewrite Hmj, Hdj.
    apply IH.
Qed.

End SessionProperties.

(** ** The statements at concrete sessions *)

(** Displays 1 and 2 pending when display 1 is presented: the call ends
    with the refresh request for display 1, and both bits are cleared. *)
Lemma pending_refresh_serves_lowest_bit_witness :
  ∃ r s1,
    Session.PresentDisplay (limits := Scenario.limits) (engine := Scenario.spec_engine true)
      true 1%N true Scenario.layered_pending = Session.Returned r s1
    ∧ Session.delivered_ (Session.callbacks_ s1) = [Session.CbRefresh 1%N]
    ∧ Session.pending_refresh_ s1 = 0%N.
Proof.
  pose (o := Session.PresentDisplay (limits := Scenario.limits)
               (engine := Scenario.spec_engine true) true 1%N true Scenario.layered_pending).
  assert (o = Session.Returned (HWC2.None, Some 0) (Session.final o)) as Hrun
    by (vm_compute; reflexivity).
  destruct (pending_refresh_serves_lowest_bit (limits := Scenario.limits)
              (engine := Scenario.spec_engine true) Scenario.layered_pending)
    as [_ Hpresent].
  - vm_compute. discriminate.
  - vm_compute. reflexivity.
  - reflexivity.
  - destruct (Hpresent 1%N _ _ eq_refl Hrun) as (i & earlier & Hbit & Hlow & Hdel & Hquiet & Hclr).
    exists (HWC2.None, Some 0), (Session.final o).
    split_and!; [exact Hrun| |exact Hclr].
    rewrite Hdel, Hquiet by (by left). cbn.
    assert (i = 1%N) as ->; [|reflexivity].
    destruct (N.lt_trichotomy i 1) as [Hlt|[->|Hgt]]; [|reflexivity|].
    + assert (i = 0%N) as -> by lia. vm_compute in Hbit. discriminate.
    + specialize (Hlow 1%N Hgt). vm_compute in Hlow. discriminate.
Defined.

(** A layer setter on a display that has a geometry change on record. *)
Lemma CallLayerFunction_resets_validation_witness :
  ∃ s' d_after,
    Session.CallLayerFunction (limits := Scenario.limits) (engine := Scenario.spec_engine true)
      true 1%N 7%N (Scenario.set_attribute 5) Scenario.layered
    = Session.Returned HWC2.None s'
    ∧ Session.hwc_display_ s' !! 1%N = Some d_after
    ∧ Session.validated_ d_after = false
    ∧ Session.CanSkipValidate (DisplayEngine := Scenario.spec_engine true) d_after = false.
Proof.
  destruct (CallLayerFunction_resets_validation (limits := Scenario.limits)
              (engine := Scenario.spec_engine true)) as [Hcall _].
  destruct (Hcall Scenario.layered 1%N 7%N (Scenario.set_attribute 5)
              Scenario.layered_display (Session.mkHWCLayer 0 []))
    as (s' & d_after & Hrun & Hd & _ & _ & Hreset).
  - reflexivity.
  - reflexivity.
  - reflexivity.
  - exists s', d_after.
    destruct Hreset as (_ & Hv & Hskip); [vm_compute; discriminate|].
    split_and!; [exact Hrun|exact Hd|exact Hv|].
    apply Hskip. intros x Hx. cbn. rewrite Hx. reflexivity.
Defined.

(** Two validations in a row of a display in internal-validate state. *)
Lemma ValidateDisplay_served_from_internal_validation_witness :
  ∃ s1 s2,
    Session.ValidateDisplay (limits := Scenario.limits) (engine := Scenario.spec_engine true)
      true 1%N Scenario.internally_validated
    = Session.Returned (HWC2.None, Some (0%N, 0%N)) s1
    ∧ Session.ValidateDisplay (limits := Scenario.limits) (engine := Scenario.spec_engine true)
        true 1%N s1
      = Session.Returned (HWC2.None, Some (0%N, 0%N)) s2
    ∧ Session.events_ s2 = [].
Proof.
  destruct (ValidateDisplay_served_from_internal_validation (limits := Scenario.limits)
              (engine := Scenario.spec_engine true)) as [Hcached _].
  destruct (Hcached Scenario.internally_validated 1%N
              (Scenario.with_validation Session.kInternalValidate true Scenario.layered_display))
    as (s1 & s2 & H1 & H2 & _ & He).
  - reflexivity.
  - reflexivity.
  - reflexivity.
  - exists s1, s2. split_and!; [exact H1|exact H2|exact He].
Defined.

(** C2 as stated does not hold: on a display without an internal validation
    on record, the second of two calls in a row runs the display's
    validation again. *)
Lemma ValidateDisplay_twice_validates_twice :
  Session.returned (Scenario.validate_twice Scenario.unvalidated)
  = Some ((HWC2.None, Some (0%N, 0%N)), (HWC2.None, Some (0%N, 0%N)))
  ∧ Session.events_ (Session.final (Scenario.validate_twice Scenario.unvalidated))
    = [Session.EvValidate 1%N; Session.EvValidate 1%N].
Proof. split; vm_compute; reflexivity. Qed.

(** ** The scenarios *)

Section ScenarioProperties.

Import Session Scenario.

(** C1.  The arbiter does not keep the pluggable and the virtual display
    from being active together.  Called for the first builtin display while
    no second builtin display is active, [HandleConcurrency] activates the
    pluggable display and leaves an active virtual display active.  Such a
    state is reached with the primary display ready: after the pluggable
    display is plugged in, a virtual display is created and the pluggable
    one is unplugged and plugged in again, the virtual display is active and
    the pluggable one is not; [SetPowerMode] on the primary display then
    returns with both of them active. *)
Theorem pluggable_and_virtual_both_active :
  (∀ (limits : HWCCallbacksLimits) (engine : DisplayEngine) s disp ext vir de dv,
      primary_ready_ s = true ->
      disp = GetNextBuiltinIndex s ->
      GetSecondBuiltinStatus s = false ->
      to_hwc2_display_t (GetDisplayIndex DISPLAY_EXTERNAL s) = ext ->
      to_hwc2_display_t (GetDisplayIndex DISPLAY_VIRTUAL s) = vir ->
      (ext < kNumDisplays)%N ->
      ext ≠ vir ->
      hwc_display_ s !! ext = Some de ->
      hwc_display_ s !! vir = Some dv ->
      active_ dv = true ->
      ∃ s', HandleConcurrency disp s = Returned () s'
        ∧ is_active ext s' = true
        ∧ is_active vir s' = true)
  ∧ (∀ fresh_active,
        returned (run (lim := limits) (plug_virtual_replug fresh_active)) = Some ()
        ∧ is_active 1 (final (run (lim := limits) (plug_virtual_replug fresh_active))) = false
        ∧ is_active 2 (final (run (lim := limits) (plug_virtual_replug fresh_active))) = true
        ∧ returned (run (lim := limits) (plug_virtual_replug_power fresh_active))
          = Some HWC2.None
        ∧ primary_ready_ (final (run (lim := limits) (plug_virtual_replug_power fresh_active)))
          = true
        ∧ kind_of 1 (final (run (lim := limits) (plug_virtual_replug_power fresh_active)))
          = Some HWCDisplayPluggable
        ∧ kind_of 2 (final (run (lim := limits) (plug_virtual_replug_power fresh_active)))
          = Some HWCDisplayVirtual
        ∧ is_active 1 (final (run (lim := limits) (plug_virtual_replug_power fresh_active)))
          = true
        ∧ is_active 2 (final (run (lim := limits) (plug_virtual_replug_power fresh_active)))
          = true).
Proof.
  split.
  - intros limits engine s disp ext vir de dv Hready Hdisp Hsec Hext Hvir Hlt Hne Hde Hdv Hact.
    destruct (HandleConcurrency_activates_pluggable s disp ext vir de dv)
      as (s' & Hrun & Hext' & Hvir'); try done.
    exists s'. unfold is_active. by rewrite Hext', Hvir'.
  - intros []; vm_compute; by split_and!.
Qed.

(** C3.  On an occupied display in skip-validate state that may not skip
    validation, [PresentDisplay] runs the implicit validation first.  When
    that validation reports an error or leaves client composition, the call
    returns [NotValidated] and nothing is presented: no [Present] of the
    display runs, the display is left in internal-validate state, and a
    [ValidateDisplay] that follows returns the output of that validation.
    Otherwise the display's [Present] runs on the validated object.  A
    display that is not in skip-validate state goes straight to its own
    [Present], whose [NotValidated] is what the call returns, with the
    sequence left uncancelled.  For the display object as the specification
    describes it, that is the case of a display that was never validated (a
    freshly connected one): the call returns [NotValidated] and the display
    object is not changed by it.  In all these cases the call returns. *)
Theorem PresentDisplay_implicit_validation :
  (∀ (limits : HWCCallbacksLimits) (engine : DisplayEngine) s display d,
      (display < kNumDisplays)%N ->
      hwc_display_ s !! display = Some d ->
      on_refresh_ (callbacks_ s) = true ->
      primary_ready_ s = true ->
      let d1 := if NeedsRefresh display (callbacks_ s) then SetPendingRefresh d else d in
      IsSkipValidateState d1 = true ->
      CanSkipValidate d1 = false ->
      ∃ d0 s',
        (display ≠ HWC_DISPLAY_PRIMARY -> d0 = d1)
        ∧ let v := Validate d0 in
          let refused := bool_decide (v.2.1 ≠ HWC2.None) || HasClientComposition v.1 in
          PresentDisplay true display true s =
            Returned (if refused then (HWC2.NotValidated, None)
                      else ((Present v.1).2.1, Some (Present v.1).2.2)) s'
          ∧ events_ s' = events_ s ++ EvValidate display ::
                           (if refused then [] else [EvPresent display]) ++ [EvSignalIdle]
          ∧ (refused = true ->
               let kept := SetValidationState kInternalValidate v.1 in
               hwc_display_ s' !! display = Some kept
               ∧ lock_ops display s' = lock_ops display s ++ [SEQUENCE_EXIT_SCOPE_LOCK]
               ∧ ∃ s'', ValidateDisplay true display s' =
                          Returned ((GetValidateDisplayOutput kept).1,
                                    Some (GetValidateDisplayOutput kept).2) s''
                    ∧ hwc_display_ s'' = hwc_display_ s'
                    ∧ events_ s'' = events_ s'))
  ∧ (∀ (limits : HWCCallbacksLimits) (engine : DisplayEngine) s display d,
        (display < kNumDisplays)%N ->
        hwc_display_ s !! display = Some d ->
        on_refresh_ (callbacks_ s) = true ->
        primary_ready_ s = true ->
        let d1 := if NeedsRefresh display (callbacks_ s) then SetPendingRefresh d else d in
        IsSkipValidateState d1 = false ->
        (Present d1).2.1 = HWC2.NotValidated ->
        ∃ s', PresentDisplay true display true s =
                Returned (HWC2.NotValidated, Some (Present d1).2.2) s'
          ∧ hwc_display_ s' !! display = Some (Present d1).1
          ∧ events_ s' = events_ s ++ [EvPresent display; EvSignalIdle]
          ∧ lock_ops display s' = lock_ops display s ++ [SEQUENCE_EXIT_SCOPE_LOCK])
  ∧ (∀ (limits : HWCCallbacksLimits) fresh_active s display d,
        (display < kNumDisplays)%N ->
        hwc_display_ s !! display = Some d ->
        on_refresh_ (callbacks_ s) = true ->
        primary_ready_ s = true ->
        validate_state_ d = kNoValidate ->
        validated_ d = false ->
        ∃ s', PresentDisplay (engine := spec_engine fresh_active) true display true s =
                Returned (HWC2.NotValidated, Some (-1)) s'
          ∧ hwc_display_ s' !! display =
              Some (if NeedsRefresh display (callbacks_ s) then SetPendingRefresh d else d)
          ∧ lock_ops display s' = lock_ops display s ++ [SEQUENCE_EXIT_SCOPE_LOCK]).
Proof.
  split; [|split].
  - intros limits engine s display d. apply PresentDisplay_validates_first.
  - intros limits engine s display d. apply PresentDisplay_straight_to_Present.
  - intros limits fresh_active s display d Hlt Hs Hreg Hready Hstate Hval.
    destruct (PresentDisplay_straight_to_Present (engine := spec_engine fresh_active)
                s display d Hlt Hs Hreg Hready) as (s' & Hrun & Hd' & _ & Hops).
    + unfold IsSkipValidateState. destruct (NeedsRefresh _ _); cbn; by rewrite Hstate.
    + destruct (NeedsRefresh _ _); cbn; by rewrite Hval.
    + exists s'. split_and!; [|by destruct (NeedsRefresh _ _); cbn in *; rewrite Hval in *|done].
      destruct (NeedsRefresh _ _); cbn in *; by rewrite Hval in *.
Qed.

(** C7.  The builtin mapping at client registration does not take the first
    free slot: its slot counter advances by two for every display it maps.
    With a builtin primary panel and two more builtin panels connected, on
    hardware with two builtin slots the second panel gets no slot although
    slot 1 is free; with three slots it is mapped to slot 2 and slot 1 stays
    free.  The slot search of the hotplug scan, in contrast, stops at the
    first slot without a display and fills it, and when every slot holds a
    display it creates nothing and changes nothing; a scan that finds more
    pluggable displays than slots returns 0. *)
Theorem builtin_mapping_skips_free_slot :
  (returned (three_panels 3) = Some ()
   ∧ builtin_slots (final (three_panels 3)) = [(2%N, 1, true); (3%N, -1, false)]
   ∧ builtin_slots (final (three_panels 4))
     = [(2%N, 1, true); (3%N, -1, false); (4%N, 2, true)])
  ∧ (∀ (limits : HWCCallbacksLimits) (engine : DisplayEngine) info taken i rest s m d,
        Forall (λ i, ∃ m, map_info_pluggable_ s !! i = Some m
                       ∧ is_Some (hwc_display_ s !! client_id m)) taken ->
        map_info_pluggable_ s !! i = Some m ->
        hwc_display_ s !! client_id m = None ->
        let test := bool_decide (0 < hpd_bpp_ s) && bool_decide (0 < hpd_pattern_ s) in
        Create (if test then HWCDisplayPluggableTest else HWCDisplayPluggable)
               (client_id m) (display_id info) = Created d ->
        ∃ s', connect_pluggable info (taken ++ i :: rest) s
              = Returned (inr (Some (client_id m))) s'
          ∧ is_Some (hwc_display_ s' !! client_id m)
          ∧ map_info_pluggable_ s' !! i =
              Some (mkDisplayMapInfo (client_id m) (display_id info) (display_type info) test))
  ∧ (∀ (limits : HWCCallbacksLimits) (engine : DisplayEngine) info slots s,
        Forall (λ i, ∃ m, map_info_pluggable_ s !! i = Some m
                       ∧ is_Some (hwc_display_ s !! client_id m)) slots ->
        connect_pluggable info slots s = Returned (inr None) s)
  ∧ (returned two_hdmi_scan = Some 0
     ∧ map_info_pluggable_ (final two_hdmi_scan) = [mkDisplayMapInfo 1 1 kPluggable false]).
Proof.
  split; [|split; [|split]].
  - by vm_compute.
  - intros ????????? Htaken Hm Hfree test Hcreate.
    by eapply connect_pluggable_first_free.
  - intros. by apply connect_pluggable_taken.
  - by vm_compute.
Qed.

End ScenarioProperties.

(** Present of a display that needs client composition, and present of a
    display that was just connected. *)
Lemma PresentDisplay_implicit_validation_witness :
  (∃ s', Session.PresentDisplay (limits := Scenario.limits)
           (engine := Scenario.client_composition_engine) true 1%N true Scenario.layered_ready
         = Session.Returned (HWC2.NotValidated, None) s'
     ∧ Session.events_ s' = [Session.EvValidate 1%N; Session.EvSignalIdle]
     ∧ Session.validate_state_ <$> Session.hwc_display_ s' !! 1%N
       = Some Session.kInternalValidate)
  ∧ (∃ s', Session.PresentDisplay (limits := Scenario.limits)
             (engine := Scenario.spec_engine true) true 1%N true Scenario.plugged
           = Session.Returned (HWC2.NotValidated, Some (-1)) s'
       ∧ Session.lock_ops 1%N s' = [Session.SEQUENCE_EXIT_SCOPE_LOCK]).
Proof.
  split.
  - destruct PresentDisplay_implicit_validation as (Himplicit & _ & _).
    destruct (Himplicit Scenario.limits Scenario.client_composition_engine
                Scenario.layered_ready 1%N Scenario.layered_display)
      as (d0 & s' & Hd0 & Hrun & Hev & Hkept).
    + reflexivity.
    + reflexivity.
    + reflexivity.
    + reflexivity.
    + reflexivity.
    + reflexivity.
    + rewrite (Hd0 ltac:(discriminate)) in *.
      exists s'. split; [exact Hrun|]. split; [exact Hev|].
      destruct Hkept as (Hk & _); [reflexivity|]. rewrite Hk. reflexivity.
  - destruct PresentDisplay_implicit_validation as (_ & _ & Hfresh).
    destruct (Hfresh Scenario.limits true Scenario.plugged 1%N
                (Session.mkHWCDisplay Session.HWCDisplayPluggable 1 1 HWC2.Off true
                   Session.kNoValidate false false 0 ∅))
      as (s' & Hrun & _ & Hops).
    + reflexivity.
    + vm_compute. reflexivity.
    + vm_compute. reflexivity.
    + vm_compute. reflexivity.
    + reflexivity.
    + reflexivity.
    + exists s'. split; [exact Hrun|]. rewrite Hops. vm_compute. reflexivity.
Defined.

(** Validate and present on an empty slot: both fail with [BadDisplay], and
    both cancel the sequence. *)
Lemma sequence_scope_discipline_witness :
  Session.lock_ops 2%N
    (Session.final
       (Session.ValidateDisplay (limits := Scenario.limits) (engine := Scenario.spec_engine true)
          true 2%N Scenario.layered_ready))
  = [Session.SEQUENCE_ENTRY_SCOPE_LOCK; Session.SEQUENCE_CANCEL_SCOPE_LOCK]
  ∧ Session.lock_ops 2%N
      (Session.final
         (Session.PresentDisplay (limits := Scenario.limits)
            (engine := Scenario.spec_engine true) true 2%N true Scenario.layered_ready))
    = [Session.SEQUENCE_EXIT_SCOPE_LOCK; Session.SEQUENCE_CANCEL_SCOPE_LOCK].
Proof.
  destruct (sequence_scope_discipline (limits := Scenario.limits)
              (engine := Scenario.spec_engine true)) as (Hvalidate & Hpresent & _).
  split.
  - destruct (Hvalidate Scenario.layered_ready 2%N HWC2.BadDisplay None
                (Session.final
                   (Session.ValidateDisplay (limits := Scenario.limits)
                      (engine := Scenario.spec_engine true) true 2%N Scenario.layered_ready)))
      as [Hops _].
    + reflexivity.
    + vm_compute. reflexivity.
    + exact Hops.
  - destruct (Hpresent Scenario.layered_ready 2%N HWC2.BadDisplay None
                (Session.final
                   (Session.PresentDisplay (limits := Scenario.limits)
                      (engine := Scenario.spec_engine true) true 2%N true
                      Scenario.layered_ready)))
      as [Hops _].
    + reflexivity.
    + vm_compute. reflexivity.
    + exact Hops.
Defined.

(** C4 as stated does not hold: with a null [out_retire_fence],
    [PresentDisplay] fails with [BadParameter], and the sequence scope is
    exited but not cancelled. *)
Lemma PresentDisplay_null_fence_not_cancelled :
  Session.returned
    (Session.PresentDisplay (limits := Scenario.limits) (engine := Scenario.spec_engine true)
       true 1%N false Scenario.layered)
  = Some (HWC2.BadParameter, None)
  ∧ Session.lock_ops 1%N
      (Session.final
         (Session.PresentDisplay (limits := Scenario.limits)
            (engine := Scenario.spec_engine true) true 1%N false Scenario.layered))
    = [Session.SEQUENCE_EXIT_SCOPE_LOCK].
Proof. split; vm_compute; reflexivity. Qed.

(** The connected pluggable display is destroyed: its slot keeps client id
    1 and loses the rest. *)
Lemma slot_reset_keeps_client_id_witness :
  ∃ s' m',
    Session.DestroyDisplay (limits := Scenario.limits) (engine := Scenario.spec_engine true)
      (Session.RefPluggable 0) Scenario.plugged
    = Session.Returned () s'
    ∧ Session.hwc_display_ s' !! 1%N = None
    ∧ Session.map_info_pluggable_ s' !! 0%nat = Some m'
    ∧ Session.client_id m' = 1%N
    ∧ Session.sdm_id m' = -1
    ∧ Session.disp_type m' = Session.kDisplayTypeMax
    ∧ Session.test_pattern m' = false.
Proof.
  destruct (slot_reset_keeps_client_id (limits := Scenario.limits)
              (engine := Scenario.spec_engine true)) as (_ & Hdestroy & _).
  destruct (Hdestroy (Session.RefPluggable 0) Scenario.plugged
              (Session.mkDisplayMapInfo 1 1 Session.kPluggable false)
              (Session.mkHWCDisplay Session.HWCDisplayPluggable 1 1 HWC2.Off true
                 Session.kNoValidate false false 0 ∅))
    as (s' & m' & Hrun & Hgone & Hslot & Hid & Hsdm & Htype & Htest).
  - reflexivity.
  - vm_compute. reflexivity.
  - vm_compute. reflexivity.
  - intros _. split; vm_compute; reflexivity.
  - exists s', m'.
    split; [exact Hrun|]. split; [exact Hgone|]. split; [exact Hslot|].
    split; [exact Hid|]. split; [exact Hsdm|]. split; [exact Htype|exact Htest].
Defined.

(** A hotplug scan after boot without the pluggable primary display. *)
Lemma placeholder_primary_reconnect_aborts_witness :
  ∃ s',
    Session.CreatePluggableDisplays (limits := Scenario.limits)
      (engine := Scenario.spec_engine true) true Scenario.headless
    = Session.Terminated Session.CalledAbort s'
    ∧ Session.events_ s'
      = Session.events_ Scenario.headless
        ++ [Session.EvDestroy Session.HWCDisplayDummy 0%N; Session.EvDestroyCore].
Proof.
  destruct (placeholder_primary_reconnect_aborts (limits := Scenario.limits)
              (engine := Scenario.spec_engine true)) as (_ & Habort & _).
  destruct (Habort Scenario.headless true) as (s' & Hrun & Hev).
  - vm_compute. reflexivity.
  - vm_compute. reflexivity.
  - exists s'. split; [exact Hrun|exact Hev].
Defined.

(** * Further properties

    ** The power-hint worker: caches, power-off and disconnects *)

Section PowerHintIdleProperties.

Import PowerHint PowerHintIdle.


(** A support query leaves the worker's bookkeeping alone. *)
Lemma checkPowerHalExtHintSupport_fields (hal : PowerHalExt) mode w ret w' :
  checkPowerHalExtHintSupport mode w = (ret, w') ->
  mIdleHintSupportIsChecked w' = mIdleHintSupportIsChecked w
  ∧ mIdleHintIsSupported w' = mIdleHintIsSupported w
  ∧ mIdleHintIsEnabled w' = mIdleHintIsEnabled w
  ∧ mPrevRefreshRate w' = mPrevRefreshRate w
  ∧ mPendingPrevRefreshRate w' = mPendingPrevRefreshRate w
  ∧ mRefreshRateHintSupportMap w' = mRefreshRateHintSupportMap w.
Proof.
  unfold checkPowerHalExtHintSupport, connectPowerHalExt.
  repeat (case_match || case_decide); intros; simplify_eq/=; done.
Qed.

Lemma sendPowerHalExtHint_fields (hal : PowerHalExt) mode e w ret w' :
  sendPowerHalExtHint mode e w = (ret, w') ->
  mIdleHintSupportIsChecked w' = mIdleHintSupportIsChecked w
  ∧ mIdleHintIsSupported w' = mIdleHintIsSupported w
  ∧ mIdleHintIsEnabled w' = mIdleHintIsEnabled w
  ∧ mPrevRefreshRate w' = mPrevRefreshRate w
  ∧ mPendingPrevRefreshRate w' = mPendingPrevRefreshRate w
  ∧ mRefreshRateHintSupportMap w' = mRefreshRateHintSupportMap w.
Proof.
  unfold sendPowerHalExtHint, connectPowerHalExt.
  repeat (case_match || case_decide); intros; simplify_eq/=; done.
Qed.


Lemma checkIdleHintSupport_supported (hal : PowerHalExt) w w0 :
  checkIdleHintSupport w = (NO_ERROR, w0) ->
  mIdleHintSupportIsChecked w0 = true ∧ mIdleHintIsSupported w0 = true
  ∧ mIdleHintIsEnabled w0 = mIdleHintIsEnabled w.
Proof.
  unfold checkIdleHintSupport.
  destruct (mIdleHintSupportIsChecked w) eqn:Hc.
  - destruct (mIdleHintIsSupported w) eqn:Hs; intros [= <-]; done.
  - destruct (checkPowerHalExtHintSupport _ w) as [ret0 w0'] eqn:Hq.
    apply checkPowerHalExtHintSupport_fields in Hq as (_ & _ & He & _).
    repeat case_decide; intros [= ? <-]; simplify_eq/=; done.
Qed.

(** X3.  The idle hint is sent on a change only: once [updateIdleHint] has
    returned [NO_ERROR], a call with times that compare the same way (the
    deadline passed, or not) returns [NO_ERROR] without any transaction and
    leaves the worker as it is, whatever the service would answer. *)
Theorem idle_hint_sent_on_change_only (hal hal' : PowerHalExt) now deadline now' deadline'
    w w1 :
  updateIdleHint (hal := hal) now deadline w = (NO_ERROR, w1) ->
  bool_decide (deadline' < now')%N = bool_decide (deadline < now)%N ->
  updateIdleHint (hal := hal') now' deadline' w1 = (NO_ERROR, w1).
Proof.
  unfold updateIdleHint.
  destruct (checkIdleHintSupport w) as [ret0 w0] eqn:Hq.
  case_decide as Hret0; [by intros [= -> _]|].
  try apply dec_stable in Hret0. subst ret0.
  apply checkIdleHintSupport_supported in Hq as (Hc0 & Hs0 & He0).
  intros Hw1 ->.
  assert (mIdleHintSupportIsChecked w1 = true ∧ mIdleHintIsSupported w1 = true
          ∧ mIdleHintIsEnabled w1 = bool_decide (deadline < now)%N) as (Hc1 & Hs1 & He1).
  { revert Hw1. case_decide as Hne.
    - destruct (sendPowerHalExtHint _ _ w0) as [r x] eqn:Hsend.
      apply sendPowerHalExtHint_fields in Hsend as (? & ? & ? & _).
      destruct (decide (r = NO_ERROR)); intros [= ? <-]; [|done]. cbn. split_and!; congruence.
    - intros [= <-]. try apply dec_stable in Hne. done. }
  unfold checkIdleHintSupport. rewrite Hc1, Hs1.
  rewrite decide_False by (intros ?; done).
  rewrite decide_False by (intros ?; done). done.
Qed.

(** *** Power-off and binder failures *)

(** X4.  A round of the worker for a display that is not on never enables a
    hint and never asks for support: every transaction it issues is a
    [setMode] that disables, and when it returns [NO_ERROR] the worker has
    no refresh-rate hint on record and none pending. *)
Theorem power_off_only_disables (hal : PowerHalExt) powerMode vsyncPeriod w ret w' :
  powerMode ≠ HWC2.On ->
  updateRefreshRateHintInternal powerMode vsyncPeriod w = Some (ret, w') ->
  ∃ new, hal_calls w' = hal_calls w ++ new
    ∧ Forall (λ c, ∃ mode, c = SetMode mode false) new
    ∧ (ret = NO_ERROR -> mPrevRefreshRate w' = 0 ∧ mPendingPrevRefreshRate w' = 0).
Proof.
  intros Hoff.
  assert (∀ w ret w', updateRefreshRateHint_switch powerMode vsyncPeriod w = Some (ret, w') ->
            ∃ new, hal_calls w' = hal_calls w ++ new
              ∧ Forall (λ c, ∃ mode, c = SetMode mode false) new
              ∧ (ret = NO_ERROR -> mPrevRefreshRate w' = 0
                   ∧ mPendingPrevRefreshRate w' = mPendingPrevRefreshRate w)) as Hswitch.
  { clear w ret w'. intros w ret w'. unfold updateRefreshRateHint_switch.
    rewrite decide_True by done.
    destruct (decide (mPrevRefreshRate w ≠ 0)) as [Hprev|Hprev].
    - destruct (sendRefreshRateHint _ false w) as [r1 w1] eqn:E1.
      apply sendRefreshRateHint_sent in E1.
      destruct (decide (r1 = NO_ERROR)) as [->|Hr1]; intros [= <- <-].
      + destruct E1 as [_ Hc Hp Hq|?|?]; [|done..].
        eexists [_]. cbn. split_and!; [done|by repeat constructor; eexists|done].
      + destruct E1 as [?|_ Hc _|_ _ Hc _ _]; [done| |].
        * eexists [_]. split_and!; [done|by repeat constructor; eexists|done].
        * exists []. rewrite app_nil_r. split_and!; [done|constructor|done].
    - intros [= <- <-]. exists []. rewrite app_nil_r. split_and!; [done|constructor|].
      intros _. split; [|done]. by destruct (decide (mPrevRefreshRate w = 0)). }
  unfold updateRefreshRateHintInternal.
  destruct (decide (mPendingPrevRefreshRate w ≠ 0)) as [Hpend|Hpend].
  - destruct (sendRefreshRateHint _ false w) as [r0 w0] eqn:E0.
    apply sendRefreshRateHint_sent in E0.
    destruct (decide (r0 = NO_ERROR)) as [->|Hr0].
    + destruct E0 as [_ Hc0 Hp0 Hq0|?|?]; [|done..].
      intros Hsw. apply Hswitch in Hsw as (new & Hnew & Hall & Hdone). cbn in Hnew, Hdone.
      exists (SetMode (refreshRateHintStr (mPendingPrevRefreshRate w)) false :: new).
      rewrite Hnew, Hc0, <-(assoc_L (++)). split_and!; [done| |done].
      constructor; [by eexists|done].
    + intros [= <- <-].
      destruct E0 as [?|_ Hc0 _|_ _ Hc0 _ _]; [done| |].
      * eexists [_]. split_and!; [done|by repeat constructor; eexists|done].
      * exists []. rewrite app_nil_r. split_and!; [done|constructor|done].
  - intros Hsw. apply Hswitch in Hsw as (new & Hnew & Hall & Hdone).
    exists new. split_and!; [done..|]. intros Hret. destruct (Hdone Hret) as [-> ->].
    split; [done|]. by destruct (decide (mPendingPrevRefreshRate w = 0)).
Qed.

Lemma sendRefreshRateHint_disconnected (hal : PowerHalExt) r e w w' :
  sendRefreshRateHint r e w = (- ENOTCONN, w') ->
  mPowerHalExtAidl w' = false
  ∧ mPrevRefreshRate w' = 0 ∧ mPendingPrevRefreshRate w' = 0
  ∧ hal_calls w' = hal_calls w ++ [SetMode (refreshRateHintStr r) e].
Proof.
  unfold sendRefreshRateHint, sendPowerHalExtHint, connectPowerHalExt.
  destruct (decide (refreshRateHintStr r = "")) as [E|_];
    [by destruct (refreshRateHintStr_nonempty r)|].
  destruct (mPowerHalExtAidl w) eqn:Ha; [|destruct (fromBinder (hal_calls w))]; cbn;
    try destruct (setMode _ _ _); cbn; intros [= <-]; done.
Qed.

Lemma checkRefreshRateHintSupport_disconnected (hal : PowerHalExt) r w w' :
  checkRefreshRateHintSupport r w = (- ENOTCONN, w') ->
  mPowerHalExtAidl w' = false
  ∧ hal_calls w' = hal_calls w ++ [IsModeSupported (refreshRateHintStr r)].
Proof.
  unfold checkRefreshRateHintSupport, checkPowerHalExtHintSupport, connectPowerHalExt.
  destruct (_ !! r) as [[]|]; [done..|].
  destruct (decide (refreshRateHintStr r = "")) as [E|_];
    [by destruct (refreshRateHintStr_nonempty r)|].
  destruct (mPowerHalExtAidl w) eqn:Ha; [|destruct (fromBinder (hal_calls w))]; cbn;
    try destruct (isModeSupported _ _) as [[] []]; cbn; intros [= <-]; done.
Qed.

(** X5.  A round that ends in a binder failure leaves the worker without a
    handle of the service, so that the next round connects again, and
    without a pending hint.  The failed transaction is the last one of the
    round; when it was a [setMode], the worker has forgotten the hint it had
    on record, and when it was a support query the record is as before. *)
Theorem binder_failure_forgets_hints (hal : PowerHalExt) powerMode vsyncPeriod w w' :
  updateRefreshRateHintInternal powerMode vsyncPeriod w = Some (- ENOTCONN, w') ->
  mPowerHalExtAidl w' = false
  ∧ mPendingPrevRefreshRate w' = 0
  ∧ ∃ cs c, hal_calls w' = hal_calls w ++ cs ++ [c]
      ∧ mPrevRefreshRate w' =
          match c with
          | SetMode _ _ => 0
          | IsModeSupported _ => mPrevRefreshRate w
          end.
Proof.
  assert (∀ w w', updateRefreshRateHint_switch powerMode vsyncPeriod w
                  = Some (- ENOTCONN, w') ->
            mPowerHalExtAidl w' = false
            ∧ (mPendingPrevRefreshRate w = 0 -> mPendingPrevRefreshRate w' = 0)
            ∧ ∃ cs c, hal_calls w' = hal_calls w ++ cs ++ [c]
                ∧ mPrevRefreshRate w' =
                    match c with
                    | SetMode _ _ => 0
                    | IsModeSupported _ => mPrevRefreshRate w
                    end) as Hswitch.
  { clear w w'. intros w w'. unfold updateRefreshRateHint_switch.
    destruct (decide (powerMode ≠ HWC2.On)) as [Hoff|_].
    - destruct (decide (mPrevRefreshRate w ≠ 0)) as [Hprev|Hprev]; [|done].
      destruct (sendRefreshRateHint _ false w) as [r1 w1] eqn:E1.
      destruct (decide (r1 = NO_ERROR)) as [->|Hr1]; [by intros [= ?]|intros [= -> <-]].
      apply sendRefreshRateHint_disconnected in E1 as (? & ? & ? & ?).
      split_and!; [done..|]. by exists [], (SetMode (refreshRateHintStr (mPrevRefreshRate w)) false).
    - destruct (refreshRateOf vsyncPeriod) as [rate|]; [|done].
      destruct (decide (mPrevRefreshRate w = _)) as [Hsame|Hdiff]; [done|].
      destruct (checkRefreshRateHintSupport _ w) as [r1 w1] eqn:E1.
      destruct (decide (r1 ≠ NO_ERROR)) as [Hbad|Hok].
      { intros [= -> <-].
        pose proof (checkRefreshRateHintSupport_calls _ _ _ _ E1) as (Hp1 & Hq1 & _).
        apply checkRefreshRateHintSupport_disconnected in E1 as (? & ?).
        split_and!; [done|congruence|].
        by exists [], (IsModeSupported (refreshRateHintStr rate)). }
      apply checkRefreshRateHintSupport_calls in E1 as (Hp1 & Hq1 & cs1 & Hc1 & _).
      destruct (sendRefreshRateHint _ true w1) as [r2 w2] eqn:E2.
      destruct (decide (r2 ≠ NO_ERROR)) as [Hbad2|Hok2].
      { intros [= -> <-].
        apply sendRefreshRateHint_disconnected in E2 as (? & ? & ? & Hc2).
        split_and!; [done..|]. exists cs1, (SetMode (refreshRateHintStr rate) true).
        by rewrite Hc2, Hc1, <-(assoc_L (++)). }
      pose proof (sendRefreshRateHint_sent _ _ _ _ _ E2) as [_ Hc2 _ _|?|?]; [|done..].
      assert (r2 = NO_ERROR) as -> by (by destruct (decide (r2 = NO_ERROR))).
      destruct (decide (mPrevRefreshRate w2 ≠ 0)) as [Hprev|Hprev]; [|by intros [= ?]].
      destruct (sendRefreshRateHint _ false w2) as [r3 w3] eqn:E3.
      destruct (decide (r3 ≠ NO_ERROR)) as [Hbad3|Hok3];
        [|intros [= -> _]; by destruct Hok3].
      destruct (decide (r3 ≠ - ENOTCONN)) as [Hne|Heq]; intros [= -> <-]; [done|].
      apply sendRefreshRateHint_disconnected in E3 as (? & ? & ? & Hc3).
      split_and!; [done..|].
      exists (cs1 ++ [SetMode (refreshRateHintStr rate) true]),
        (SetMode (refreshRateHintStr (mPrevRefreshRate w2)) false).
      by rewrite Hc3, Hc2, Hc1, <-!(assoc_L (++)). }
  unfold updateRefreshRateHintInternal.
  destruct (decide (mPendingPrevRefreshRate w ≠ 0)) as [Hpend|Hpend].
  - destruct (sendRefreshRateHint _ false w) as [r0 w0] eqn:E0.
    destruct (decide (r0 = NO_ERROR)) as [->|Hr0].
    + apply sendRefreshRateHint_sent in E0 as [_ Hc0 Hp0 _|?|?]; [|done..].
      intros Hsw. apply Hswitch in Hsw as (Ha & Hq & cs & c & Hc & Hp). cbn in Hq, Hc, Hp.
      split_and!; [done|by apply Hq|].
      exists (SetMode (refreshRateHintStr (mPendingPrevRefreshRate w)) false :: cs), c.
      rewrite Hc, Hc0, Hp, Hp0, <-!(assoc_L (++)). done.
    + intros [= -> <-].
      apply sendRefreshRateHint_disconnected in E0 as (? & ? & ? & ?).
      split_and!; [done..|].
      by exists [], (SetMode (refreshRateHintStr (mPendingPrevRefreshRate w)) false).
  - intros Hsw. apply Hswitch in Hsw as (Ha & Hq & Hrest).
    split_and!; [done| |done]. apply Hq. by destruct (decide (mPendingPrevRefreshRate w = 0)).
Qed.

(** *** The hints that are on at the service *)

Lemma string_app_length (s t : string) :
  String.length (s +:+ t) = (String.length s + String.length t)%nat.
Proof. induction s as [|a s IH]; simpl; [done|]. f_equal. exact IH. Qed.

Lemma string_app_inj_r (t s1 s2 : string) : s1 +:+ t = s2 +:+ t -> s1 = s2.
Proof.
  revert s2. induction s1 as [|a s1 IH]; intros [|b s2] H; try done.
  - apply (f_equal String.length) in H.
    rewrite !string_app_length in H. simpl in H. exfalso. lia.
  - apply (f_equal String.length) in H.
    rewrite !string_app_length in H. simpl in H. exfalso. lia.
  - injection H as -> H. f_equal. by apply IH.
Qed.

(** Different rates have different hints, and none of them is the idle
    hint. *)
Lemma refreshRateHintStr_inj r1 r2 : refreshRateHintStr r1 = refreshRateHintStr r2 -> r1 = r2.
Proof.
  unfold refreshRateHintStr. intros H.
  apply (inj (String.app "REFRESH_")) in H. apply string_app_inj_r in H.
  by apply (inj pretty) in H.
Qed.

Lemma refreshRateHintStr_not_idle r : refreshRateHintStr r ≠ "DISPLAY_IDLE".
Proof. unfold refreshRateHintStr. simpl. discriminate. Qed.

Lemma hints_on_snoc cs mode enabled :
  hints_on (cs ++ [(mode, enabled)]) =
  if enabled then hints_on cs ∪ {[mode]} else hints_on cs ∖ {[mode]}.
Proof. unfold hints_on. by rewrite foldl_snoc. Qed.

Lemma refresh_rate_requests_app cs1 cs2 :
  refresh_rate_requests (cs1 ++ cs2) = refresh_rate_requests cs1 ++ refresh_rate_requests cs2.
Proof. unfold refresh_rate_requests. by rewrite set_mode_calls_app, filter_app. Qed.

Lemma refresh_rate_requests_hint r e :
  refresh_rate_requests [SetMode (refreshRateHintStr r) e] = [(refreshRateHintStr r, e)].
Proof.
  unfold refresh_rate_requests. cbn [set_mode_calls omap list_omap].
  change (omap _ []) with (@nil (string * bool)).
  rewrite filter_cons_True by apply refreshRateHintStr_not_idle. done.
Qed.

Lemma refresh_rate_requests_idle idle :
  Forall (λ c, c = IsModeSupported "DISPLAY_IDLE" ∨ ∃ e, c = SetMode "DISPLAY_IDLE" e) idle ->
  refresh_rate_requests idle = [].
Proof.
  induction 1 as [|c idle [->|[e ->]] _ IH]; [done|exact IH|].
  change (SetMode "DISPLAY_IDLE" e :: idle) with ([SetMode "DISPLAY_IDLE" e] ++ idle).
  rewrite refresh_rate_requests_app, IH. done.
Qed.

(** The functions that update the hints leave alone what the signals
    write. *)
Lemma sendPowerHalExtHint_signalled (hal : PowerHalExt) mode e w ret w' :
  sendPowerHalExtHint mode e w = (ret, w') -> signalled w' = signalled w.
Proof.
  unfold sendPowerHalExtHint, connectPowerHalExt.
  repeat (case_match || case_decide); intros; simplify_eq/=; done.
Qed.

Lemma checkPowerHalExtHintSupport_signalled (hal : PowerHalExt) mode w ret w' :
  checkPowerHalExtHintSupport mode w = (ret, w') -> signalled w' = signalled w.
Proof.
  unfold checkPowerHalExtHintSupport, connectPowerHalExt.
  repeat (case_match || case_decide); intros; simplify_eq/=; done.
Qed.

Lemma sendRefreshRateHint_signalled (hal : PowerHalExt) r e w ret w' :
  sendRefreshRateHint r e w = (ret, w') -> signalled w' = signalled w.
Proof.
  unfold sendRefreshRateHint.
  destruct (sendPowerHalExtHint _ _ w) as [r0 w0] eqn:E0.
  apply sendPowerHalExtHint_signalled in E0. case_decide; intros [= <- <-]; done.
Qed.

Lemma checkRefreshRateHintSupport_signalled (hal : PowerHalExt) r w ret w' :
  checkRefreshRateHintSupport r w = (ret, w') -> signalled w' = signalled w.
Proof.
  unfold checkRefreshRateHintSupport.
  destruct (_ !! r) as [[]|]; [by intros [= <- <-]..|].
  destruct (checkPowerHalExtHintSupport _ w) as [r0 w0] eqn:E0.
  apply checkPowerHalExtHintSupport_signalled in E0. case_decide; intros [= <- <-]; done.
Qed.

Lemma updateIdleHint_signalled (hal : PowerHalExt) now deadlineTime w ret w' :
  updateIdleHint now deadlineTime w = (ret, w') ->
  signalled w' = signalled w
  ∧ mRefreshRateHintSupportMap w' = mRefreshRateHintSupportMap w.
Proof.
  unfold updateIdleHint, checkIdleHintSupport.
  destruct (mIdleHintSupportIsChecked w).
  - destruct (decide (_ ≠ NO_ERROR)); [by intros [= <- <-]|].
    destruct (decide (mIdleHintIsEnabled w ≠ _)); [|by intros [= <- <-]].
    destruct (sendPowerHalExtHint _ _ w) as [r1 w1] eqn:E1.
    pose proof (sendPowerHalExtHint_signalled _ _ _ _ _ _ E1).
    apply sendPowerHalExtHint_fields in E1 as (_ & _ & _ & _ & _ & ?).
    destruct (decide (r1 = NO_ERROR)); intros [= <- <-]; done.
  - destruct (checkPowerHalExtHintSupport _ w) as [r0 w0] eqn:E0.
    pose proof (checkPowerHalExtHintSupport_signalled _ _ _ _ _ E0) as Hs0.
    apply checkPowerHalExtHintSupport_fields in E0 as (_ & _ & _ & _ & _ & Hm0).
    destruct (decide (r0 = NO_ERROR)) as [->|?].
    + rewrite decide_False by (by intros ?). cbn [mIdleHintIsEnabled set_idle_support].
      destruct (decide (mIdleHintIsEnabled w0 ≠ _)); [|by intros [= <- <-]].
      destruct (sendPowerHalExtHint _ _ _) as [r1 w1] eqn:E1.
      pose proof (sendPowerHalExtHint_signalled _ _ _ _ _ _ E1) as Hs1.
      apply sendPowerHalExtHint_fields in E1 as (_ & _ & _ & _ & _ & Hm1).
      destruct (decide (r1 = NO_ERROR)); intros [= <- <-]; unfold signalled in *;
        cbn in *; split; congruence.
    + destruct (decide (r0 = - EOPNOTSUPP)) as [->|?].
      * rewrite decide_True by done. by intros [= <- <-].
      * rewrite decide_True by done. by intros [= <- <-].
Qed.

Lemma updateRefreshRateHintInternal_signalled (hal : PowerHalExt) powerMode vsyncPeriod
    w ret w' :
  updateRefreshRateHintInternal powerMode vsyncPeriod w = Some (ret, w') ->
  signalled w' = signalled w.
Proof.
  assert (∀ w ret w', updateRefreshRateHint_switch powerMode vsyncPeriod w = Some (ret, w') ->
            signalled w' = signalled w) as Hswitch.
  { clear. intros w ret w'. unfold updateRefreshRateHint_switch.
    repeat
      match goal with
      | |- context [sendRefreshRateHint ?r ?e ?x] =>
          let E := fresh "E" in
          destruct (sendRefreshRateHint r e x) as [? ?] eqn:E;
          apply sendRefreshRateHint_signalled in E
      | |- context [checkRefreshRateHintSupport ?r ?x] =>
          let E := fresh "E" in
          destruct (checkRefreshRateHintSupport r x) as [? ?] eqn:E;
          apply checkRefreshRateHintSupport_signalled in E
      | |- context [decide ?P] => destruct (decide P)
      | |- context [refreshRateOf ?v] => destruct (refreshRateOf v)
      end; intros; unfold signalled in *; simplify_eq/=; congruence. }
  unfold updateRefreshRateHintInternal.
  destruct (decide (_ ≠ 0)); [|apply Hswitch].
  destruct (sendRefreshRateHint _ _ w) as [r0 w0] eqn:E0.
  apply sendRefreshRateHint_signalled in E0.
  destruct (decide (r0 = NO_ERROR)); [|by intros [= <- <-]].
  intros Hsw%Hswitch. by rewrite Hsw.
Qed.

(** The signals leave alone what the worker has on record and what it
    has asked of the service. *)
Lemma take_signal_record sg w :
  hal_calls (take_signal sg w) = hal_calls w
  ∧ mPrevRefreshRate (take_signal sg w) = mPrevRefreshRate w
  ∧ mPendingPrevRefreshRate (take_signal sg w) = mPendingPrevRefreshRate w
  ∧ mRefreshRateHintSupportMap (take_signal sg w) = mRefreshRateHintSupportMap w.
Proof. destruct sg; cbn; [done|]. unfold signalIdle. by case_match. Qed.

Lemma take_signal_quiet sg w :
  mNeedUpdateRefreshRateHint (take_signal sg w) = false ->
  signalled (take_signal sg w) = signalled w.
Proof. destruct sg; cbn; [done|]. unfold signalIdle. by case_match. Qed.

Lemma take_signals_snoc sgs sg w :
  take_signals (sgs ++ [sg]) w = take_signal sg (take_signals sgs w).
Proof. unfold take_signals. by rewrite foldl_snoc. Qed.

Lemma take_signals_quiet sgs w :
  mNeedUpdateRefreshRateHint (take_signals sgs w) = false ->
  signalled (take_signals sgs w) = signalled w.
Proof.
  induction sgs as [|sg sgs IH] using rev_ind; [done|].
  rewrite take_signals_snoc. intros Hneed.
  pose proof (take_signal_quiet _ _ Hneed) as Hq. rewrite Hq. apply IH.
  unfold signalled in Hq. congruence.
Qed.

Lemma take_signal_consistent sg w : rated sg -> consistent w -> consistent (take_signal sg w).
Proof.
  intros Hsg (Hon & Hq & Hrate). unfold consistent, recorded_hints.
  destruct (take_signal_record sg w) as (-> & -> & -> & _).
  split_and!; [done..|].
  destruct sg as [powerMode vsyncPeriod|now]; [exact Hsg|].
  unfold take_signal, signalIdle. case_match; exact Hrate.
Qed.

Lemma take_signal_settled sg w : settled w -> settled (take_signal sg w).
Proof.
  intros (Hall & Hrate). unfold settled.
  destruct (take_signal_record sg w) as (_ & Hp & _ & ->). split; [done|].
  intros Hneed. pose proof (take_signal_quiet _ _ Hneed) as Hq.
  unfold signalled_rate. rewrite Hp. unfold signalled in Hq.
  injection Hq as Hq1 Hq2 Hq3. rewrite Hq2, Hq3. apply Hrate. congruence.
Qed.

Lemma take_signals_consistent sgs w :
  Forall rated sgs -> consistent w -> consistent (take_signals sgs w).
Proof.
  induction sgs as [|sg sgs IH] using rev_ind; [intros _ Hw; exact Hw|].
  intros [Hsgs Hsg]%Forall_app Hw. rewrite take_signals_snoc.
  apply take_signal_consistent; [by inversion Hsg|]. by apply IH.
Qed.

Lemma take_signals_settled sgs w : settled w -> settled (take_signals sgs w).
Proof.
  induction sgs as [|sg sgs IH] using rev_ind; [intros Hw; exact Hw|].
  intros Hw. rewrite take_signals_snoc. by apply take_signal_settled, IH.
Qed.

Lemma take_signals_record sgs w :
  hal_calls (take_signals sgs w) = hal_calls w
  ∧ mPrevRefreshRate (take_signals sgs w) = mPrevRefreshRate w
  ∧ mPendingPrevRefreshRate (take_signals sgs w) = mPendingPrevRefreshRate w
  ∧ mRefreshRateHintSupportMap (take_signals sgs w) = mRefreshRateHintSupportMap w.
Proof.
  induction sgs as [|sg sgs IH] using rev_ind; [done|].
  rewrite take_signals_snoc.
  destruct (take_signal_record sg (take_signals sgs w)) as (-> & -> & -> & ->). done.
Qed.

(** [Routine], taken apart: the wait, the idle hint, the refresh-rate
    hint. *)
Lemma Routine_steps (hal : PowerHalExt) env w w' :
  Routine env w = Some w' ->
  ∃ w1,
    (w1 = w ∨ w1 = take_signals (waitSignals env) w)
    ∧ (w' = w1
       ∨ ∃ ret0 w4,
           updateIdleHint (idleTime env) (mIdleHintDeadlineTime w1)
             (take_signals (updateSignals env) (set_need false w1)) = (ret0, w4)
           ∧ (mNeedUpdateRefreshRateHint w1 = false ∧ w' = w4
              ∨ mNeedUpdateRefreshRateHint w1 = true
                ∧ ∃ rc w5,
                    updateRefreshRateHintInternal (mPowerModeState w1) (mVsyncPeriod w1) w4
                    = Some (rc, w5)
                    ∧ (w' = take_signals (retrySignals env) w5
                       ∨ rc ≠ NO_ERROR
                         ∧ w' = set_need true (take_signals (retrySignals env) w5)))).
Proof.
  unfold Routine.
  match goal with
  | |- (let '(_, _) := ?x in _) = _ -> _ => destruct x as [ret w1] eqn:Hwait
  end.
  intros Hrun. exists w1. split.
  { repeat case_match; simplify_eq; auto. }
  clear Hwait. destruct (decide (ret = - EINTR)); [left; congruence|right].
  cbv zeta in Hrun.
  destruct (updateIdleHint _ _ _) as [ret0 w4] eqn:Hidle. exists ret0, w4.
  split; [done|].
  destruct (mNeedUpdateRefreshRateHint w1); [right|left; split; congruence].
  split; [done|].
  destruct (updateRefreshRateHintInternal _ _ w4) as [[rc w5]|]; [|done].
  exists rc, w5. split; [done|].
  destruct (decide (rc = NO_ERROR)) as [->|Hrc].
  { left. rewrite decide_False in Hrun by (by intros [? _]). congruence. }
  repeat case_decide; simplify_eq; auto.
Qed.

Section Accepting.

Context (hal : PowerHalExt) (Haccepting : accepting hal).

Lemma sendRefreshRateHint_accepted r e w :
  ∃ w', sendRefreshRateHint r e w = (NO_ERROR, w')
    ∧ refresh_rate_requests (hal_calls w')
      = refresh_rate_requests (hal_calls w) ++ [(refreshRateHintStr r, e)]
    ∧ mPrevRefreshRate w' = mPrevRefreshRate w
    ∧ mPendingPrevRefreshRate w' = mPendingPrevRefreshRate w
    ∧ mRefreshRateHintSupportMap w' = mRefreshRateHintSupportMap w.
Proof.
  assert (∃ w', sendRefreshRateHint r e w = (NO_ERROR, w')) as [w' E].
  { destruct Haccepting as (Hbinder & _ & Hset).
    unfold sendRefreshRateHint, sendPowerHalExtHint, connectPowerHalExt.
    destruct (decide (refreshRateHintStr r = "")) as [E|_];
      [by destruct (refreshRateHintStr_nonempty r)|].
    rewrite Hbinder.
    destruct (mPowerHalExtAidl w); cbn; rewrite Hset; cbn; by eexists. }
  exists w'. split; [done|].
  pose proof (sendRefreshRateHint_sent _ _ _ _ _ E) as [_ Hc Hp Hq|?|?]; [|done..].
  rewrite Hc, refresh_rate_requests_app, refresh_rate_requests_hint.
  split_and!; [done..|].
  unfold sendRefreshRateHint in E.
  destruct (sendPowerHalExtHint _ _ w) as [r0 w0] eqn:E0.
  apply sendPowerHalExtHint_fields in E0 as (_ & _ & _ & _ & _ & Hm).
  revert E. case_decide; intros [= _ <-]; done.
Qed.

Lemma checkRefreshRateHintSupport_accepted r w ret w' :
  checkRefreshRateHintSupport r w = (ret, w') ->
  (ret = NO_ERROR ∨ ret = - EOPNOTSUPP)
  ∧ refresh_rate_requests (hal_calls w') = refresh_rate_requests (hal_calls w)
  ∧ mPrevRefreshRate w' = mPrevRefreshRate w
  ∧ mPendingPrevRefreshRate w' = mPendingPrevRefreshRate w
  ∧ (supporting hal ->
     map_Forall (λ _ b, b = true) (mRefreshRateHintSupportMap w) ->
     ret = NO_ERROR ∧ map_Forall (λ _ b, b = true) (mRefreshRateHintSupportMap w')).
Proof.
  intros E.
  pose proof (checkRefreshRateHintSupport_calls _ _ _ _ E) as (Hp & Hq & cs & Hc & Hs).
  assert (refresh_rate_requests (hal_calls w') = refresh_rate_requests (hal_calls w)) as Hr.
  { assert (refresh_rate_requests cs = []) as Hnone
      by (unfold refresh_rate_requests; by rewrite Hs).
    by rewrite Hc, refresh_rate_requests_app, Hnone, app_nil_r. }
  cut ((ret = NO_ERROR ∨ ret = - EOPNOTSUPP)
       ∧ (supporting hal ->
          map_Forall (λ _ b, b = true) (mRefreshRateHintSupportMap w) ->
          ret = NO_ERROR ∧ map_Forall (λ _ b, b = true) (mRefreshRateHintSupportMap w')));
    [intros [? ?]; by split_and!|].
  clear Hp Hq cs Hc Hs Hr. revert E.
  destruct Haccepting as (Hbinder & Hquery & _).
  unfold checkRefreshRateHintSupport, checkPowerHalExtHintSupport, connectPowerHalExt.
  destruct (_ !! r) as [b|] eqn:Hr.
  { destruct b; intros [= <- <-]; (split; [by auto|]).
    - done.
    - intros _ Hall. by specialize (Hall _ _ Hr). }
  destruct (decide (refreshRateHintStr r = "")) as [E|_];
    [by destruct (refreshRateHintStr_nonempty r)|].
  rewrite Hbinder.
  assert (NO_ERROR = NO_ERROR ∨ NO_ERROR = - EOPNOTSUPP) as Hl by (by left).
  assert (- EOPNOTSUPP = NO_ERROR ∨ - EOPNOTSUPP = - EOPNOTSUPP) as Hr' by (by right).
  destruct (mPowerHalExtAidl w); cbn;
    match goal with
    | |- context [isModeSupported ?cs ?m] =>
        pose proof (Hquery cs m) as Hst;
        destruct (isModeSupported cs m) as [st sup] eqn:Hsup
    end; cbn in Hst; subst st; destruct sup; cbn;
    rewrite ?(decide_True _ _ Hl), ?(decide_True _ _ Hr');
    intros [= <- <-]; cbn; (split; [by auto|]).
  - intros _ Hall. split; [done|]. by apply map_Forall_insert_2.
  - intros Hs. specialize (Hs (hal_calls w) (refreshRateHintStr r)). by rewrite Hsup in Hs.
  - intros _ Hall. split; [done|]. by apply map_Forall_insert_2.
  - intros Hs. specialize (Hs (hal_calls w) (refreshRateHintStr r)). by rewrite Hsup in Hs.
Qed.

(** What one round keeps true at an accepting service. *)
Lemma updateRefreshRateHintInternal_accepted powerMode vsyncPeriod w ret w' :
  (powerMode = HWC2.On -> refreshRateOf vsyncPeriod ≠ Some 0) ->
  mPendingPrevRefreshRate w = 0 ->
  hints_on (refresh_rate_requests (hal_calls w)) = recorded_hints w ->
  updateRefreshRateHintInternal powerMode vsyncPeriod w = Some (ret, w') ->
  mPendingPrevRefreshRate w' = 0
  ∧ hints_on (refresh_rate_requests (hal_calls w')) = recorded_hints w'
  ∧ (supporting hal ->
     map_Forall (λ _ b, b = true) (mRefreshRateHintSupportMap w) ->
     map_Forall (λ _ b, b = true) (mRefreshRateHintSupportMap w')
     ∧ Some (mPrevRefreshRate w') =
         if decide (powerMode = HWC2.On) then refreshRateOf vsyncPeriod else Some 0).
Proof.
  intros Hrate Hq Hon.
  unfold updateRefreshRateHintInternal, updateRefreshRateHint_switch.
  rewrite decide_False by (rewrite Hq; by intros ?).
  destruct (decide (powerMode = HWC2.On)) as [->|Hoff].
  - rewrite (decide_False (P := HWC2.On ≠ HWC2.On)) by (by intros ?).
    specialize (Hrate eq_refl).
    destruct (refreshRateOf vsyncPeriod) as [rate|]; [|done].
    assert (rate ≠ 0) as Hrate0 by congruence. clear Hrate.
    destruct (decide (mPrevRefreshRate w = _)) as [Hsame|Hdiff].
    { intros [= <- <-]. split_and!; [done..|]. intros _ Hall. split; [done|]. by f_equal. }
    destruct (checkRefreshRateHintSupport _ w) as [r1 w1] eqn:E1.
    apply checkRefreshRateHintSupport_accepted in E1 as (Hr1 & Hc1 & Hp1 & Hq1 & Hs1).
    destruct (decide (r1 ≠ NO_ERROR)) as [Hbad|Hok].
    { intros [= <- <-]. unfold recorded_hints. rewrite Hc1, Hp1, Hq1. split_and!; [done..|].
      intros Hsup Hall. by destruct (Hs1 Hsup Hall). }
    assert (r1 = NO_ERROR) as -> by (by destruct (decide (r1 = NO_ERROR))).
    destruct (sendRefreshRateHint_accepted rate true w1)
      as (w2 & -> & Hc2 & Hp2 & Hq2 & Hm2).
    rewrite (decide_False (P := NO_ERROR ≠ NO_ERROR)) by (by intros ?).
    destruct (decide (mPrevRefreshRate w2 ≠ 0)) as [Hprev|Hprev].
    + destruct (sendRefreshRateHint_accepted (mPrevRefreshRate w2) false w2)
        as (w3 & -> & Hc3 & Hp3 & Hq3 & Hm3).
      rewrite (decide_False (P := NO_ERROR ≠ NO_ERROR)) by (by intros ?).
      intros [= <- <-]. unfold recorded_hints.
      cbn [set_rates mPendingPrevRefreshRate mPrevRefreshRate hal_calls
           mRefreshRateHintSupportMap].
      rewrite (decide_False (P := rate = 0)) by done.
      rewrite Hq3, Hq2, Hq1, Hc3, Hc2, Hc1, !hints_on_snoc, Hon.
      unfold recorded_hints. rewrite Hp2, Hp1 in *. rewrite decide_False by done.
      split_and!; [done| |].
      * assert (refreshRateHintStr (mPrevRefreshRate w) ≠ refreshRateHintStr rate)
          by (intros ?%refreshRateHintStr_inj; done).
        apply set_eq. intros x. set_unfold. intuition congruence.
      * intros Hsup Hall. rewrite Hm3, Hm2. by destruct (Hs1 Hsup Hall).
    + intros [= <- <-]. unfold recorded_hints.
      cbn [set_rates mPendingPrevRefreshRate mPrevRefreshRate hal_calls
           mRefreshRateHintSupportMap].
      rewrite (decide_False (P := rate = 0)) by done.
      rewrite Hq2, Hq1, Hc2, Hc1, !hints_on_snoc, Hon.
      unfold recorded_hints. rewrite Hp2, Hp1 in *.
      rewrite decide_True by (by destruct (decide (mPrevRefreshRate w = 0))).
      split_and!; [done|apply set_eq; intros x; set_unfold; intuition congruence|].
      intros Hsup Hall. rewrite Hm2. by destruct (Hs1 Hsup Hall).
  - rewrite (decide_True (P := powerMode ≠ HWC2.On)) by done.
    destruct (decide (mPrevRefreshRate w ≠ 0)) as [Hprev|Hprev].
    + destruct (sendRefreshRateHint_accepted (mPrevRefreshRate w) false w)
        as (w1 & -> & Hc1 & Hp1 & Hq1 & Hm1).
      rewrite decide_True by done. intros [= <- <-]. unfold recorded_hints.
      cbn [set_rates mPendingPrevRefreshRate mPrevRefreshRate hal_calls
           mRefreshRateHintSupportMap].
      rewrite (decide_True (P := 0 = 0)) by done.
      rewrite Hq1, Hc1, hints_on_snoc, Hon. unfold recorded_hints.
      rewrite decide_False by done.
      split_and!; [done|apply set_eq; intros x; set_unfold; intuition congruence|].
      intros _ Hall. by rewrite Hm1.
    + intros [= <- <-]. split_and!; [done..|]. intros _ Hall. split; [done|].
      f_equal. by destruct (decide (mPrevRefreshRate w = 0)).
Qed.

Lemma set_need_consistent need w : consistent w -> consistent (set_need need w).
Proof. intros Hw. exact Hw. Qed.

Lemma updateIdleHint_consistent now deadlineTime w ret w' :
  updateIdleHint now deadlineTime w = (ret, w') -> consistent w -> consistent w'.
Proof.
  intros E (Hon & Hq & Hrate).
  pose proof (updateIdleHint_signalled _ _ _ _ _ _ E) as [Hs _].
  apply updateIdleHint_calls in E as (Hp' & Hq' & idle & Hc & Hidle).
  unfold consistent, recorded_hints.
  rewrite Hc, refresh_rate_requests_app, (refresh_rate_requests_idle idle Hidle), app_nil_r.
  rewrite Hp', Hq'. split_and!; [done..|].
  unfold signalled in Hs. injection Hs as _ -> ->. exact Hrate.
Qed.

Lemma rated_signalled w :
  rated (SignalRefreshRate (mPowerModeState w) (mVsyncPeriod w)) ->
  mPowerModeState w = HWC2.On -> refreshRateOf (mVsyncPeriod w) ≠ Some 0.
Proof. intros Hr Hon. by rewrite Hon in Hr. Qed.

Lemma Routine_consistent env w w' :
  Forall rated (signals_of (Round env)) ->
  consistent w -> Routine env w = Some w' -> consistent w'.
Proof.
  intros Hsigs Hw Hrun. cbn [signals_of] in Hsigs.
  apply Forall_app in Hsigs as [Hwait [Hupdate Hretry]%Forall_app].
  - apply Routine_steps in Hrun
      as (w1 & Hw1 & [->|(ret0 & w4 & Hidle & Hrest)]).
    + destruct Hw1 as [->| ->]; [done|by apply take_signals_consistent].
    + assert (consistent w1) as Hc1
        by (destruct Hw1 as [->| ->]; [done|by apply take_signals_consistent]).
      assert (consistent w4) as Hc4.
      { eapply updateIdleHint_consistent; [exact Hidle|].
        by apply take_signals_consistent, set_need_consistent. }
      destruct Hrest as [[_ ->]|(_ & rc & w5 & Hupd & Hw')]; [done|].
      assert (consistent w5) as Hc5.
      { destruct Hc4 as (Hon4 & Hq4 & Hr4).
        destruct (updateRefreshRateHintInternal_accepted _ _ _ _ _
                    (rated_signalled w1 (proj2 (proj2 Hc1))) Hq4 Hon4 Hupd) as (Hq5 & Hon5 & _).
        split_and!; [done..|].
        apply updateRefreshRateHintInternal_signalled in Hupd.
        unfold signalled in Hupd. injection Hupd as _ -> ->. exact Hr4. }
      destruct Hw' as [->|[_ ->]];
        [|apply set_need_consistent]; by apply take_signals_consistent.
Qed.

Lemma Routine_settled env w w' :
  supporting hal ->
  Forall rated (signals_of (Round env)) ->
  consistent w -> settled w -> Routine env w = Some w' -> settled w'.
Proof.
  intros Hsup Hsigs Hw Hs Hrun. cbn [signals_of] in Hsigs.
  apply Forall_app in Hsigs as [Hwait [Hupdate Hretry]%Forall_app].
  apply Routine_steps in Hrun as (w1 & Hw1 & Hrest).
  assert (consistent w1) as Hc1
    by (destruct Hw1 as [->| ->]; [done|by apply take_signals_consistent]).
  assert (settled w1) as Hs1
    by (destruct Hw1 as [->| ->]; [done|by apply take_signals_settled]).
  destruct Hrest as [->|(ret0 & w4 & Hidle & Hrest)]; [done|].
  pose proof (take_signals_record (updateSignals env) (set_need false w1))
    as (Hc3 & Hp3 & Hq3 & Hm3).
  pose proof (updateIdleHint_signalled _ _ _ _ _ _ Hidle) as [Hsig4 Hm4].
  pose proof (updateIdleHint_calls _ _ _ _ _ Hidle) as (Hp4 & Hq4 & _).
  assert (consistent w4) as Hc4.
  { eapply updateIdleHint_consistent; [exact Hidle|].
    by apply take_signals_consistent, set_need_consistent. }
  destruct Hrest as [[Hneed1 ->]|(Hneed1 & rc & w5 & Hupd & Hw')].
  - (* no update was due *)
    destruct Hs1 as [Hall1 Hrate1]. split; [by rewrite Hm4, Hm3|].
    intros Hneed4.
    assert (signalled w4 = signalled w1) as Hsig.
    { rewrite Hsig4. rewrite take_signals_quiet.
      - unfold signalled. cbn. by rewrite Hneed1.
      - unfold signalled in Hsig4. congruence. }
    unfold signalled_rate. unfold signalled in Hsig. injection Hsig as _ -> ->.
    rewrite Hp4, Hp3. by apply Hrate1.
  - (* the update for the power mode and the period of [w1] *)
    destruct Hc4 as (Hon4 & Hq4' & Hr4).
    destruct (updateRefreshRateHintInternal_accepted _ _ _ _ _
                (rated_signalled w1 (proj2 (proj2 Hc1))) Hq4' Hon4 Hupd) as (_ & _ & Hdone).
    destruct Hdone as [Hall5 Hprev5]; [done|by rewrite Hm4, Hm3; apply Hs1|].
    pose proof (updateRefreshRateHintInternal_signalled _ _ _ _ _ _ Hupd) as Hsig5.
    pose proof (take_signals_record (retrySignals env) w5) as (_ & Hp6 & _ & Hm6).
    assert (settled (take_signals (retrySignals env) w5)) as Hs6.
    { split; [by rewrite Hm6|]. intros Hneed6.
      pose proof (take_signals_quiet _ _ Hneed6) as Hsig6.
      assert (mNeedUpdateRefreshRateHint
                (take_signals (updateSignals env) (set_need false w1)) = false) as Hneed3.
      { unfold signalled in Hsig6, Hsig5, Hsig4. congruence. }
      pose proof (take_signals_quiet _ _ Hneed3) as Hsig3.
      unfold signalled_rate. rewrite Hp6, Hprev5.
      unfold signalled in Hsig6, Hsig5, Hsig4, Hsig3. cbn in Hsig3.
      assert (mPowerModeState (take_signals (retrySignals env) w5) = mPowerModeState w1)
        as -> by congruence.
      assert (mVsyncPeriod (take_signals (retrySignals env) w5) = mVsyncPeriod w1)
        as -> by congruence.
      done. }
    destruct Hw' as [->|[_ ->]]; [done|].
    destruct Hs6 as [Hall6 _]. split; [done|]. by intros ?.
Qed.

Lemma run_consistent steps w w' :
  Forall (λ step, Forall rated (signals_of step)) steps ->
  consistent w -> run steps w = Some w' ->
  consistent w' ∧ (supporting hal -> settled w -> settled w').
Proof.
  intros Hsteps. revert w.
  induction Hsteps as [|step steps Hstep _ IH]; intros w Hw.
  { intros [= <-]. done. }
  destruct step as [sg|env]; cbn [run].
  - intros Hrun. assert (rated sg) as Hsg by (by inversion Hstep).
    destruct (IH _ (take_signal_consistent sg w Hsg Hw) Hrun) as [Hc Hs].
    split; [done|]. intros Hsup Hsw. by apply Hs, take_signal_settled.
  - destruct (Routine env w) as [w1|] eqn:Hround; [|done]. intros Hrun.
    destruct (IH _ (Routine_consistent env w w1 Hstep Hw Hround) Hrun) as [Hc Hs].
    split; [done|]. intros Hsup Hsw. apply Hs; [done|].
    exact (Routine_settled env w w1 Hsup Hstep Hw Hsw Hround).
Qed.

End Accepting.

Lemma init_consistent : consistent PowerHalHintWorker_init ∧ settled PowerHalHintWorker_init.
Proof. split; [by split_and!|]. split; [apply map_Forall_empty|done]. Qed.

(** X6.  At a service that completes every transaction, whatever it says
    about support, the worker keeps its record and the service in step, in
    every run of the worker thread, whatever signals arrive and whenever:
    the refresh-rate hint that is on is the one on record, so that at most
    one is on, and none is pending.  (The rates signalled with the display
    on must not round to 0, which the record takes for no hint.) *)
Theorem refresh_rate_hint_on_is_recorded (hal : PowerHalExt) steps w :
  accepting hal ->
  Forall (λ step, Forall rated (signals_of step)) steps ->
  run steps PowerHalHintWorker_init = Some w ->
  hints_on (refresh_rate_requests (hal_calls w)) = recorded_hints w
  ∧ mPendingPrevRefreshRate w = 0.
Proof.
  intros Hacc Hsteps Hrun. destruct init_consistent as [Hc _].
  destruct (run_consistent hal Hacc steps _ _ Hsteps Hc Hrun) as [(? & ? & _) _]. done.
Qed.


(** *** The statements at work *)



Lemma idle_hint_sent_on_change_only_witness :
  updateIdleHint (hal := Situation.dead_hal) 300%N 250%N
    (updateIdleHint (hal := healthy_hal) 200%N 100%N PowerHalHintWorker_init).2
  = (NO_ERROR, (updateIdleHint (hal := healthy_hal) 200%N 100%N PowerHalHintWorker_init).2).
Proof.
  apply (idle_hint_sent_on_change_only healthy_hal Situation.dead_hal 200%N 100%N 300%N 250%N
           PowerHalHintWorker_init).
  - vm_compute. reflexivity.
  - reflexivity.
Defined.

Lemma power_off_only_disables_witness :
  ∃ w' new,
    updateRefreshRateHintInternal (hal := healthy_hal) HWC2.Off 16666666%N (worker_at 60 120)
    = Some (NO_ERROR, w')
    ∧ hal_calls w' = hal_calls (worker_at 60 120) ++ new
    ∧ Forall (λ c, ∃ mode, c = SetMode mode false) new
    ∧ mPrevRefreshRate w' = 0.
Proof.
  pose (w' := default (worker_at 60 120)
                (snd <$> updateRefreshRateHintInternal (hal := healthy_hal) HWC2.Off
                           16666666%N (worker_at 60 120))).
  assert (updateRefreshRateHintInternal (hal := healthy_hal) HWC2.Off 16666666%N
            (worker_at 60 120) = Some (NO_ERROR, w')) as Hrun by (vm_compute; reflexivity).
  destruct (power_off_only_disables healthy_hal HWC2.Off 16666666%N (worker_at 60 120)
              NO_ERROR w') as (new & Hcalls & Hnew & Hrates).
  - discriminate.
  - exact Hrun.
  - exists w', new. split_and!; [exact Hrun|exact Hcalls|exact Hnew|]. by apply Hrates.
Defined.

Lemma binder_failure_forgets_hints_witness :
  ∃ w',
    updateRefreshRateHintInternal (hal := Situation.crashing_hal) HWC2.On 11111111%N
      (worker_at 60 0) = Some (- ENOTCONN, w')
    ∧ mPowerHalExtAidl w' = false
    ∧ mPendingPrevRefreshRate w' = 0.
Proof.
  pose (w' := default (worker_at 60 0)
                (snd <$> updateRefreshRateHintInternal (hal := Situation.crashing_hal)
                           HWC2.On 11111111%N (worker_at 60 0))).
  assert (updateRefreshRateHintInternal (hal := Situation.crashing_hal) HWC2.On 11111111%N
            (worker_at 60 0) = Some (- ENOTCONN, w')) as Hrun by (vm_compute; reflexivity).
  destruct (binder_failure_forgets_hints Situation.crashing_hal HWC2.On 11111111%N
              (worker_at 60 0) w') as (Haidl & Hpending & _).
  - exact Hrun.
  - exists w'. split_and!; [exact Hrun|exact Haidl|exact Hpending].
Defined.

Lemma refresh_rate_hint_on_is_recorded_witness :
  ∃ w, run (hal := Situation.picky_hal) Situation.steps PowerHalHintWorker_init = Some w
    ∧ hints_on (refresh_rate_requests (hal_calls w)) = recorded_hints w
    ∧ mPendingPrevRefreshRate w = 0.
Proof.
  pose (w := default PowerHalHintWorker_init
               (run (hal := Situation.picky_hal) Situation.steps PowerHalHintWorker_init)).
  assert (run (hal := Situation.picky_hal) Situation.steps PowerHalHintWorker_init = Some w)
    as Hrun by (vm_compute; reflexivity).
  exists w. split; [exact Hrun|].
  apply (refresh_rate_hint_on_is_recorded Situation.picky_hal Situation.steps w).
  - split_and!; intros; reflexivity.
  - unfold Situation.steps.
    repeat (apply Forall_cons_2;
            [cbn [signals_of quiet waitSignals updateSignals retrySignals app];
             repeat (apply Forall_cons_2; [vm_compute; first [exact I|discriminate]|]);
             apply Forall_nil_2|]).
    apply Forall_nil_2.
  - exact Hrun.
Defined.


End PowerHintIdleProperties.

(** ** The session: slots, teardown and the client's calls *)

Section SessionExtras.

Import Session SessionTeardown.

Context {limits : HWCCallbacksLimits} {engine : DisplayEngine}.

#[local] Arguments HandleConcurrency : simpl never.
#[local] Arguments NonBuiltinConcurrency : simpl never.
#[local] Arguments DestroyDisplay : simpl never.
#[local] Arguments Refresh : simpl never.
#[local] Arguments settle_delay : simpl never.

(** *** Initialisation of the slot tables *)





(** *** Virtual displays *)

Lemma destroy_virtual_unknown display slots s :
  Forall (λ i, ∃ m, map_info_virtual_ s !! i = Some m ∧ client_id m ≠ display) slots ->
  destroy_virtual display slots s = Returned () s.
Proof.
  induction 1 as [|i slots (m & Hm & Hne) _ IH]; [done|].
  cbn. unfold load. unfold_monad. cbn. rewrite Hm. by rewrite decide_False.
Qed.

Lemma Forall_seq_lookup {A} (P : nat -> Prop) (l : list A) :
  (∀ i, i < length l -> P i)%nat -> Forall P (seq 0 (length l)).
Proof. intros H. apply Forall_seq. intros i [_ Hi]. by apply H. Qed.

(** X9.  [DestroyVirtualDisplay] for a display id that no virtual slot
    carries (the primary display, a pluggable display, an id never handed
    out) reports success and leaves the session as it is: nothing is
    destroyed and no concurrency decision is taken. *)
Theorem DestroyVirtualDisplay_unknown_id display s :
  (display < kNumDisplays)%N ->
  display ∉ client_id <$> map_info_virtual_ s ->
  DestroyVirtualDisplay true display s = Returned HWC2.None s.
Proof.
  intros Hlt Hnot. unfold DestroyVirtualDisplay. cbn.
  rewrite bool_decide_eq_false_2 by lia. unfold_monad. cbn.
  rewrite destroy_virtual_unknown; [done|].
  apply Forall_seq_lookup. intros i Hi.
  destruct (lookup_lt_is_Some_2 _ _ Hi) as [m Hm]. exists m. split; [done|].
  intros <-. apply Hnot. apply list_elem_of_fmap. exists m. split; [done|].
  by eapply list_elem_of_lookup_2.
Qed.

Lemma create_virtual_taken info slots s :
  Forall (λ i, ∃ m, map_info_virtual_ s !! i = Some m
                 ∧ is_Some (hwc_display_ s !! client_id m)) slots ->
  create_virtual info slots s = Returned (inr None) s.
Proof.
  induction 1 as [|i slots (m & Hm & [d Hd]) _ IH]; [done|].
  cbn. unfold load. unfold_monad. cbn. by rewrite Hm, Hd.
Qed.

Lemma create_virtuals_nothing infos out s :
  Forall (λ info, display_type info ≠ kVirtual) infos
  ∨ Forall (λ m, is_Some (hwc_display_ s !! client_id m)) (map_info_virtual_ s) ->
  create_virtuals infos out s = Returned (inr out) s.
Proof.
  intros Hnone. induction infos as [|info infos IH]; [done|].
  cbn [create_virtuals].
  destruct (decide (display_type info ≠ kVirtual)) as [|Hv].
  { apply IH. destruct Hnone as [Hnone|]; [|by right]. left. by inversion Hnone. }
  destruct Hnone as [Hnone|Htaken]; [by inversion Hnone|].
  unfold_monad. cbn. rewrite create_virtual_taken; [by apply IH; right|].
  apply Forall_seq_lookup. intros i Hi.
  destruct (lookup_lt_is_Some_2 _ _ Hi) as [m Hm]. exists m. split; [done|].
  by eapply (Forall_lookup_1 _ _ _ _ Htaken).
Qed.

(** X10.  [CreateVirtualDisplayObj] reports success without creating
    anything when the hardware lists no virtual display or every virtual
    slot holds a display: it returns [HWC2::Error::None], the id behind
    [out_display_id] is the one the caller had put there, and the only
    change is that the primary display is marked for revalidation. *)
Theorem CreateVirtualDisplayObj_nothing_to_create s c infos dp out_display_id :
  client_connected_ s = true ->
  core_intf_ s = Some c ->
  GetDisplaysStatus c = Some infos ->
  Forall (λ info, display_type info ≠ kVirtual) infos
  ∨ Forall (λ m, is_Some (hwc_display_ s !! client_id m)) (map_info_virtual_ s) ->
  hwc_display_ s !! HWC_DISPLAY_PRIMARY = Some dp ->
  sequence_pending (lock_ops HWC_DISPLAY_PRIMARY s) = false ->
  ∃ s', CreateVirtualDisplayObj out_display_id s = Returned (HWC2.None, out_display_id) s'
    ∧ hwc_display_ s' = <[HWC_DISPLAY_PRIMARY := ResetValidation dp]> (hwc_display_ s)
    ∧ map_info_virtual_ s' = map_info_virtual_ s
    ∧ events_ s' = events_ s.
Proof.
  intros Hconn Hcore Hstatus Hnone Hdp Hseq.
  unfold CreateVirtualDisplayObj, core, reset_primary_validation, deref, scope_lock.
  unfold_monad. cbn. rewrite Hconn. cbn. rewrite Hcore. cbn. rewrite Hstatus.
  rewrite create_virtuals_nothing by done. cbn. rewrite Hseq. cbn. rewrite Hdp.
  eexists. split; [reflexivity|]. done.
Qed.

(** *** Power mode *)

Lemma preserved_assign_ignored {X} (f : HWCSession -> X) r g :
  (∀ v s, f (set_map_info_primary_ v s) = f s) ->
  (∀ v s, f (set_map_info_builtin_ v s) = f s) ->
  (∀ v s, f (set_map_info_pluggable_ v s) = f s) ->
  (∀ v s, f (set_map_info_virtual_ v s) = f s) ->
  preserved f (assign r g).
Proof. intros ? ? ? ? s. destruct r; cbn; done. Qed.

(** X11.  A [SetPowerMode] that returns [HWC2_ERROR_NONE] leaves the
    display's bit of [pending_refresh_] set exactly for doze mode, whatever
    the bit was before, and the bits of the other displays as they were; for
    doze mode it has also delivered one refresh of that display to the
    client. *)
Theorem SetPowerMode_pending_refresh_bit device display int_mode s s' :
  SetPowerMode device display int_mode s = Returned HWC2.None s' ->
  pending_refresh_ s' =
    (if decide (int_mode = 1) then N.setbit (pending_refresh_ s) display
     else N.clearbit (pending_refresh_ s) display)
  ∧ delivered_ (callbacks_ s') =
      delivered_ (callbacks_ s) ++ (if decide (int_mode = 1) then [CbRefresh display] else []).
Proof.
  unfold SetPowerMode.
  destruct (decide (kNumDisplays ≤ display)%N); [done|].
  destruct (_ || _ || _) eqn:Hargs; [done|].
  apply orb_false_elim in Hargs as [Hargs Hhi]. apply orb_false_elim in Hargs as [_ Hlo].
  apply bool_decide_eq_false_1 in Hhi, Hlo.
  rewrite bind_returned. intros (? & ? & [= <- <-] & Hrun). revert Hrun.
  destruct (_ && _); [done|].
  rewrite bind_returned. intros (error & s1 & Hcall & Hrun). revert Hrun.
  destruct (decide (error ≠ HWC2.None)) as [|_]; [by intros [= ? ?]|].
  rewrite bind_returned. intros ([] & s2 & Hhc & Hrun). revert Hrun.
  rewrite bind_returned. intros ([] & s3 & Hbit & Hrun). revert Hrun.
  rewrite bind_returned. intros ([] & s4 & Hhint & [= <-]).
  assert (pending_refresh_ s2 = pending_refresh_ s ∧ callbacks_ s2 = callbacks_ s)
    as [Hp2 Hc2].
  { split.
    - transitivity (pending_refresh_ s1).
      + eapply preserved_returned; [by apply preserved_HandleConcurrency|exact Hhc].
      + eapply preserved_returned; [by apply preserved_CallDisplayFunction|exact Hcall].
    - transitivity (callbacks_ s1).
      + eapply preserved_returned; [by apply preserved_HandleConcurrency|exact Hhc].
      + eapply preserved_returned; [by apply preserved_CallDisplayFunction|exact Hcall]. }
  assert (pending_refresh_ s4 = pending_refresh_ s3 ∧ callbacks_ s4 = callbacks_ s3)
    as [-> ->].
  { split; (eapply preserved_returned; [by apply preserved_updateRefreshRateHint|exact Hhint]). }
  rewrite <-Hp2, <-Hc2. clear Hcall Hhc Hhint Hp2 Hc2.
  unfold PowerMode_of in Hbit.
  destruct (decide (int_mode = 1)) as [->|Hne].
  - cbn in Hbit. revert Hbit. unfold Refresh, callbacks_Refresh. unfold_monad. cbn.
    rewrite decide_True by done. cbn.
    destruct (on_refresh_ (callbacks_ s2)); cbn; [|done]. by intros [= <-].
  - revert Hbit. repeat case_decide; try done; unfold_monad; cbn; intros [= <-]; cbn;
      by rewrite app_nil_r.
Qed.

(** *** Registration of the hotplug callback *)

Lemma notify_all_connected_delivers disps s :
  on_hotplug_ (callbacks_ s) = true ->
  ∃ s', notify_all_connected disps s = Returned () s'
    ∧ delivered_ (callbacks_ s') =
        delivered_ (callbacks_ s)
        ++ ((λ disp, CbHotplug disp HWC2.Connected)
              <$> filter (λ disp, is_Some (hwc_display_ s !! disp)) disps)
    ∧ hwc_display_ s' = hwc_display_ s
    ∧ client_connected_ s' = client_connected_ s
    ∧ need_invalidate_ s' = need_invalidate_ s.
Proof.
  revert s. induction disps as [|disp disps IH]; intros s Hreg.
  - exists s. cbn. by rewrite app_nil_r.
  - cbn [notify_all_connected]. rewrite filter_cons.
    unfold notify_hotplug, callbacks_Hotplug. unfold_monad.
    cbn [callbacks_ set_callbacks_ snd].
    destruct (hwc_display_ s !! disp) as [d|] eqn:Hd.
    + rewrite decide_True by eauto. rewrite Hreg.
      match goal with |- context [notify_all_connected disps ?s1] =>
        destruct (IH s1) as (s' & -> & Hdel & Hmap & Hconn & Hinv); [done|] end.
      cbn in Hdel, Hmap, Hconn, Hinv. exists s'. split; [done|].
      rewrite Hdel, Hmap, <-(assoc_L (++)). done.
    + rewrite decide_False by (by intros [? ?]).
      destruct (IH s Hreg) as (s' & -> & Hdel & Hmap & Hconn & Hinv).
      exists s'. split; [done|]. done.
Qed.

(** X12.  Registering the hotplug callback announces the displays: the
    client is told [Connected] once for every display that exists at that
    point, in ascending order of the display ids and for no other id.  On
    the first registration the builtin displays are mapped before that
    ([s1] is the session after the mapping), on a later one nothing is
    mapped and the displays are announced again. *)
Theorem RegisterCallback_announces_displays s s1 :
  (if client_connected_ s then mret ()
   else HandleBuiltInDisplays)
    (set_callbacks_ (callbacks_Register CallbackHotplug true (callbacks_ s)).2 s)
  = Returned () s1 ->
  ∃ s', RegisterCallback true CallbackHotplug true s = Returned 0 s'
    ∧ delivered_ (callbacks_ s') =
        delivered_ (callbacks_ s)
        ++ ((λ disp, CbHotplug disp HWC2.Connected)
              <$> filter (λ disp, is_Some (hwc_display_ s1 !! disp))
                    (N.of_nat <$> seq 0 (N.to_nat kNumDisplays)))
    ∧ hwc_display_ s' = hwc_display_ s1
    ∧ client_connected_ s' = true
    ∧ need_invalidate_ s' = false.
Proof.
  intros Hmapped.
  assert (callbacks_ s1
          = (callbacks_Register CallbackHotplug true (callbacks_ s)).2) as Hcb.
  { destruct (client_connected_ s).
    - by injection Hmapped as <-.
    - eapply (preserved_returned callbacks_) in Hmapped; [exact Hmapped|].
      apply preserved_HandleBuiltInDisplays; [done|].
      intros r g _. by apply preserved_assign_ignored. }
  destruct (notify_all_connected_delivers (N.of_nat <$> seq 0 (N.to_nat kNumDisplays)) s1)
    as (s2 & Hnotify & Hdel & Hmap & _ & _); [by rewrite Hcb|].
  unfold RegisterCallback. unfold_monad.
  cbn [negb callbacks_Register bool_decide decide_rel andb].
  rewrite decide_False by (by intros ?).
  rewrite bool_decide_eq_true_2 by done.
  cbn [andb callbacks_ set_callbacks_ client_connected_ negb] in *.
  destruct (client_connected_ s) eqn:Hconn; cbn [negb].
  - cbn [callbacks_Register snd] in Hmapped, Hcb. injection Hmapped as <-. rewrite Hnotify.
    eexists. split; [reflexivity|]. cbn. rewrite Hdel, Hmap. done.
  - cbn [callbacks_Register snd] in Hmapped, Hcb. rewrite Hmapped. rewrite Hnotify.
    eexists. split; [reflexivity|]. cbn. rewrite Hdel, Hmap, Hcb. done.
Qed.

(** *** What the destruction of one display leaves alone *)

Lemma bool_decide_eq_iff (P Q : Prop) `{Decision P, Decision Q} :
  bool_decide P = bool_decide Q -> P ↔ Q.
Proof.
  intros Heq. split; intros H'.
  - apply (bool_decide_eq_true_1 Q). rewrite <-Heq. by apply bool_decide_eq_true_2.
  - apply (bool_decide_eq_true_1 P). rewrite Heq. by apply bool_decide_eq_true_2.
Qed.

Lemma lookup_ref_assign_ne r r' g s :
  is_slot r' = true -> r' ≠ r -> lookup_ref r' (final (assign r g s)) = lookup_ref r' s.
Proof.
  intros Hr' Hne. destruct r, r'; cbn in *; try done;
    apply list_lookup_alter_ne; congruence.
Qed.

Lemma lookup_ref_set_hwc_display_ r v s :
  lookup_ref r (set_hwc_display_ v s) = lookup_ref r s.
Proof. by destruct r. Qed.

Lemma DestroyDisplay_effect r s m :
  is_slot r = true ->
  lookup_ref r s = Some m ->
  (disp_type m = kPluggable ->
     pluggable_is_primary_ s = false ∧ on_refresh_ (callbacks_ s) = true) ->
  ∃ s', DestroyDisplay r s = Returned () s'
    ∧ hwc_display_ s' !! client_id m = None
    ∧ (∀ c, c ≠ client_id m ->
         is_Some (hwc_display_ s' !! c) ↔ is_Some (hwc_display_ s !! c))
    ∧ lookup_ref r s' = Some (match hwc_display_ s !! client_id m with Some _ => Reset m | None => m end)
    ∧ (∀ r', is_slot r' = true -> r' ≠ r -> lookup_ref r' s' = lookup_ref r' s)
    ∧ destroy_context s' = destroy_context s.
Proof.
  intros Hr Hm Hplug.
  assert (∀ c disp, preserved (λ s, bool_decide (is_Some (hwc_display_ s !! c)))
                      (HandleConcurrency disp)) as Hocc.
  { intros c disp. apply preserved_HandleConcurrency_by. apply occupied_ActivateDisplay. }
  assert (∀ r' disp, preserved (lookup_ref r') (HandleConcurrency disp)) as Href.
  { intros r' disp. apply preserved_HandleConcurrency. apply lookup_ref_set_hwc_display_. }
  assert (∀ disp, preserved destroy_context (HandleConcurrency disp)) as Hctx.
  { intros disp. by apply preserved_HandleConcurrency. }
  unfold DestroyDisplay, load. unfold mbind at 1, M_bind at 1. rewrite Hm.
  assert (disp_type m ≠ kPluggable ->
          ∃ s', DestroyNonPluggableDisplay r s = Returned () s'
            ∧ hwc_display_ s' !! client_id m = None
            ∧ (∀ c, c ≠ client_id m ->
                 is_Some (hwc_display_ s' !! c) ↔ is_Some (hwc_display_ s !! c))
            ∧ lookup_ref r s' = Some (match hwc_display_ s !! client_id m with Some _ => Reset m | None => m end)
            ∧ (∀ r', is_slot r' = true -> r' ≠ r -> lookup_ref r' s' = lookup_ref r' s)
            ∧ destroy_context s' = destroy_context s) as Hnon.
  { intros _. unfold DestroyNonPluggableDisplay, load, set_hdr, destroy_object.
    unfold_monad. rewrite Hm. cbn.
    destruct (hwc_display_ s !! client_id m) as [d|] eqn:Hd; cbn.
    - eexists. split; [reflexivity|]. split_and!.
      + destruct r; cbn; by rewrite lookup_delete_eq.
      + intros c Hc. destruct r; cbn; by rewrite lookup_delete_ne.
      + destruct r; cbn in *; try done; simplify_eq/=; try done;
          by rewrite list_lookup_alter_eq, Hm.
      + intros r' Hr' Hne.
        destruct r, r'; cbn in *; try done; apply list_lookup_alter_ne; congruence.
      + by destruct r.
    - exists s. by rewrite Hd. }
  destruct (disp_type m) eqn:Ht; try (by apply Hnon).
  destruct Hplug as [Hp Hreg]; [done|]. clear Hnon.
  unfold DestroyPluggableDisplay, load, notify_hotplug, Refresh, settle_delay, set_hdr,
    destroy_object, callbacks_Refresh, callbacks_Hotplug, GetVsyncPeriod.
  unfold_monad. rewrite Hm. cbn. rewrite Hp. cbn.
  destruct (on_hotplug_ (callbacks_ s)); cbn; rewrite Hreg; cbn;
    rewrite decide_True by done; cbn.
  all: destruct (hwc_display_ s !! client_id m) as [d|] eqn:Hd; cbn; rewrite ?Hp; cbn.
  all: try (eexists; split; [reflexivity|]; cbn; rewrite ?Hd;
            split_and!; [done|done|by destruct r|intros; by destruct r'|
                         unfold destroy_context; cbn; by rewrite Hreg]).
  all: destruct r as [|i|i|i|?]; [..|done].
  all: match goal with |- context [HandleConcurrency ?c ?s1] =>
         destruct (HandleConcurrency_returns c s1) as ([] & s' & Hhc);
         pose proof (λ c', preserved_returned _ _ _ _ _ (Hocc c' c) Hhc) as Hocc';
         pose proof (λ r', preserved_returned _ _ _ _ _ (Href r' c) Hhc) as Href';
         pose proof (preserved_returned _ _ _ _ _ (Hctx c) Hhc) as Hctx';
         rewrite Hhc; exists s'; clear Hhc
       end.
  all: cbn in Hocc', Href', Hctx'; split; [reflexivity|].
  all: split;
    [ specialize (Hocc' (client_id m)); rewrite lookup_delete_eq in Hocc';
      destruct (hwc_display_ s' !! client_id m); [|done];
      rewrite bool_decide_eq_true_2 in Hocc' by eauto;
      rewrite bool_decide_eq_false_2 in Hocc'; [done|by intros [? ?]]
    | ].
  all: split;
    [ intros c Hc; specialize (Hocc' c); rewrite lookup_delete_ne in Hocc' by done;
      exact (bool_decide_eq_iff _ _ Hocc')
    | ].
  all: split; [rewrite Href'; cbn in Hm |- *; simplify_eq/=; try done;
               by rewrite list_lookup_alter_eq, Hm|].
  all: split; [|rewrite Hctx'; unfold destroy_context; cbn; by rewrite Hreg].
  all: intros r' Hr' Hne; rewrite Href'; destruct r'; cbn in *; try done;
    apply list_lookup_alter_ne; congruence.
Qed.

(** *** Disconnected pluggable displays *)

Lemma client_ids_alter_Reset i (l : list DisplayMapInfo) :
  client_id <$> alter Reset i l = client_id <$> l.
Proof.
  rewrite (list_fmap_alter _ _ id) by (apply Forall_forall; intros; done).
  by apply list_alter_id.
Qed.

Lemma disconnect_pluggables_spec infos slots s :
  NoDup slots ->
  Forall (λ i, i < length (map_info_pluggable_ s))%nat slots ->
  pluggable_is_primary_ s = false ->
  on_refresh_ (callbacks_ s) = true ->
  NoDup (client_id <$> map_info_pluggable_ s) ->
  ∃ s', disconnect_pluggables infos slots s = Returned () s'
    ∧ destroy_context s' = destroy_context s
    ∧ ∀ j m, map_info_pluggable_ s !! j = Some m ->
        if bool_decide (j ∈ slots) && disconnected infos m
        then hwc_display_ s' !! client_id m = None
             ∧ map_info_pluggable_ s' !! j =
                 Some (match hwc_display_ s !! client_id m with
                       | Some _ => Reset m
                       | None => m
                       end)
        else map_info_pluggable_ s' !! j = Some m
             ∧ (is_Some (hwc_display_ s' !! client_id m)
                ↔ is_Some (hwc_display_ s !! client_id m)).
Proof.
  intros Hslots. revert s.
  induction Hslots as [|i slots Hi Hnd IH]; intros s Hlen Hp Hreg Hids.
  { exists s. split_and!; [done..|]. intros j m Hm. cbn. done. }
  apply Forall_cons in Hlen as [Hlt Hlen].
  destruct (lookup_lt_is_Some_2 _ _ Hlt) as [mi Hmi].
  cbn [disconnect_pluggables]. unfold load. unfold mbind at 1, M_bind at 1.
  cbn [lookup_ref]. rewrite Hmi. unfold when.
  destruct (disconnected infos mi) eqn:Hdis.
  - destruct (DestroyDisplay_effect (RefPluggable i) s mi) as
      (s1 & Hrun & Hgone & Hrest & Hslot & Hothers & Hctx); [done..|].
    unfold_monad. rewrite Hrun. cbn [lookup_ref] in Hslot.
    assert (client_id <$> map_info_pluggable_ s1 = client_id <$> map_info_pluggable_ s)
      as Hids1.
    { apply list_eq. intros j. rewrite !list_lookup_fmap.
      destruct (decide (j = i)) as [->|Hne].
      - rewrite Hslot, Hmi. by destruct (hwc_display_ s !! client_id mi).
      - specialize (Hothers (RefPluggable j)). cbn in Hothers.
        rewrite Hothers; [done..|congruence]. }
    pose proof Hctx as Hctx0. injection Hctx as Hp1 Hreg1 _.
    destruct (IH s1) as (s' & -> & Hctx' & Hall).
    { eapply Forall_impl; [exact Hlen|]. intros j Hj. cbn in Hj.
      rewrite <-(length_fmap client_id), Hids1, length_fmap. done. }
    { congruence. } { congruence. } { by rewrite Hids1. }
    exists s'. split; [done|]. split.
    { by rewrite Hctx'. }
    intros j m Hm. destruct (decide (j = i)) as [->|Hne].
    + assert (m = mi) as -> by congruence.
      rewrite bool_decide_eq_true_2 by left. cbn [andb]. rewrite Hdis.
      specialize (Hall i _ Hslot). rewrite bool_decide_eq_false_2 in Hall by done.
      cbn [andb] in Hall. destruct Hall as [Hs' Hpres].
      assert (client_id (match hwc_display_ s !! client_id mi with
                         | Some _ => Reset mi
                         | None => mi
                         end) = client_id mi) as Hcid
        by (by destruct (hwc_display_ s !! client_id mi)).
      rewrite Hcid in Hpres. split; [|done].
      destruct (hwc_display_ s' !! client_id mi) eqn:E; [|done].
      destruct Hpres as [Hpres _]. rewrite Hgone in Hpres.
      by destruct Hpres.
    + assert (map_info_pluggable_ s1 !! j = Some m) as Hm1.
      { specialize (Hothers (RefPluggable j)). cbn in Hothers.
        rewrite Hothers; [done..|congruence]. }
      assert (client_id m ≠ client_id mi) as Hcne.
      { intros Heq. apply Hne. eapply NoDup_lookup; [exact Hids|..];
          rewrite list_lookup_fmap; [by rewrite Hm|by rewrite Hmi, Heq]. }
      specialize (Hall j m Hm1). specialize (Hrest _ Hcne).
      rewrite (bool_decide_ext (j ∈ i :: slots) (j ∈ slots))
        by (rewrite elem_of_cons; intuition congruence).
      destruct (bool_decide (j ∈ slots) && disconnected infos m).
      * destruct Hall as [? ->]. split; [done|].
        destruct (hwc_display_ s1 !! client_id m) eqn:E1,
          (hwc_display_ s !! client_id m) eqn:E; try done.
        -- destruct Hrest as [[? ?] _]; [eauto|done].
        -- destruct Hrest as [_ [? ?]]; [eauto|done].
      * destruct Hall as [? Hiff]. split; [done|]. by rewrite Hiff.
  - unfold_monad. destruct (IH s) as (s' & -> & Hctx' & Hall); [done..|].
    exists s'. split_and!; [done..|]. intros j m Hm.
    specialize (Hall j m Hm). destruct (decide (j = i)) as [->|Hne].
    + assert (m = mi) as -> by congruence. rewrite Hdis, andb_false_r.
      rewrite bool_decide_eq_false_2 in Hall by done. done.
    + rewrite (bool_decide_ext (j ∈ i :: slots) (j ∈ slots))
        by (rewrite elem_of_cons; intuition congruence). done.
Qed.

(** X13.  [HandleDisconnectedDisplays] follows the snapshot of the hardware
    slot by slot (primary display not pluggable, refresh callback in place,
    pluggable slots with distinct ids): a slot whose sdm id the snapshot
    does not list as connected ends without a display object, and is reset
    if it had one; every other slot is as before, and its display object is
    still there if it was. *)
Theorem HandleDisconnectedDisplays_follows_snapshot infos s :
  pluggable_is_primary_ s = false ->
  on_refresh_ (callbacks_ s) = true ->
  NoDup (client_id <$> map_info_pluggable_ s) ->
  ∃ s', HandleDisconnectedDisplays infos s = Returned 0 s'
    ∧ ∀ i m, map_info_pluggable_ s !! i = Some m ->
        if disconnected infos m
        then hwc_display_ s' !! client_id m = None
             ∧ map_info_pluggable_ s' !! i =
                 Some (match hwc_display_ s !! client_id m with
                       | Some _ => Reset m
                       | None => m
                       end)
        else map_info_pluggable_ s' !! i = Some m
             ∧ (is_Some (hwc_display_ s' !! client_id m)
                ↔ is_Some (hwc_display_ s !! client_id m)).
Proof.
  intros Hp Hreg Hids.
  destruct (disconnect_pluggables_spec infos (seq 0 (length (map_info_pluggable_ s))) s)
    as (s' & Hrun & _ & Hall); [apply NoDup_seq| |done..|].
  { apply Forall_seq. intros j ?. lia. }
  unfold HandleDisconnectedDisplays. unfold_monad. cbn. rewrite Hp. cbn. rewrite Hrun.
  exists s'. split; [done|]. intros i m Hm. specialize (Hall i m Hm).
  rewrite bool_decide_eq_true_2 in Hall; [done|].
  apply elem_of_seq. apply lookup_lt_Some in Hm. lia.
Qed.

(** *** Teardown *)

Lemma destroy_displays_spec (slot : nat -> MapInfoRef) slots s :
  (∀ i, is_slot (slot i) = true) ->
  Forall (λ i, is_Some (lookup_ref (slot i) s)) slots ->
  pluggable_is_primary_ s = false ->
  on_refresh_ (callbacks_ s) = true ->
  ∃ s', destroy_displays slot slots s = Returned () s'
    ∧ destroy_context s' = destroy_context s
    ∧ color_mgr_ s' = color_mgr_ s
    ∧ (∀ c, is_Some (hwc_display_ s' !! c) -> is_Some (hwc_display_ s !! c))
    ∧ (∀ r, is_slot r = true ->
         client_id <$> lookup_ref r s' = client_id <$> lookup_ref r s)
    ∧ (∀ i m, i ∈ slots -> lookup_ref (slot i) s = Some m ->
         hwc_display_ s' !! client_id m = None).
Proof.
  intros Hslot Hall. revert s Hall.
  induction slots as [|i slots IH]; intros s Hall Hp Hreg.
  { exists s. split_and!; try done. intros i m Hi. by apply elem_of_nil in Hi. }
  apply Forall_cons in Hall as [[mi Hmi] Hall].
  destruct (DestroyDisplay_effect (slot i) s mi) as
    (s1 & Hrun & Hgone & Hrest & Hthis & Hothers & Hctx); [done..|].
  assert (color_mgr_ s1 = color_mgr_ s) as Hcolor.
  { eapply (preserved_returned color_mgr_); [|exact Hrun].
    apply preserved_DestroyDisplay; try done.
    intros r g _. by apply preserved_assign_ignored. }
  assert (∀ r, is_slot r = true ->
            client_id <$> lookup_ref r s1 = client_id <$> lookup_ref r s) as Hids.
  { intros r Hr. destruct (decide (r = slot i)) as [->|Hne].
    - rewrite Hthis, Hmi. by destruct (hwc_display_ s !! client_id mi).
    - by rewrite Hothers. }
  assert (∀ c, is_Some (hwc_display_ s1 !! c) -> is_Some (hwc_display_ s !! c)) as Hmono.
  { intros c Hc. destruct (decide (c = client_id mi)) as [->|Hne].
    - rewrite Hgone in Hc. by destruct Hc.
    - by apply Hrest. }
  pose proof Hctx as Hctx0. injection Hctx as Hp1 Hreg1 _.
  destruct (IH s1) as (s' & Hrun' & Hctx' & Hcolor' & Hmono' & Hids' & Hgone').
  { eapply Forall_impl; [exact Hall|]. intros j [mj Hj]. cbn.
    specialize (Hids (slot j) (Hslot j)). rewrite Hj in Hids.
    destruct (lookup_ref (slot j) s1); [eauto|done]. }
  { congruence. } { congruence. }
  exists s'. cbn [destroy_displays]. unfold_monad. rewrite Hrun, Hrun'.
  split_and!; [done|congruence|congruence|by auto| |].
  - intros r Hr. rewrite Hids', Hids; done.
  - intros j m Hj Hm. apply elem_of_cons in Hj as [->|Hj].
    + assert (m = mi) as -> by congruence.
      destruct (hwc_display_ s' !! client_id mi) eqn:E; [|done].
      destruct (Hmono' (client_id mi)) as [? Hc]; [eauto|]. by rewrite Hgone in Hc.
    + specialize (Hids (slot j) (Hslot j)). rewrite Hm in Hids.
      destruct (lookup_ref (slot j) s1) as [m1|] eqn:Hm1; [|done].
      injection Hids as Hcid. rewrite <-Hcid. by eapply Hgone'.
Qed.

Lemma Forall_seq_is_Some (l : list DisplayMapInfo) :
  Forall (λ i, is_Some (l !! i)) (seq 0 (length l)).
Proof. apply Forall_seq_lookup. intros i Hi. by apply lookup_lt_is_Some_2. Qed.

(** X14.  [Deinit] leaves no display object behind in any slot (primary
    display not pluggable, refresh callback in place): after it, the
    display of the primary slot and of every builtin, pluggable and
    virtual slot is gone, every slot still has its client id, the core is
    destroyed, and the uevent listener is taken back after the color
    manager, if there is one, was destroyed. *)
Theorem Deinit_destroys_every_display s :
  pluggable_is_primary_ s = false ->
  on_refresh_ (callbacks_ s) = true ->
  ∃ s', Deinit s
        = Returned (0, (if color_mgr_ s then [DestroyColorManager] else [])
                       ++ [UEventRegisterNull]) s'
    ∧ core_intf_ s' = None
    ∧ ∀ r m, is_slot r = true -> lookup_ref r s = Some m ->
        hwc_display_ s' !! client_id m = None
        ∧ client_id <$> lookup_ref r s' = Some (client_id m).
Proof.
  intros Hp Hreg.
  destruct (destroy_displays_spec (λ _, RefPrimary) [0%nat] s)
    as (s1 & Hrun1 & Hctx1 & Hcol1 & Hmono1 & Hids1 & Hgone1);
    [done|by repeat constructor; eauto|done..|].
  cbn [destroy_displays] in Hrun1.
  assert (DestroyDisplay RefPrimary s = Returned () s1) as Hprimary.
  { revert Hrun1. unfold_monad. by destruct (DestroyDisplay RefPrimary s) as [[] ?| |]. }
  clear Hrun1. pose proof Hctx1 as Hc1. injection Hc1 as Hp1 Hreg1 _.
  destruct (destroy_displays_spec RefBuiltin (seq 0 (length (map_info_builtin_ s1))) s1)
    as (s2 & Hrun2 & Hctx2 & Hcol2 & Hmono2 & Hids2 & Hgone2);
    [done|apply Forall_seq_is_Some|congruence..|].
  pose proof Hctx2 as Hc2. injection Hc2 as Hp2 Hreg2 _.
  destruct (destroy_displays_spec RefPluggable (seq 0 (length (map_info_pluggable_ s2))) s2)
    as (s3 & Hrun3 & Hctx3 & Hcol3 & Hmono3 & Hids3 & Hgone3);
    [done|apply Forall_seq_is_Some|congruence..|].
  pose proof Hctx3 as Hc3. injection Hc3 as Hp3 Hreg3 _.
  destruct (destroy_displays_spec RefVirtual (seq 0 (length (map_info_virtual_ s3))) s3)
    as (s4 & Hrun4 & Hctx4 & Hcol4 & Hmono4 & Hids4 & Hgone4);
    [done|apply Forall_seq_is_Some|congruence..|].
  unfold Deinit, DestroyCore. unfold_monad. rewrite Hprimary. cbn.
  rewrite Hrun2. cbn. rewrite Hrun3. cbn. rewrite Hrun4. cbn.
  eexists. split; [by rewrite Hcol4, Hcol3, Hcol2, Hcol1|]. split; [done|].
  intros r m Hr Hm. cbn. split.
  - assert (∀ m1, lookup_ref r s1 = Some m1 -> client_id m1 = client_id m) as Hid1.
    { intros m1 Hm1. specialize (Hids1 r Hr). rewrite Hm, Hm1 in Hids1. by injection Hids1. }
    assert (∀ m2, lookup_ref r s2 = Some m2 -> client_id m2 = client_id m) as Hid2.
    { intros m2 Hm2. specialize (Hids2 r Hr). rewrite Hm2 in Hids2.
      destruct (lookup_ref r s1) as [m1|] eqn:Hm1; [|done].
      injection Hids2 as ->. by apply Hid1. }
    assert (∀ m3, lookup_ref r s3 = Some m3 -> client_id m3 = client_id m) as Hid3.
    { intros m3 Hm3. specialize (Hids3 r Hr). rewrite Hm3 in Hids3.
      destruct (lookup_ref r s2) as [m2|] eqn:Hm2; [|done].
      injection Hids3 as ->. by apply Hid2. }
    assert (¬ is_Some (hwc_display_ s4 !! client_id m)) as Hnone;
      [|destruct (hwc_display_ s4 !! client_id m); [destruct Hnone; eauto|done]].
    intros Hsome. destruct r as [|i|i|i|?]; [..|done].
    + apply Hmono4, Hmono3, Hmono2 in Hsome.
      rewrite (Hgone1 0%nat m) in Hsome; [by destruct Hsome|by left|done].
    + apply Hmono4, Hmono3 in Hsome.
      destruct (lookup_ref (RefBuiltin i) s1) as [m1|] eqn:Hm1.
      2: { specialize (Hids1 _ Hr). by rewrite Hm, Hm1 in Hids1. }
      rewrite <-(Hid1 _ eq_refl) in Hsome.
      rewrite (Hgone2 i m1) in Hsome; [by destruct Hsome| |done].
      apply elem_of_seq. cbn in Hm1. apply lookup_lt_Some in Hm1. lia.
    + apply Hmono4 in Hsome.
      destruct (lookup_ref (RefPluggable i) s2) as [m2|] eqn:Hm2.
      2: { specialize (Hids2 _ Hr). specialize (Hids1 _ Hr).
           rewrite Hm2, Hids1, Hm in Hids2. done. }
      rewrite <-(Hid2 _ eq_refl) in Hsome.
      rewrite (Hgone3 i m2) in Hsome; [by destruct Hsome| |done].
      apply elem_of_seq. cbn in Hm2. apply lookup_lt_Some in Hm2. lia.
    + destruct (lookup_ref (RefVirtual i) s3) as [m3|] eqn:Hm3.
      2: { specialize (Hids3 _ Hr). specialize (Hids2 _ Hr). specialize (Hids1 _ Hr).
           rewrite Hm3, Hids2, Hids1, Hm in Hids3. done. }
      rewrite <-(Hid3 _ eq_refl) in Hsome.
      rewrite (Hgone4 i m3) in Hsome; [by destruct Hsome| |done].
      apply elem_of_seq. cbn in Hm3. apply lookup_lt_Some in Hm3. lia.
  - transitivity (client_id <$> lookup_ref r s4); [by destruct r|].
    by rewrite Hids4, Hids3, Hids2, Hids1, Hm.
Qed.

(** *** The concurrency arbiter *)










#[local] Arguments ActivateDisplay : simpl never.

Lemma ActivateDisplay_final c enable s :
  ActivateDisplay c enable s = Returned () (final (ActivateDisplay c enable s)).
Proof. done. Qed.




End SessionExtras.

(** *** The statements at work *)


Lemma DestroyVirtualDisplay_unknown_id_witness :
  Session.DestroyVirtualDisplay (limits := Scenario.limits) (engine := Scenario.spec_engine true)
    true 1%N Scenario.plugged
  = Session.Returned HWC2.None Scenario.plugged.
Proof.
  apply (DestroyVirtualDisplay_unknown_id (limits := Scenario.limits)
           (engine := Scenario.spec_engine true) 1%N Scenario.plugged).
  - reflexivity.
  - refine (bool_decide_unpack _ _). vm_compute. exact I.
Defined.

Lemma CreateVirtualDisplayObj_nothing_to_create_witness :
  ∃ s', Session.CreateVirtualDisplayObj (engine := Scenario.spec_engine true) 7%N
          Situation.no_writeback
        = Session.Returned (HWC2.None, 7%N) s'
    ∧ Session.map_info_virtual_ s' = Session.map_info_virtual_ Situation.no_writeback.
Proof.
  destruct (CreateVirtualDisplayObj_nothing_to_create (engine := Scenario.spec_engine true)
              Situation.no_writeback
              (Session.mkCoreInterface (Some [Scenario.panel; Scenario.hdmi true])
                 (Some Session.kBuiltIn)
                 (Session.GetMaxDisplaysSupported
                    (Scenario.hardware [Scenario.panel; Scenario.hdmi false; Scenario.writeback]
                       1 1 1)))
              [Scenario.panel; Scenario.hdmi true]
              (default (Session.mkHWCDisplay Session.HWCDisplayBuiltIn 0 0 HWC2.Off true
                          Session.kNoValidate false false 0 ∅)
                 (Session.hwc_display_ Situation.no_writeback !! Session.HWC_DISPLAY_PRIMARY))
              7%N) as (s' & Hrun & _ & Hvirtual & _).
  - reflexivity.
  - reflexivity.
  - reflexivity.
  - left. repeat constructor; discriminate.
  - vm_compute. reflexivity.
  - vm_compute. reflexivity.
  - exists s'. split; [exact Hrun|exact Hvirtual].
Defined.

Lemma SetPowerMode_pending_refresh_bit_witness :
  ∃ s', Session.SetPowerMode (limits := Scenario.limits) (engine := Scenario.spec_engine true)
          true 0%N 1 Scenario.plugged = Session.Returned HWC2.None s'
    ∧ Session.pending_refresh_ s' = N.setbit (Session.pending_refresh_ Scenario.plugged) 0%N
    ∧ Session.delivered_ (Session.callbacks_ s')
      = Session.delivered_ (Session.callbacks_ Scenario.plugged) ++ [Session.CbRefresh 0%N].
Proof.
  pose (s' := Session.final
                (Session.SetPowerMode (limits := Scenario.limits)
                   (engine := Scenario.spec_engine true) true 0%N 1 Scenario.plugged)).
  assert (Session.SetPowerMode (limits := Scenario.limits)
            (engine := Scenario.spec_engine true) true 0%N 1 Scenario.plugged
          = Session.Returned HWC2.None s') as Hrun by (vm_compute; reflexivity).
  clearbody s'.
  destruct (SetPowerMode_pending_refresh_bit (limits := Scenario.limits)
              (engine := Scenario.spec_engine true) true 0%N 1 Scenario.plugged s' Hrun)
    as [Hpending Hdelivered].
  rewrite decide_True in Hpending by reflexivity.
  rewrite decide_True in Hdelivered by reflexivity.
  exists s'. split_and!; [exact Hrun|exact Hpending|exact Hdelivered].
Defined.

Lemma RegisterCallback_announces_displays_witness :
  ∃ s', Session.RegisterCallback (limits := Scenario.limits)
          (engine := Scenario.spec_engine true) true Session.CallbackHotplug true
          Situation.created = Session.Returned 0 s'
    ∧ Session.delivered_ (Session.callbacks_ s')
      = [Session.CbHotplug 0%N HWC2.Connected; Session.CbHotplug 3%N HWC2.Connected].
Proof.
  destruct (RegisterCallback_announces_displays (limits := Scenario.limits)
              (engine := Scenario.spec_engine true) Situation.created
              (Session.final
                 (Session.HandleBuiltInDisplays (engine := Scenario.spec_engine true)
                    (Session.set_callbacks_
                       (Session.callbacks_Register Session.CallbackHotplug true
                          (Session.callbacks_ Situation.created)).2 Situation.created))))
    as (s' & Hrun & Hdelivered & _).
  - vm_compute. reflexivity.
  - exists s'. split; [exact Hrun|]. rewrite Hdelivered. vm_compute. reflexivity.
Defined.

Lemma HandleDisconnectedDisplays_follows_snapshot_witness :
  ∃ s', Session.HandleDisconnectedDisplays (limits := Scenario.limits)
          (engine := Scenario.spec_engine true)
          [Scenario.panel; Scenario.hdmi false; Scenario.writeback] Scenario.plugged
        = Session.Returned 0 s'
    ∧ Session.hwc_display_ s' !! 1%N = None.
Proof.
  destruct (HandleDisconnectedDisplays_follows_snapshot (limits := Scenario.limits)
              (engine := Scenario.spec_engine true)
              [Scenario.panel; Scenario.hdmi false; Scenario.writeback] Scenario.plugged)
    as (s' & Hrun & Hslots).
  - reflexivity.
  - reflexivity.
  - refine (bool_decide_unpack _ _). vm_compute. exact I.
  - exists s'. split; [exact Hrun|].
    exact (proj1 (Hslots 0%nat (Session.mkDisplayMapInfo 1 1 Session.kPluggable false)
                    eq_refl)).
Defined.

Lemma Deinit_destroys_every_display_witness :
  ∃ s', SessionTeardown.Deinit (limits := Scenario.limits)
          (engine := Scenario.spec_engine true) Scenario.plugged
        = Session.Returned (0, [SessionTeardown.DestroyColorManager;
                                SessionTeardown.UEventRegisterNull]) s'
    ∧ Session.core_intf_ s' = None
    ∧ Session.hwc_display_ s' !! 0%N = None
    ∧ Session.hwc_display_ s' !! 1%N = None.
Proof.
  destruct (Deinit_destroys_every_display (limits := Scenario.limits)
              (engine := Scenario.spec_engine true) Scenario.plugged)
    as (s' & Hrun & Hcore & Hslots).
  - reflexivity.
  - reflexivity.
  - exists s'. split_and!; [exact Hrun|exact Hcore| |].
    + exact (proj1 (Hslots Session.RefPrimary _ eq_refl eq_refl)).
    + exact (proj1 (Hslots (Session.RefPluggable 0)
                      (Session.mkDisplayMapInfo 1 1 Session.kPluggable false)
                      eq_refl eq_refl)).
Defined.


(** ** The text of a uevent *)

Section UEventProperties.

Import UEvent.

Context {libc : CLibrary}.

Lemma c_str_record record rest :
  NUL ∉ record -> c_str (record ++ NUL :: rest) = record.
Proof.
  induction record as [|c record IH]; intros Hnul; cbn.
  - by rewrite decide_True.
  - rewrite decide_False by (intros ->; apply Hnul; left).
    f_equal. apply IH. intros ?. apply Hnul. by right.
Qed.

Lemma c_str_drop_record k record rest :
  NUL ∉ record -> (k ≤ List.length record)%nat ->
  c_str (drop k (record ++ NUL :: rest)) = drop k record.
Proof.
  intros Hnul Hk. rewrite drop_app_le by done.
  apply c_str_record. intros Hin. apply Hnul. by apply (subseteq_drop k record).
Qed.

Lemma is_prefix_length needle haystack :
  is_prefix needle haystack = true -> (List.length needle ≤ List.length haystack)%nat.
Proof.
  revert haystack. induction needle as [|a needle IH]; intros [|b haystack]; cbn;
    try done; try lia.
  intros [_ H]%andb_true_iff. apply IH in H. lia.
Qed.

(** An occurrence lies inside the string. *)
Lemma strstr_length haystack needle k :
  strstr haystack needle = Some k ->
  (k + List.length needle ≤ List.length haystack)%nat.
Proof.
  revert k. induction haystack as [|c haystack IH]; intros k; cbn [strstr].
  - destruct (is_prefix needle []) eqn:E; [|done]. intros [= <-].
    by apply is_prefix_length in E.
  - destruct (is_prefix needle (c :: haystack)) eqn:E.
    + intros [= <-]. by apply is_prefix_length in E.
    + destruct (strstr haystack needle) as [j|]; [|done]. intros [= <-].
      specialize (IH j eq_refl). cbn. lia.
Qed.

Lemma uevent_of_cons record records :
  uevent_of (record :: records) = record ++ NUL :: uevent_of records.
Proof. unfold uevent_of. cbn. by rewrite <-(assoc_L (++)). Qed.

Lemma uevent_of_length records :
  Forall well_formed records -> (List.length records ≤ List.length (uevent_of records))%nat.
Proof.
  induction 1 as [|record records _ _ IH]; [done|].
  rewrite uevent_of_cons, length_app. cbn. lia.
Qed.

Lemma GetEventValue_loop_records records : ∀ fuel uevent_data length event_info offset rest,
  Forall well_formed records ->
  c_str rest = [] ->
  drop offset uevent_data = uevent_of records ++ rest ->
  (List.length records < fuel)%nat ->
  Z.of_nat offset + Z.of_nat (List.length (uevent_of records)) ≤ length ->
  GetEventValue_loop fuel uevent_data length event_info offset =
    match record_with event_info records with
    | Some record => atoi (drop (List.length event_info) record)
    | None => -1
    end.
Proof.
  induction records as [|record records IH];
    intros fuel uevent_data length event_info offset rest Hwf Hrest Hdrop Hfuel Hlen.
  - destruct fuel as [|fuel]; [done|]. cbn [GetEventValue_loop].
    rewrite Hdrop. cbn [uevent_of fmap list_fmap concat app]. rewrite Hrest.
    by rewrite (bool_decide_eq_false_2 ([] ≠ [])), andb_false_r by (by intros ?).
  - apply Forall_cons in Hwf as [[Hne Hnul] Hwf].
    rewrite uevent_of_cons in Hdrop, Hlen. rewrite length_app in Hlen. cbn in Hlen, Hfuel.
    rewrite <-(assoc_L (++)) in Hdrop. cbn [app] in Hdrop.
    destruct fuel as [|fuel]; [lia|]. cbn [GetEventValue_loop].
    rewrite Hdrop, c_str_record by done.
    rewrite bool_decide_eq_true_2 by lia. rewrite bool_decide_eq_true_2 by done.
    cbn [andb]. unfold record_with. cbn [find].
    destruct (strstr record event_info) as [k|] eqn:Hk.
    + rewrite bool_decide_eq_true_2 by eauto.
      rewrite <-drop_drop, Hdrop. f_equal. apply c_str_drop_record; [done|].
      apply strstr_length in Hk. lia.
    + rewrite bool_decide_eq_false_2 by (by intros [? ?]).
      apply (IH _ _ _ _ _ rest); [done..| |lia|lia].
      rewrite <-Nat.add_assoc, <-drop_drop, Hdrop.
      by rewrite drop_app_add.
Qed.

Lemma GetTokenValue_loop_records records : ∀ fuel uevent_data length token offset rest,
  Forall well_formed records ->
  c_str rest = [] ->
  drop offset uevent_data = uevent_of records ++ rest ->
  (List.length records < fuel)%nat ->
  Z.of_nat offset + Z.of_nat (List.length (uevent_of records)) ≤ length ->
  (λ p, c_str (drop p uevent_data))
    <$> GetTokenValue_loop fuel uevent_data length token offset =
  (λ record, drop (default 0%nat (strstr record token) + List.length token) record)
    <$> record_with token records.
Proof.
  induction records as [|record records IH];
    intros fuel uevent_data length token offset rest Hwf Hrest Hdrop Hfuel Hlen.
  - destruct fuel as [|fuel]; [done|]. cbn [GetTokenValue_loop].
    rewrite Hdrop. cbn [uevent_of fmap list_fmap concat app]. rewrite Hrest.
    by rewrite (bool_decide_eq_false_2 ([] ≠ [])), andb_false_r by (by intros ?).
  - apply Forall_cons in Hwf as [[Hne Hnul] Hwf].
    rewrite uevent_of_cons in Hdrop, Hlen. rewrite length_app in Hlen. cbn in Hlen, Hfuel.
    rewrite <-(assoc_L (++)) in Hdrop. cbn [app] in Hdrop.
    destruct fuel as [|fuel]; [lia|]. cbn [GetTokenValue_loop].
    rewrite Hdrop, c_str_record by done.
    rewrite bool_decide_eq_true_2 by lia. rewrite bool_decide_eq_true_2 by done.
    cbn [andb]. unfold record_with. cbn [find].
    destruct (strstr record token) as [k|] eqn:Hk.
    + rewrite bool_decide_eq_true_2 by eauto. cbn. rewrite Hk. cbn. f_equal.
      rewrite <-Nat.add_assoc, <-drop_drop, Hdrop. apply c_str_drop_record; [done|].
      apply strstr_length in Hk. lia.
    + rewrite bool_decide_eq_false_2 by (by intros [? ?]).
      apply (IH _ _ _ _ _ rest); [done..| |lia|lia].
      rewrite <-Nat.add_assoc, <-drop_drop, Hdrop.
      by rewrite drop_app_add.
Qed.

(** X18.  On a uevent made of zero-terminated records, [GetEventValue] gives
    [-1] when no record contains the key, and otherwise the [atoi] of the
    first record that contains it, read from as many bytes behind the start
    of the record as the key is long: where in the record the key was found
    plays no part.  ([length] covers the records; what follows them in
    memory starts with a zero byte.) *)
Theorem GetEventValue_reads_from_record_start records rest length event_info :
  Forall well_formed records ->
  c_str rest = [] ->
  Z.of_nat (List.length (uevent_of records)) ≤ length ->
  GetEventValue (uevent_of records ++ rest) length event_info =
    match record_with event_info records with
    | Some record => atoi (drop (List.length event_info) record)
    | None => -1
    end.
Proof.
  intros Hwf Hrest Hlen. unfold GetEventValue.
  apply (GetEventValue_loop_records _ _ _ _ _ _ rest); [done..| |lia].
  apply uevent_of_length in Hwf. rewrite length_app. lia.
Qed.

(** X19.  On such a uevent [GetTokenValue] returns a null pointer when no
    record contains the token, and otherwise a pointer into the first
    record that contains it, to the text that follows the first occurrence
    of the token in that record. *)
Theorem GetTokenValue_points_behind_token records rest length token :
  Forall well_formed records ->
  c_str rest = [] ->
  Z.of_nat (List.length (uevent_of records)) ≤ length ->
  (λ p, c_str (drop p (uevent_of records ++ rest)))
    <$> GetTokenValue (uevent_of records ++ rest) length token =
  (λ record, drop (default 0%nat (strstr record token) + List.length token) record)
    <$> record_with token records.
Proof.
  intros Hwf Hrest Hlen. unfold GetTokenValue.
  apply (GetTokenValue_loop_records _ _ _ _ _ _ rest); [done..| |lia].
  apply uevent_of_length in Hwf. rewrite length_app. lia.
Qed.

End UEventProperties.

(** *** The statements at work *)

Lemma GetEventValue_reads_from_record_start_witness :
  UEvent.GetEventValue (libc := Situation.decimal_libc)
    (UEvent.uevent_of Situation.panel_event ++ [UEvent.NUL]) 55
    (String.list_ascii_of_string "PANEL_ALIVE=") = 0.
Proof.
  rewrite (GetEventValue_reads_from_record_start (libc := Situation.decimal_libc)
             Situation.panel_event [UEvent.NUL] 55
             (String.list_ascii_of_string "PANEL_ALIVE=")).
  - vm_compute. reflexivity.
  - repeat constructor; try discriminate;
      refine (bool_decide_unpack _ _); vm_compute; exact I.
  - reflexivity.
  - vm_compute. discriminate.
Defined.

Lemma GetTokenValue_points_behind_token_witness :
  (λ p, UEvent.c_str (drop p (UEvent.uevent_of Situation.hotplug_event ++ [UEvent.NUL])))
    <$> UEvent.GetTokenValue (UEvent.uevent_of Situation.hotplug_event ++ [UEvent.NUL]) 200
          (String.list_ascii_of_string "status=")
  = Some (String.list_ascii_of_string "connected").
Proof.
  rewrite (GetTokenValue_points_behind_token Situation.hotplug_event [UEvent.NUL] 200
             (String.list_ascii_of_string "status=")).
  - vm_compute. reflexivity.
  - repeat constructor; try discriminate;
      refine (bool_decide_unpack _ _); vm_compute; exact I.
  - reflexivity.
  - vm_compute. discriminate.
Defined.
